(** * The assistant bot of [main.py]: contact book, validators, birthday scheduler

    A shallow embedding of [src/main.py] and of the parts of the Python
    standard library it calls ([re.fullmatch], [datetime.strptime],
    [date.replace], [date] arithmetic, [strftime], [str.split]).

    Modelling conventions.
    - A Python [str] is a Rocq [string] that holds its UTF-8 encoding.
      [PyStr.chars] gives its characters, each as the text of one
      character, and [PyStr.ord] the code point of one.  A byte outside
      any well-formed sequence is a character of its own, with the code
      point [0xDC00 + byte] that Python's [surrogateescape] handler gives
      it; such a character is neither whitespace nor a digit.  So every
      [string] is a [str], and two are equal exactly when their bytes are.
    - The class [\d] of [re] on a [str] is the decimal digits of
      Unicode (category Nd), the set for which [str.isdecimal] holds:
      [PyStr.decimal] lists it as of Unicode 14, with the value of each
      digit.  [str.isspace], which [str.split] and [str.strip] use, holds
      for the code points in [PyStr.space_points].
    - A Python [int] is a [Z]; [//] is [Z.div], [%] is [Z.modulo] (both floor
      for a positive divisor), [>>] is [Z.shiftr].
    - An exception is a value of [exn]; code that can raise returns a
      [result]; methods that mutate [self] pass the object explicitly and
      return the object as it is left, also when they raise.
    - The dict inside [AddressBook] is an association list in insertion
      order, which is the iteration order of a Python dict.
    - [datetime.today().date()] is an input: the functions that read the
      clock take the date as the argument [today]. *)

From Stdlib Require Import ZArith List String Ascii Bool Lia.
Import ListNotations.

Local Open Scope list_scope.
Local Open Scope string_scope.
Local Open Scope Z_scope.

(** ** Exceptions and results *)

Inductive exn : Type :=
| ValueError (msg : string)
| KeyError (msg : string)
| IndexError (msg : string)
| OverflowError (msg : string).

Inductive result (A : Type) : Type :=
| Ok (a : A)
| Raise (e : exn).

Arguments Ok {A} a.
Arguments Raise {A} e.

Definition rbind {A B : Type} (r : result A) (k : A -> result B) : result B :=
  match r with
  | Ok a => k a
  | Raise e => Raise e
  end.

Notation "x <- r ;; k" := (rbind r (fun x => k))
  (at level 61, r at next level, right associativity).

Definition is_ok {A : Type} (r : result A) : bool :=
  match r with Ok _ => true | Raise _ => false end.

(** ** Python strings *)

Module PyStr.

Definition code (c : ascii) : Z := Z.of_N (N_of_ascii c).

(** The digits ['0'..'9'] that [str(n)] and [strftime] write. *)
Definition is_digit (c : ascii) : bool := (48 <=? code c) && (code c <=? 57).

Definition digit_val (c : ascii) : Z := code c - 48.

Definition digit_char (n : Z) : ascii := ascii_of_N (Z.to_N (n + 48)).

(** A continuation byte of UTF-8. *)
Definition cont (c : ascii) : bool := (128 <=? code c) && (code c <=? 191).

(** The number of bytes of the first character of a text: the length of
    the well-formed UTF-8 sequence the text starts with, and 1 for a byte
    that starts none. *)
Definition width (s : string) : nat :=
  match s with
  | EmptyString => 0%nat
  | String b0 s1 =>
      let n0 := code b0 in
      if n0 <? 194 then 1%nat
      else if n0 <? 224 then
        match s1 with
        | String b1 _ => if cont b1 then 2%nat else 1%nat
        | _ => 1%nat
        end
      else if n0 <? 240 then
        match s1 with
        | String b1 (String b2 _) =>
            if cont b1 && cont b2
               && negb ((n0 =? 224) && (code b1 <? 160))
               && negb ((n0 =? 237) && (159 <? code b1))
            then 3%nat else 1%nat
        | _ => 1%nat
        end
      else if n0 <? 245 then
        match s1 with
        | String b1 (String b2 (String b3 _)) =>
            if cont b1 && cont b2 && cont b3
               && negb ((n0 =? 240) && (code b1 <? 144))
               && negb ((n0 =? 244) && (143 <? code b1))
            then 4%nat else 1%nat
        | _ => 1%nat
        end
      else 1%nat
  end.

(** [s[0]] and [s[1:]]: the first character of a text and the text after
    it. *)
Definition next (s : string) : option (string * string) :=
  match s with
  | EmptyString => None
  | String b0 s1 =>
      match width s, s1 with
      | 2%nat, String b1 s2 => Some (String b0 (String b1 ""), s2)
      | 3%nat, String b1 (String b2 s3) =>
          Some (String b0 (String b1 (String b2 "")), s3)
      | 4%nat, String b1 (String b2 (String b3 s4)) =>
          Some (String b0 (String b1 (String b2 (String b3 ""))), s4)
      | _, _ => Some (String b0 "", s1)
      end
  end.

(** [list(s)]: the characters of a text, each a text of one character. *)
Fixpoint chars (s : string) : list string :=
  match s with
  | EmptyString => []
  | String b0 s1 =>
      match width s, s1 with
      | 2%nat, String b1 s2 => String b0 (String b1 "") :: chars s2
      | 3%nat, String b1 (String b2 s3) =>
          String b0 (String b1 (String b2 "")) :: chars s3
      | 4%nat, String b1 (String b2 (String b3 s4)) =>
          String b0 (String b1 (String b2 (String b3 ""))) :: chars s4
      | _, _ => String b0 "" :: chars s1
      end
  end.

(** [''.join(cs)] *)
Fixpoint text (cs : list string) : string :=
  match cs with
  | [] => ""
  | ch :: rest => ch ++ text rest
  end.

(** [ord(ch)] for a text of one character, and -1 for any other text. *)
Definition ord (ch : string) : Z :=
  if negb (Nat.eqb (width ch) (String.length ch)) then -1
  else
    match ch with
    | String b0 EmptyString =>
        if code b0 <? 128 then code b0 else 56320 + code b0
    | String b0 (String b1 EmptyString) =>
        (code b0 - 192) * 64 + (code b1 - 128)
    | String b0 (String b1 (String b2 EmptyString)) =>
        (code b0 - 224) * 4096 + (code b1 - 128) * 64 + (code b2 - 128)
    | String b0 (String b1 (String b2 (String b3 EmptyString))) =>
        (code b0 - 240) * 262144 + (code b1 - 128) * 4096
        + (code b2 - 128) * 64 + (code b3 - 128)
    | _ => -1
    end.

(** The code points of whitespace: TAB, LF, VT, FF, CR, FS, GS, RS, US,
    space, NEL, NBSP, U+1680, U+2000 to U+200A, U+2028, U+2029, U+202F,
    U+205F and U+3000. *)
Definition space_points : list Z :=
  [9; 10; 11; 12; 13; 28; 29; 30; 31; 32; 133; 160; 5760;
   8192; 8193; 8194; 8195; 8196; 8197; 8198; 8199; 8200; 8201; 8202;
   8232; 8233; 8239; 8287; 12288].

(** [ch.isspace()] for a text of one character. *)
Definition isspace (ch : string) : bool := existsb (Z.eqb (ord ch)) space_points.

(** The code point of the digit zero of each script of Unicode 14; the
    digits one to nine follow it. *)
Definition decimal_zeros : list Z :=
  [48; 1632; 1776; 1984; 2406; 2534; 2662; 2790; 2918; 3046; 3174; 3302;
   3430; 3558; 3664; 3792; 3872; 4160; 4240; 6112; 6160; 6470; 6608; 6784;
   6800; 6992; 7088; 7232; 7248; 42528; 43216; 43264; 43472; 43504; 43600;
   44016; 65296; 66720; 68912; 69734; 69872; 69942; 70096; 70384; 70736;
   70864; 71248; 71360; 71472; 71904; 72016; 72784; 73040; 73120; 92768;
   92864; 93008; 120782; 120792; 120802; 120812; 120822; 123200; 123632;
   125264; 130032].

(** The value of a decimal digit: [int(ch)] for a text of one character
    with [ch.isdecimal()], and [None] for any other text. *)
Definition decimal (ch : string) : option Z :=
  let n := ord ch in
  match List.find (fun z => (z <=? n) && (n <=? z + 9)) decimal_zeros with
  | Some z => Some (n - z)
  | None => None
  end.

(** [ch.isdecimal()] for a text of one character: what [\d] matches. *)
Definition isdecimal (ch : string) : bool :=
  match decimal ch with Some _ => true | None => false end.

(** The closed character range [[lo-hi]] of a regular expression. *)
Definition in_range (lo hi : ascii) (ch : string) : bool :=
  (code lo <=? ord ch) && (ord ch <=? code hi).

Fixpoint all_chars (p : ascii -> bool) (s : string) : bool :=
  match s with
  | EmptyString => true
  | String c s' => p c && all_chars p s'
  end.

Definition is_empty (s : string) : bool :=
  match s with EmptyString => true | String _ _ => false end.

(** [str.strip()]: the whitespace at both ends is dropped. *)
Fixpoint lstrip_chars (cs : list string) : list string :=
  match cs with
  | [] => []
  | ch :: rest => if isspace ch then lstrip_chars rest else cs
  end.

Definition rstrip_chars (cs : list string) : list string :=
  rev (lstrip_chars (rev cs)).

Definition strip (s : string) : string :=
  text (rstrip_chars (lstrip_chars (chars s))).

(** [str.split()] without arguments: the maximal runs of characters that
    are not whitespace, in order.  [word] is the run being read. *)
Fixpoint split_from (cs word : list string) : list (list string) :=
  match cs with
  | [] => match word with [] => [] | _ => [word] end
  | ch :: rest =>
      if isspace ch
      then match word with
           | [] => split_from rest []
           | _ => word :: split_from rest []
           end
      else split_from rest (word ++ [ch])
  end.

Definition split (s : string) : list string := map text (split_from (chars s) []).

(** [sep.join(parts)]. *)
Fixpoint join (sep : string) (parts : list string) : string :=
  match parts with
  | [] => ""
  | [p] => p
  | p :: rest => p ++ sep ++ join sep rest
  end.

(** Decimal digits of a non-negative integer, least significant first
    into [acc]; [fuel] bounds the number of digits. *)
Fixpoint digits_fuel (fuel : nat) (n : Z) (acc : string) : string :=
  match fuel with
  | O => acc
  | S fuel' =>
      let acc' := String (digit_char (n mod 10)) acc in
      if n <? 10 then acc' else digits_fuel fuel' (n / 10) acc'
  end.

(** [str(n)] for an integer [n]. *)
Definition str_of_int (n : Z) : string :=
  if n <? 0
  then "-" ++ digits_fuel (S (Z.to_nat (Z.log2 (- n)))) (- n) ""
  else digits_fuel (S (Z.to_nat (Z.log2 n))) n "".

(** The whitespace [int()] drops around a number: that of [str.isspace]
    without the separators FS, GS, RS and US. *)
Definition int_space (ch : string) : bool :=
  isspace ch && negb ((28 <=? ord ch) && (ord ch <=? 31)).

Fixpoint int_lstrip (cs : list string) : list string :=
  match cs with
  | [] => []
  | ch :: rest => if int_space ch then int_lstrip rest else cs
  end.

(** The digits of a number written as decimal digits with single
    underscores between them, or [None] for any other text. *)
Fixpoint int_body (cs : list string) : option (list Z) :=
  match cs with
  | [] => None
  | ch :: rest =>
      match decimal ch with
      | None => None
      | Some v =>
          match rest with
          | [] => Some [v]
          | u :: rest' =>
              option_map (cons v)
                (if (u =? "_")%string then int_body rest' else int_body rest)
          end
      end
  end.

(** [int(s)]: whitespace around the number is dropped, a sign may come
    first, and the digits may be of any script.  The limit is the default
    of [sys.get_int_max_str_digits()].  The first message quotes the text
    as Python does when it is printable and has no quote or backslash; the
    second is shortened. *)
Definition int (s : string) : result Z :=
  let cs := rev (int_lstrip (rev (int_lstrip (chars s)))) in
  let '(sign, body) :=
    match cs with
    | ch :: rest =>
        if (ch =? "-")%string then (-1, rest)
        else if (ch =? "+")%string then (1, rest)
        else (1, cs)
    | [] => (1, cs)
    end in
  match int_body body with
  | None =>
      Raise (ValueError ("invalid literal for int() with base 10: '" ++ s ++ "'"))
  | Some ds =>
      if 4300 <? Z.of_nat (List.length ds)
      then Raise (ValueError "Exceeds the limit (4300 digits) for integer string conversion")
      else Ok (sign * fold_left (fun acc v => acc * 10 + v) ds 0)
  end.

(** ["%02d"] for [0 <= n <= 99]. *)
Definition pad2 (n : Z) : string :=
  String (digit_char (n / 10)) (String (digit_char (n mod 10)) "").

End PyStr.

(** ** Regular expressions: a backtracking matcher

    A matcher maps the text at the current position to the list of its
    possible matches, each with a captured value and the text left, in the
    order in which the backtracking engine of [re] tries them. *)

Module Re.

Definition matcher (A : Type) : Type := string -> list (A * string).

Definition ret {A : Type} (a : A) : matcher A := fun s => [(a, s)].

Definition bind {A B : Type} (m : matcher A) (k : A -> matcher B) : matcher B :=
  fun s => flat_map (fun ar => k (fst ar) (snd ar)) (m s).

(** One character of a class. *)
Definition chr (p : string -> bool) : matcher string :=
  fun s =>
    match PyStr.next s with
    | Some (ch, rest) => if p ch then [(ch, rest)] else []
    | None => []
    end.

Definition lit (c : ascii) : matcher string := chr (String.eqb (String c "")).

Definition rng (lo hi : ascii) : matcher string := chr (PyStr.in_range lo hi).

(** [\d] in a pattern that is a [str]: a decimal digit of any script. *)
Definition digit : matcher string := chr PyStr.isdecimal.

(** Concatenation [r1 r2], capturing the text of both. *)
Definition seq (m1 m2 : matcher string) : matcher string :=
  bind m1 (fun a => bind m2 (fun b => ret (a ++ b))).

(** Alternation [r1|r2]: the left branch is tried first. *)
Definition alt {A : Type} (m1 m2 : matcher A) : matcher A :=
  fun s => (m1 s ++ m2 s)%list.

(** Bounded repetition [r{n}]. *)
Fixpoint rep (n : nat) (m : matcher string) : matcher string :=
  match n with
  | O => ret ""
  | S n' => seq m (rep n' m)
  end.

(** [re.match]: the first match in backtracking order. *)
Definition re_match {A : Type} (m : matcher A) (s : string) : option (A * string) :=
  match m s with
  | [] => None
  | x :: _ => Some x
  end.

(** [re.fullmatch]: the first match in backtracking order that ends at
    the end of the text. *)
Definition fullmatch {A : Type} (m : matcher A) (s : string) : option A :=
  match find (fun ar => PyStr.is_empty (snd ar)) (m s) with
  | Some (a, _) => Some a
  | None => None
  end.

End Re.

Infix "|||" := Re.alt (at level 50, left associativity).

(** ** Fields: [Field], [Name], [Phone], [Birthday] *)

(** [class Field]: an object with the one attribute [value]. *)
Record Field : Type := mkField { value : string }.

Definition Name : Type := Field.
Definition Phone : Type := Field.
Definition Birthday : Type := Field.

(** [r'\d{10}'] *)
Definition phone_pattern : Re.matcher string := Re.rep 10 Re.digit.

Definition Name_init (v : string) : Name := mkField v.

(** [Phone.__init__] *)
Definition Phone_init (v : string) : result Phone :=
  match Re.fullmatch phone_pattern v with
  | None => Raise (ValueError "Phone must be 10 digits.")
  | Some _ => Ok (mkField v)
  end.

(** ** [datetime.date]

    The proleptic Gregorian calendar of CPython's [datetime] module: a date
    holds a year in [1..9999], a month and a day; day 1 of year 1 has
    ordinal 1. *)

Module Datetime.

Import PyStr.

Definition MINYEAR : Z := 1.
Definition MAXYEAR : Z := 9999.
Definition MAXORDINAL : Z := 3652059.

Definition DAYS_IN_MONTH : list Z :=
  [-1; 31; 28; 31; 30; 31; 30; 31; 31; 30; 31; 30; 31].
Definition DAYS_BEFORE_MONTH : list Z :=
  [-1; 0; 31; 59; 90; 120; 151; 181; 212; 243; 273; 304; 334].

Definition tbl (t : list Z) (i : Z) : Z := nth (Z.to_nat i) t (-1).

Definition is_leap (y : Z) : bool :=
  (y mod 4 =? 0) && (negb (y mod 100 =? 0) || (y mod 400 =? 0)).

Definition days_before_year (year : Z) : Z :=
  let y := year - 1 in
  y * 365 + y / 4 - y / 100 + y / 400.

Definition days_in_month (year month : Z) : Z :=
  if (month =? 2) && is_leap year then 29 else tbl DAYS_IN_MONTH month.

Definition days_before_month (year month : Z) : Z :=
  tbl DAYS_BEFORE_MONTH month + (if (month >? 2) && is_leap year then 1 else 0).

Definition ymd2ord (year month day : Z) : Z :=
  days_before_year year + days_before_month year month + day.

Definition DI400Y : Z := 146097.
Definition DI100Y : Z := 36524.
Definition DI4Y : Z := 1461.

Definition ord2ymd (n : Z) : Z * Z * Z :=
  let n := n - 1 in
  let n400 := n / DI400Y in
  let n := n mod DI400Y in
  let year := n400 * 400 + 1 in
  let n100 := n / DI100Y in
  let n := n mod DI100Y in
  let n4 := n / DI4Y in
  let n := n mod DI4Y in
  let n1 := n / 365 in
  let n := n mod 365 in
  let year := year + n100 * 100 + n4 * 4 + n1 in
  if (n1 =? 4) || (n100 =? 4) then (year - 1, 12, 31)
  else
    let leapyear := (n1 =? 3) && (negb (n4 =? 24) || (n100 =? 3)) in
    let month := Z.shiftr (n + 50) 5 in
    let preceding :=
      tbl DAYS_BEFORE_MONTH month + (if (month >? 2) && leapyear then 1 else 0) in
    if preceding >? n
    then
      let month := month - 1 in
      let preceding :=
        preceding - (tbl DAYS_IN_MONTH month
                     + (if (month =? 2) && leapyear then 1 else 0)) in
      (year, month, n - preceding + 1)
    else (year, month, n - preceding + 1).

Record date : Type := mkdate { year : Z; month : Z; day : Z }.

(** [date(year, month, day)]: the constructor checks its fields. *)
Definition date_new (y m d : Z) : result date :=
  if negb ((MINYEAR <=? y) && (y <=? MAXYEAR))
  then Raise (ValueError ("year " ++ str_of_int y ++ " is out of range"))
  else if negb ((1 <=? m) && (m <=? 12))
  then Raise (ValueError "month must be in 1..12")
  else if negb ((1 <=? d) && (d <=? days_in_month y m))
  then Raise (ValueError "day is out of range for month")
  else Ok (mkdate y m d).

(** The dates the constructor can build. *)
Definition valid (dt : date) : Prop :=
  MINYEAR <= year dt <= MAXYEAR /\ 1 <= month dt <= 12
  /\ 1 <= day dt <= days_in_month (year dt) (month dt).

(** [d.replace(year=y)] *)
Definition replace_year (dt : date) (y : Z) : result date :=
  date_new y (month dt) (day dt).

(** [a < b] *)
Definition lt (a b : date) : bool :=
  (year a <? year b)
  || ((year a =? year b)
      && ((month a <? month b)
          || ((month a =? month b) && (day a <? day b)))).

Definition toordinal (dt : date) : Z := ymd2ord (year dt) (month dt) (day dt).

Definition fromordinal (n : Z) : date :=
  let '(y, m, d) := ord2ymd n in mkdate y m d.

(** [d.weekday()]: Monday is 0, Sunday is 6. *)
Definition weekday (dt : date) : Z := (toordinal dt + 6) mod 7.

(** [(a - b).days] *)
Definition sub_days (a b : date) : Z := toordinal a - toordinal b.

(** [d + timedelta(days=n)] *)
Definition add_days (dt : date) (n : Z) : result date :=
  let o := toordinal dt + n in
  if (0 <? o) && (o <=? MAXORDINAL)
  then Ok (fromordinal o)
  else Raise (OverflowError "date value out of range").

(** [d.strftime("%d.%m.%Y")].  The C library behind CPython on Linux
    writes [%Y] as the plain decimal year; some platforms pad it with
    zeros to four digits.  Both agree from year 1000 on. *)
Definition strftime (dt : date) : string :=
  (pad2 (day dt) ++ "." ++ pad2 (month dt) ++ "." ++ str_of_int (year dt))%string.

(** The regular expressions of [_strptime] for [%d], [%m] and [%Y]:
    [3[0-1]|[1-2]\d|0[1-9]|[1-9]| [1-9]], [1[0-2]|0[1-9]|[1-9]] and
    [\d\d\d\d]. *)
Definition re_d : Re.matcher string :=
  Re.seq (Re.lit "3") (Re.rng "0" "1")
  ||| Re.seq (Re.rng "1" "2") Re.digit
  ||| Re.seq (Re.lit "0") (Re.rng "1" "9")
  ||| Re.rng "1" "9"
  ||| Re.seq (Re.lit " ") (Re.rng "1" "9").

Definition re_m : Re.matcher string :=
  Re.seq (Re.lit "1") (Re.rng "0" "2")
  ||| Re.seq (Re.lit "0") (Re.rng "1" "9")
  ||| Re.rng "1" "9".

Definition re_Y : Re.matcher string :=
  Re.seq Re.digit (Re.seq Re.digit (Re.seq Re.digit Re.digit)).

(** The compiled format ["%d.%m.%Y"], with its three groups. *)
Definition format_regex : Re.matcher (string * string * string) :=
  Re.bind re_d (fun d =>
  Re.bind (Re.lit ".") (fun _ =>
  Re.bind re_m (fun m =>
  Re.bind (Re.lit ".") (fun _ =>
  Re.bind re_Y (fun y =>
  Re.ret (d, m, y)))))).

(** [datetime.strptime(data, "%d.%m.%Y").date()].  The two messages that
    quote the input are exact for input of printable characters without
    quotes or backslashes. *)
Definition strptime (data : string) : result date :=
  match Re.re_match format_regex data with
  | None =>
      Raise (ValueError ("time data '" ++ data
                         ++ "' does not match format '%d.%m.%Y'"))
  | Some ((d, m, y), rest) =>
      if negb (is_empty rest)
      then Raise (ValueError ("unconverted data remains: " ++ rest))
      else
        y' <- int y ;;
        m' <- int m ;;
        d' <- int d ;;
        date_new y' m' d'
  end.

End Datetime.

Import Datetime.

(** [Birthday.__init__]: the date is parsed only to validate it; the
    object keeps the text. *)
Definition Birthday_init (v : string) : result Birthday :=
  match strptime v with
  | Raise (ValueError _) => Raise (ValueError "Invalid date format. Use DD.MM.YYYY")
  | Raise e => Raise e
  | Ok _ => Ok (mkField v)
  end.

(** ** [class Record] *)

Record Record_ : Type := mkRecord {
  name : Name;
  phones : list Phone;
  birthday : option Birthday
}.

Definition set_phones (self : Record_) (ps : list Phone) : Record_ :=
  mkRecord (name self) ps (birthday self).

Definition set_birthday (self : Record_) (b : option Birthday) : Record_ :=
  mkRecord (name self) (phones self) b.

(** A method receives [self] and returns [self] as it leaves it, with its
    result or the exception it raised. *)
Definition method (A : Type) : Type := Record_ -> Record_ * result A.

(** [Record.__init__] *)
Definition Record_init (n : string) : Record_ := mkRecord (Name_init n) [] None.

(** [Record.add_phone]: [Phone(phone)] is built before the append. *)
Definition add_phone (phone : string) : method unit :=
  fun self =>
    match Phone_init phone with
    | Raise e => (self, Raise e)
    | Ok p => (set_phones self (phones self ++ [p]), Ok tt)
    end.

(** [Record.remove_phone] *)
Definition remove_phone (phone : string) : method unit :=
  fun self =>
    (set_phones self (filter (fun p => negb (value p =? phone)%string) (phones self)),
     Ok tt).

(** The loop of [Record.edit_phone] over the phone objects, threading the
    flag [found]; a matching object gets its [value] assigned. *)
Fixpoint edit_phone_loop (old_phone new_phone : string) (ps : list Phone)
    (found : bool) : list Phone * bool :=
  match ps with
  | [] => ([], found)
  | p :: rest =>
      if (value p =? old_phone)%string
      then
        let '(rest', found') := edit_phone_loop old_phone new_phone rest true in
        (mkField new_phone :: rest', found')
      else
        let '(rest', found') := edit_phone_loop old_phone new_phone rest found in
        (p :: rest', found')
  end.

(** [Record.edit_phone] *)
Definition edit_phone (old_phone new_phone : string) : method unit :=
  fun self =>
    match Re.fullmatch phone_pattern new_phone with
    | None => (self, Raise (ValueError "Phone must be 10 digits."))
    | Some _ =>
        let '(ps, found) := edit_phone_loop old_phone new_phone (phones self) false in
        let self := set_phones self ps in
        if negb found
        then (self, Raise (ValueError "Phone not found."))
        else (self, Ok tt)
    end.

(** [Record.find_phone] *)
Definition find_phone (phone : string) (self : Record_) : option Phone :=
  find (fun p => (value p =? phone)%string) (phones self).

(** [Record.add_birthday]: [Birthday(birthday)] is built before the
    assignment. *)
Definition add_birthday_m (b : string) : method unit :=
  fun self =>
    match Birthday_init b with
    | Raise e => (self, Raise e)
    | Ok bd => (set_birthday self (Some bd), Ok tt)
    end.

(** [Record.__str__] *)
Definition Record_str (self : Record_) : string :=
  let ps := PyStr.join "; " (map value (phones self)) in
  let b :=
    match birthday self with
    | Some bd => (", birthday: " ++ value bd)%string
    | None => ""
    end in
  ("Contact name: " ++ value (name self) ++ b ++ ", phones: " ++ ps)%string.

(** ** [class AddressBook(UserDict)]

    [data] maps a name to the record object stored under it.  Assigning to
    a key that is present keeps its position; a new key goes last. *)

Definition AddressBook : Type := list (string * Record_).

Fixpoint dict_get {V : Type} (k : string) (d : list (string * V)) : option V :=
  match d with
  | [] => None
  | (k', v) :: rest => if (k' =? k)%string then Some v else dict_get k rest
  end.

Fixpoint dict_set {V : Type} (k : string) (v : V) (d : list (string * V))
    : list (string * V) :=
  match d with
  | [] => [(k, v)]
  | (k', v') :: rest =>
      if (k' =? k)%string then (k', v) :: rest else (k', v') :: dict_set k v rest
  end.

Fixpoint dict_del {V : Type} (k : string) (d : list (string * V))
    : list (string * V) :=
  match d with
  | [] => []
  | (k', v') :: rest =>
      if (k' =? k)%string then rest else (k', v') :: dict_del k rest
  end.

Definition dict_keys {V : Type} (d : list (string * V)) : list string := map fst d.
Definition dict_values {V : Type} (d : list (string * V)) : list V := map snd d.

(** [AddressBook.add_record] *)
Definition add_record (record : Record_) (book : AddressBook) : AddressBook :=
  dict_set (value (name record)) record book.

(** [AddressBook.find] *)
Definition find (n : string) (book : AddressBook) : option Record_ :=
  dict_get n book.

(** [AddressBook.delete] *)
Definition delete (n : string) (book : AddressBook) : AddressBook :=
  dict_del n book.

(** One element of the list [get_upcoming_birthdays] returns: the dict
    with the keys ["name"] and ["congratulation_date"]. *)
Record Congratulation : Type := mkCongratulation {
  entry_name : string;
  congratulation_date : string
}.

(** The loop of [AddressBook.get_upcoming_birthdays] over
    [self.data.values()], with the list [upcoming] built so far. *)
Fixpoint upcoming_loop (today : date) (records : list Record_)
    (upcoming : list Congratulation) : result (list Congratulation) :=
  match records with
  | [] => Ok upcoming
  | record :: rest =>
      match birthday record with
      | None => upcoming_loop today rest upcoming
      | Some bd =>
          b_date <- strptime (value bd) ;;
          this_year_bday <- replace_year b_date (year today) ;;
          this_year_bday <-
            (if lt this_year_bday today
             then replace_year this_year_bday (year today + 1)
             else Ok this_year_bday) ;;
          let days_to_bday := sub_days this_year_bday today in
          if (0 <=? days_to_bday) && (days_to_bday <=? 7)
          then
            this_year_bday <-
              (if weekday this_year_bday >=? 5
               then add_days this_year_bday (7 - weekday this_year_bday)
               else Ok this_year_bday) ;;
            upcoming_loop today rest
              (upcoming ++ [mkCongratulation (value (name record))
                                             (strftime this_year_bday)])%list
          else upcoming_loop today rest upcoming
      end
  end.

(** [AddressBook.get_upcoming_birthdays], with the date that
    [datetime.today().date()] returns as the argument [today]. *)
Definition get_upcoming_birthdays (today : date) (book : AddressBook)
    : result (list Congratulation) :=
  upcoming_loop today (dict_values book) [].

(** ** Command handlers

    A handler receives the book and returns the book as it leaves it, with
    the text it returns or the exception it raised. *)

Definition handler : Type := AddressBook -> AddressBook * result string.

(** The decorator [input_error]: [KeyError], [ValueError] and [IndexError]
    become the returned text; any other exception passes through. *)
Definition input_error (func : handler) : handler :=
  fun book =>
    let '(book', r) := func book in
    (book',
     match r with
     | Ok s => Ok s
     | Raise (KeyError _) => Ok "Contact not found."
     | Raise (ValueError msg) => Ok msg
     | Raise (IndexError _) => Ok "Invalid command format."
     | Raise e => Raise e
     end).

Definition list_len {A : Type} (l : list A) : Z := Z.of_nat (List.length l).

(** Calling a method on the record object stored under [key]: what the
    method does to the object is seen through the book. *)
Definition call_on {A : Type} (key : string) (record : Record_) (m : method A)
    (book : AddressBook) : AddressBook * Record_ * result A :=
  let '(record', r) := m record in
  (dict_set key record' book, record', r).

(** The body of [add_contact]. *)
Definition add_contact_func (args : list string) : handler :=
  fun book =>
    if list_len args <? 2
    then (book, Raise (ValueError "Give me name and phone please."))
    else
      match args with
      | n :: phone :: _ =>
          match find n book with
          | Some record =>
              let '(book, record, r) := call_on n record (add_phone phone) book in
              match r with
              | Raise e => (book, Raise e)
              | Ok _ => (add_record record book, Ok "Contact added/updated.")
              end
          | None =>
              let '(record, r) := add_phone phone (Record_init n) in
              match r with
              | Raise e => (book, Raise e)
              | Ok _ => (add_record record book, Ok "Contact added/updated.")
              end
          end
      | _ => (book, Raise (IndexError "list index out of range"))
      end.

Definition add_contact (args : list string) : handler :=
  input_error (add_contact_func args).

(** The body of [change_contact]. *)
Definition change_contact_func (args : list string) : handler :=
  fun book =>
    match args with
    | [n; old_phone; new_phone] =>
        match find n book with
        | Some record =>
            let '(book, _, r) := call_on n record (edit_phone old_phone new_phone) book in
            match r with
            | Raise e => (book, Raise e)
            | Ok _ => (book, Ok "Phone changed.")
            end
        | None => (book, Raise (KeyError "Contact not found."))
        end
    | _ => (book, Raise (ValueError "Give me name, old phone and new phone."))
    end.

Definition change_contact (args : list string) : handler :=
  input_error (change_contact_func args).

(** The body of [show_phone]. *)
Definition show_phone_func (args : list string) : handler :=
  fun book =>
    match args with
    | [] => (book, Raise (ValueError "Enter contact name."))
    | n :: _ =>
        match find n book with
        | Some record => (book, Ok (PyStr.join "; " (map value (phones record))))
        | None => (book, Raise (KeyError "Contact not found."))
        end
    end.

Definition show_phone (args : list string) : handler :=
  input_error (show_phone_func args).

(** The body of [show_all]. *)
Definition show_all_func : handler :=
  fun book =>
    match book with
    | [] => (book, Ok "No contacts found.")
    | _ => (book, Ok (PyStr.join (String "010"%char "") (map Record_str (dict_values book))))
    end.

Definition show_all : handler := input_error show_all_func.

(** The body of [add_birthday]. *)
Definition add_birthday_func (args : list string) : handler :=
  fun book =>
    match args with
    | [n; b] =>
        match find n book with
        | Some record =>
            let '(book, _, r) := call_on n record (add_birthday_m b) book in
            match r with
            | Raise e => (book, Raise e)
            | Ok _ => (book, Ok "Birthday added.")
            end
        | None => (book, Raise (KeyError "Contact not found."))
        end
    | _ => (book, Raise (ValueError "Give me name and birthday in DD.MM.YYYY format."))
    end.

Definition add_birthday (args : list string) : handler :=
  input_error (add_birthday_func args).

(** The body of [show_birthday]. *)
Definition show_birthday_func (args : list string) : handler :=
  fun book =>
    match args with
    | [] => (book, Raise (ValueError "Enter contact name."))
    | n :: _ =>
        match find n book with
        | Some record =>
            match birthday record with
            | Some bd => (book, Ok (value bd))
            | None => (book, Ok "No birthday set.")
            end
        | None => (book, Ok "Contact not found.")
        end
    end.

Definition show_birthday (args : list string) : handler :=
  input_error (show_birthday_func args).

Definition entry_line (entry : Congratulation) : string :=
  (entry_name entry ++ ": " ++ congratulation_date entry)%string.

(** The body of [birthdays]; [today] is the date of the system clock. *)
Definition birthdays_func (today : date) (args : list string) : handler :=
  fun book =>
    match get_upcoming_birthdays today book with
    | Raise e => (book, Raise e)
    | Ok [] => (book, Ok "No birthdays in next week.")
    | Ok upcoming => (book, Ok (PyStr.join (String "010"%char "") (map entry_line upcoming)))
    end.

Definition birthdays (today : date) (args : list string) : handler :=
  input_error (birthdays_func today args).

(** [parse_input] *)
Definition parse_input (input_str : string) : list string :=
  PyStr.split (PyStr.strip input_str).

(** ** The loop of [main] *)

(** What one round of the loop does: it prints [out] and goes on with the
    book, or prints and leaves the loop, or an exception escapes [main]. *)
Inductive outcome : Type :=
| Continue (out : string) (book : AddressBook)
| Exit (out : string)
| Crash (e : exn).

Definition print_result (r : AddressBook * result string) : outcome :=
  match r with
  | (book, Ok s) => Continue s book
  | (_, Raise e) => Crash e
  end.

(** One round of the [while True] loop of [main] on the line [user_input],
    read when the system clock shows the date [today]. *)
Definition main_step (today : date) (user_input : string) (book : AddressBook)
    : outcome :=
  match parse_input user_input with
  | [] => Crash (ValueError "not enough values to unpack (expected at least 1, got 0)")
  | command :: args =>
      if (command =? "close")%string || (command =? "exit")%string
      then Exit "Good bye!"
      else if (command =? "hello")%string then Continue "How can I help you?" book
      else if (command =? "add")%string then print_result (add_contact args book)
      else if (command =? "change")%string then print_result (change_contact args book)
      else if (command =? "phone")%string then print_result (show_phone args book)
      else if (command =? "all")%string then print_result (show_all book)
      else if (command =? "add-birthday")%string then print_result (add_birthday args book)
      else if (command =? "show-birthday")%string then print_result (show_birthday args book)
      else if (command =? "birthdays")%string then print_result (birthdays today args book)
      else Continue "Invalid command." book
  end.

(** How [main] stands after a finite sequence of lines. *)
Inductive status : Type :=
| Waiting (book : AddressBook)
| Exited
| Crashed (e : exn).

(** [main] run on the lines [inputs], each with the date at which it is
    read: the texts printed after the welcome, and how the program stands. *)
Fixpoint main_loop (inputs : list (date * string)) (book : AddressBook)
    : list string * status :=
  match inputs with
  | [] => ([], Waiting book)
  | (today, user_input) :: rest =>
      match main_step today user_input book with
      | Continue out book' =>
          let '(outs, st) := main_loop rest book' in (out :: outs, st)
      | Exit out => ([out], Exited)
      | Crash e => ([], Crashed e)
      end
  end.

Definition main (inputs : list (date * string)) : list string * status :=
  let '(outs, st) := main_loop inputs [] in
  ("Welcome to the assistant bot!" :: outs, st).

Definition d20261104 : date := mkdate 2026 11 4.

(** ** Definitions used to state and prove the properties *)

Import PyStr.

(** The spec's wording: a string of exactly 10 digits, where a digit is a
    character [\d] matches: [len(s) == 10 and s.isdecimal()]. *)
Definition ten_digits (s : string) : Prop :=
  List.length (chars s) = 10%nat /\ forallb isdecimal (chars s) = true.

(** The narrower reading of the spec's wording: exactly 10 of the digits
    0 to 9. *)
Definition ten_ascii_digits (s : string) : Prop :=
  String.length s = 10%nat /\ all_chars is_digit s = true.

(** What [\d{n}] consumes: [n] leading digits. *)
Fixpoint take_digits (n : nat) (s : string) : option (string * string) :=
  match n with
  | O => Some ("", s)
  | S n' =>
      match next s with
      | Some (ch, r) =>
          if isdecimal ch
          then match take_digits n' r with
               | Some (p, r') => Some (ch ++ p, r')
               | None => None
               end
          else None
      | None => None
      end
  end.

Definition month_day (leapyear : bool) (n : Z) : Z * Z :=
  let month := Z.shiftr (n + 50) 5 in
  let preceding :=
    tbl DAYS_BEFORE_MONTH month + (if (month >? 2) && leapyear then 1 else 0) in
  if preceding >? n
  then
    let month := month - 1 in
    let preceding :=
      preceding - (tbl DAYS_IN_MONTH month
                   + (if (month =? 2) && leapyear then 1 else 0)) in
    (month, n - preceding + 1)
  else (month, n - preceding + 1).

Definition month_day_ok (leap : bool) (k : Z) : bool :=
  let '(m, d) := month_day leap k in
  (1 <=? m) && (m <=? 12) && (1 <=? d)
  && (d <=? (if (m =? 2) && leap then 29 else tbl DAYS_IN_MONTH m))
  && (tbl DAYS_BEFORE_MONTH m + (if (m >? 2) && leap then 1 else 0) + d =? k + 1).

(** Closed table entries and closed comparisons, computed. *)
Ltac calc_closed :=
  repeat match goal with
         | |- context [tbl ?t ?k] =>
             let v := eval vm_compute in (tbl t k) in
             lazymatch v with
             | Zpos _ => idtac | Zneg _ => idtac | Z0 => idtac
             end;
             change (tbl t k) with v
         | H0 : context [tbl ?t ?k] |- _ =>
             let v := eval vm_compute in (tbl t k) in
             lazymatch v with
             | Zpos _ => idtac | Zneg _ => idtac | Z0 => idtac
             end;
             change (tbl t k) with v in H0
         | |- context [Z.eqb ?a ?b] =>
             let v := eval vm_compute in (Z.eqb a b) in
             lazymatch v with true => idtac | false => idtac end;
             change (Z.eqb a b) with v
         | H0 : context [Z.eqb ?a ?b] |- _ =>
             let v := eval vm_compute in (Z.eqb a b) in
             lazymatch v with true => idtac | false => idtac end;
             change (Z.eqb a b) with v in H0
         | |- context [Z.gtb ?a ?b] =>
             let v := eval vm_compute in (Z.gtb a b) in
             lazymatch v with true => idtac | false => idtac end;
             change (Z.gtb a b) with v
         | H0 : context [Z.gtb ?a ?b] |- _ =>
             let v := eval vm_compute in (Z.gtb a b) in
             lazymatch v with true => idtac | false => idtac end;
             change (Z.gtb a b) with v in H0
         end;
  cbn [andb orb negb] in *.

(** Case analysis on a month in [1..12]. *)
Ltac split_month m :=
  let H := fresh "Hm" in
  assert (m = 1 \/ m = 2 \/ m = 3 \/ m = 4 \/ m = 5 \/ m = 6 \/ m = 7
          \/ m = 8 \/ m = 9 \/ m = 10 \/ m = 11 \/ m = 12) as H by lia;
  destruct H as [H|[H|[H|[H|[H|[H|[H|[H|[H|[H|[H|H]]]]]]]]]]];
  rewrite H in *; clear H; calc_closed.

(** Case analysis on the three tests of [is_leap y]. *)
Ltac leap_cases y :=
  unfold is_leap in *;
  destruct (Z.eqb_spec (y mod 4) 0); destruct (Z.eqb_spec (y mod 100) 0);
  destruct (Z.eqb_spec (y mod 400) 0); cbn [andb orb negb] in *.

(** The spec's anniversary date of the birthday [b]: the birthday with its
    year replaced by today's year, or by next year if that date is
    strictly before today. *)
Definition anniversary (today b : date) : result date :=
  this_year <- replace_year b (year today) ;;
  if lt this_year today then replace_year b (year today + 1) else Ok this_year.

(** The spec's [daysAhead]: the days from today to the anniversary. *)
Definition days_ahead (today a : date) : Z := sub_days a today.

(** The record has a birthday whose anniversary is 0 to 7 days ahead. *)
Definition within_week (today : date) (r : Record_) : bool :=
  match birthday r with
  | None => false
  | Some bd =>
      match strptime (value bd) with
      | Ok b =>
          match anniversary today b with
          | Ok a => (0 <=? days_ahead today a) && (days_ahead today a <=? 7)
          | Raise _ => false
          end
      | Raise _ => false
      end
  end.

(** The day reported for the anniversary [a]: steps 6 of the scheduler. *)
Definition congratulation_day (a : date) : result date :=
  if weekday a >=? 5 then add_days a (7 - weekday a) else Ok a.

(** What one round of the scheduler's loop appends for [record]. *)
Definition congratulate (today : date) (record : Record_)
    : result (list Congratulation) :=
  match birthday record with
  | None => Ok []
  | Some bd =>
      b <- strptime (value bd) ;;
      a <- anniversary today b ;;
      if (0 <=? days_ahead today a) && (days_ahead today a <=? 7)
      then
        m <- congratulation_day a ;;
        Ok [mkCongratulation (value (name record)) (strftime m)]
      else Ok []
  end.

Definition record_name (r : Record_) : string := value (name r).

(** The record is in the scheduler's output. *)
Definition included (out : list Congratulation) (r : Record_) : Prop :=
  In (record_name r) (map entry_name out).

Definition is_ValueError (e : exn) : Prop := exists msg, e = ValueError msg.

(** A book with a birthday on 29 February, and a day of a year that is
    not a leap year. *)
Definition book_feb29 : AddressBook :=
  [("Ann", mkRecord (mkField "Ann") [mkField "1112223333"] (Some (mkField "01.03.1990")));
   ("Bob", mkRecord (mkField "Bob") [] (Some (mkField "29.02.2000")))].

Definition d20230301 : date := mkdate 2023 3 1.

Definition ann_record : Record_ :=
  mkRecord (mkField "Ann") [mkField "1112223333"] (Some (mkField "01.03.1990")).

(** A book with birthdays around 4 November 2026 (a Wednesday). *)
Definition book_nov : AddressBook :=
  [("Eve", mkRecord (mkField "Eve") [] (Some (mkField "11.11.1985")));
   ("Dan", mkRecord (mkField "Dan") [] (Some (mkField "12.11.1985")));
   ("Sam", mkRecord (mkField "Sam") [] (Some (mkField "7.11.1990")));
   ("Joe", mkRecord (mkField "Joe") [] (Some (mkField "03.11.1970")));
   ("Kim", mkRecord (mkField "Kim") [mkField "0123456789"] None)].

(** [valid] as a test. *)
Definition validb (dt : date) : bool :=
  (MINYEAR <=? year dt) && (year dt <=? MAXYEAR)
  && (1 <=? month dt) && (month dt <=? 12)
  && (1 <=? day dt) && (day dt <=? days_in_month (year dt) (month dt)).

(** ["%04d"] for [0 <= n <= 9999]. *)
Definition pad4 (n : Z) : string :=
  String (digit_char (n / 1000))
    (String (digit_char (n / 100 mod 10))
       (String (digit_char (n / 10 mod 10))
          (String (digit_char (n mod 10)) ""))).

(** The strict format [DD.MM.YYYY] of a date: two digits, two digits,
    four digits. *)
Definition DDMMYYYY (dt : date) : string :=
  pad2 (day dt) ++ "." ++ pad2 (month dt) ++ "." ++ pad4 (year dt).

(** The spec's wording of C4: strict [DD.MM.YYYY] of a valid calendar
    date. *)
Definition strict_date_string (s : string) : Prop :=
  exists dt, valid dt /\ s = DDMMYYYY dt.

(** The ways [strptime] accepts the day [d] and the month [m] to be
    written with the digits 0 to 9: with two digits, or, below 10, with
    one digit, which for the day may follow one space. *)
Definition day_texts (d : Z) : list string :=
  pad2 d :: (if d <? 10
             then [String (digit_char d) ""; String " " (String (digit_char d) "")]
             else []).

Definition month_texts (m : Z) : list string :=
  pad2 m :: (if m <? 10 then [String (digit_char m) ""] else []).

(** A day from 10 to 29 may also have, after its first digit 1 or 2, a
    decimal digit of any script as its second digit. *)
Definition unicode_day (d : Z) (D : string) : Prop :=
  exists c ch,
    (c = "1"%char \/ c = "2"%char) /\ D = String c ch
    /\ decimal ch = Some (d - 10 * digit_val c).

Definition day_text (d : Z) (D : string) : Prop :=
  In D (day_texts d) \/ unicode_day d D.

(** The year is written with four decimal digits, each of any script. *)
Definition year_text (y : Z) (Y : string) : Prop :=
  exists a b c e,
    decimal a = Some (y / 1000) /\ decimal b = Some (y / 100 mod 10)
    /\ decimal c = Some (y / 10 mod 10) /\ decimal e = Some (y mod 10)
    /\ Y = a ++ b ++ c ++ e.

(** The strings [strptime] accepts for the date [dt]. *)
Definition date_texts (dt : date) (s : string) : Prop :=
  exists D M Y,
    day_text (day dt) D /\ In M (month_texts (month dt)) /\ year_text (year dt) Y
    /\ s = D ++ "." ++ M ++ "." ++ Y.

Definition lenient_date_string (s : string) : Prop :=
  exists dt, valid dt /\ date_texts dt s.

(** The integers [lo, lo+1, ..., lo+n-1]. *)
Definition Zrange (lo : Z) (n : nat) : list Z := map (fun k => lo + Z.of_nat k) (seq 0 n).

(** The day and month texts with their values, as tables. *)
Definition day_forms : list (string * Z) :=
  flat_map (fun d => map (fun D => (D, d)) (day_texts d)) (Zrange 1 31).

Definition month_forms : list (string * Z) :=
  flat_map (fun m => map (fun M => (M, m)) (month_texts m)) (Zrange 1 12).

Definition form_of (forms : list (string * Z)) (t : string) : option Z :=
  match List.find (fun f => (fst f =? t)%string) forms with
  | Some (_, v) => Some v
  | None => None
  end.

(** A group of the format followed by the dot. *)
Definition group_dot (g : Re.matcher string) : Re.matcher string :=
  Re.bind g (fun t => Re.bind (Re.lit ".") (fun _ => Re.ret t)).

(** The characters of a range, listed. *)
Definition range_chars (lo hi : ascii) : list ascii :=
  map (fun k => ascii_of_N (N.of_nat k))
      (seq (N.to_nat (N_of_ascii lo))
           (S (N.to_nat (N_of_ascii hi)) - N.to_nat (N_of_ascii lo))).

(** The spec's three kinds of error.  The code raises [ValueError] for a
    malformed phone or date, for a phone that is not found and for a wrong
    number of arguments, and [KeyError] for an unknown contact. *)
Inductive error_kind : Type := ValidationError | NotFoundError | ArgumentError.

Definition kind_of (e : exn) : option error_kind :=
  match e with
  | ValueError msg =>
      if (msg =? "Phone must be 10 digits.")%string
         || (msg =? "Invalid date format. Use DD.MM.YYYY")%string
      then Some ValidationError
      else if (msg =? "Phone not found.")%string then Some NotFoundError
      else if (msg =? "Give me name and phone please.")%string
              || (msg =? "Give me name, old phone and new phone.")%string
              || (msg =? "Give me name and birthday in DD.MM.YYYY format.")%string
              || (msg =? "Enter contact name.")%string
      then Some ArgumentError
      else None
  | KeyError _ => Some NotFoundError
  | _ => None
  end.

(** What [edit_phone] does to one phone. *)
Definition replace_phone (old_phone new_phone : string) (p : Phone) : Phone :=
  if (value p =? old_phone)%string then mkField new_phone else p.

(** Every phone of the record is a string of exactly 10 digits. *)
Definition phones_valid (r : Record_) : Prop :=
  Forall (fun p => ten_digits (value p)) (phones r).

Definition book_phones_valid (book : AddressBook) : Prop :=
  Forall phones_valid (dict_values book).

(** The mutating methods of [Record]. *)
Inductive record_method : method unit -> Prop :=
| call_add_phone (phone : string) : record_method (add_phone phone)
| call_remove_phone (phone : string) : record_method (remove_phone phone)
| call_edit_phone (old_phone new_phone : string) :
    record_method (edit_phone old_phone new_phone)
| call_add_birthday (b : string) : record_method (add_birthday_m b).

(** The records the class can build: a new record, and what a method
    leaves of a built record, whether it returns or raises. *)
Inductive built : Record_ -> Prop :=
| built_init (n : string) : built (Record_init n)
| built_call (m : method unit) (r : Record_) :
    built r -> record_method m -> built (fst (m r)).

(** The states of the book a run can reach: from the empty book, by a
    round of the loop of [main], or by the operations of the classes
    themselves: [add_record] of a built record, [delete], and a method
    called on a stored record. *)
Inductive reachable : AddressBook -> Prop :=
| reach_empty : reachable []
| reach_main_step (today : date) (user_input out : string) (book book' : AddressBook) :
    reachable book -> main_step today user_input book = Continue out book' ->
    reachable book'
| reach_add_record (r : Record_) (book : AddressBook) :
    reachable book -> built r -> reachable (add_record r book)
| reach_delete (n : string) (book : AddressBook) :
    reachable book -> reachable (delete n book)
| reach_method (n : string) (r : Record_) (m : method unit) (book : AddressBook) :
    reachable book -> find n book = Some r -> record_method m ->
    reachable (dict_set n (fst (m r)) book).

(** A record with a birthday and the phone 1112223333, and a book that
    holds it. *)
Definition john_record : Record_ :=
  mkRecord (mkField "John") [mkField "1112223333"] (Some (mkField "01.03.1990")).

Definition book_john : AddressBook := [("John", john_record)].

(** The exceptions [input_error] catches. *)
Definition caught (e : exn) : Prop :=
  match e with
  | ValueError _ | KeyError _ | IndexError _ => True
  | OverflowError _ => False
  end.

(** A line of whitespace only, the empty line among them. *)
Definition blank (line : string) : Prop := forallb isspace (chars line) = true.

(** The exception of [command, *args = []]. *)
Definition unpack_error : exn :=
  ValueError "not enough values to unpack (expected at least 1, got 0)".

(** The book keeps one entry per name, each record under its own name. *)
Definition book_wf (book : AddressBook) : Prop :=
  NoDup (dict_keys book) /\ Forall (fun kr => record_name (snd kr) = fst kr) book.

(** How many phones of the record have the value [q]. *)
Definition phone_count (q : string) (r : Record_) : nat :=
  count_occ string_dec (map value (phones r)) q.

(** A book with two entries. *)
Definition book_two : AddressBook :=
  [("John", john_record); ("Ann", ann_record)].

(** The phones the book shows for a name: those of the record found
    under it, none when the name is not in the book. *)
Definition phones_of (n : string) (book : AddressBook) : list string :=
  match find n book with
  | Some r => map value (phones r)
  | None => []
  end.

(** The birthday of the record, when it has one, is a text [Birthday]
    accepts. *)
Definition birthday_valid (r : Record_) : Prop :=
  forall bd, birthday r = Some bd -> lenient_date_string (value bd).

Definition book_birthdays_valid (book : AddressBook) : Prop :=
  Forall birthday_valid (dict_values book).

(** [record.birthday] is set. *)
Definition has_birthday (r : Record_) : bool :=
  match birthday r with Some _ => true | None => false end.

(** The birthday is not on 29 February. *)
Definition not_feb29 (b : date) : Prop := ~ (month b = 2 /\ day b = 29).

(** A day after 29 February of a leap year. *)
Definition d20240301 : date := mkdate 2024 3 1.

(** A string without whitespace, and a word: such a string that is not
    empty. *)
Definition nonspace (w : string) : Prop :=
  forallb (fun ch => negb (isspace ch)) (chars w) = true.

Definition word (w : string) : Prop := w <> "" /\ nonspace w.

(** The commands of [main] that can change the book. *)
Definition mutating_commands : list string := ["add"; "change"; "add-birthday"].

(** All the commands [main] knows. *)
Definition known_commands : list string :=
  ["close"; "exit"; "hello"; "add"; "change"; "phone"; "all"; "add-birthday";
   "show-birthday"; "birthdays"].

(** The states of the book the loop of [main] reaches from the empty
    book. *)
Inductive loop_reachable : AddressBook -> Prop :=
| loop_empty : loop_reachable []
| loop_step (today : date) (user_input out : string) (book book' : AddressBook) :
    loop_reachable book -> main_step today user_input book = Continue out book' ->
    loop_reachable book'.

(** The line break that [show_all] and [birthdays] join with. *)
Definition newline : string := String "010"%char "".

(** A text without a line break. *)
Definition one_line (s : string) : Prop :=
  all_chars (fun c => negb (c =? "010")%char) s = true.

(** [s.split("\n")]: the lines of a text; [cur] is the line being read. *)
Fixpoint lines_from (s cur : string) : list string :=
  match s with
  | EmptyString => [cur]
  | String c s' =>
      if (c =? "010")%char then cur :: lines_from s' ""
      else lines_from s' (cur ++ String c "")
  end.

Definition lines (s : string) : list string := lines_from s "".

(** The code point of a character that is a well-formed sequence: a
    Unicode scalar value, not the code of a stray byte. *)
Definition scalar (n : Z) : Prop := 0 <= n < 55296 \/ 57344 <= n.

(** A character can start at the head of the text: the text is empty or
    its first byte is no continuation byte. *)
Definition boundary (s : string) : bool :=
  match s with
  | EmptyString => true
  | String c _ => negb (cont c)
  end.

(** What follows a word of [split]: nothing, or a whitespace character. *)
Definition space_start (q : list string) : Prop :=
  match q with
  | [] => True
  | ch :: _ => isspace ch = true
  end.

(** The result is an exception of the spec's kind [k]. *)
Definition raises_kind {A : Type} (r : result A) (k : error_kind) : Prop :=
  exists e, r = Raise e /\ kind_of e = Some k.

(** Ten Arabic-Indic digits, a phone made of them, and a book that holds
    it. *)
Definition arabic_digits : string := "١٢٣٤٥٦٧٨٩٠".

Definition book_arabic : AddressBook :=
  [("John", mkRecord (mkField "John") [mkField arabic_digits] None)].

(** The byte of value [n]. *)
Definition byte (n : Z) : ascii := ascii_of_N (Z.to_N n).

(** [chr(n)] as text: the UTF-8 encoding of the code point [n]. *)
Definition utf8 (n : Z) : string :=
  if n <? 128 then String (byte n) ""
  else if n <? 2048
  then String (byte (192 + n / 64)) (String (byte (128 + n mod 64)) "")
  else if n <? 65536
  then String (byte (224 + n / 4096))
         (String (byte (128 + n / 64 mod 64)) (String (byte (128 + n mod 64)) ""))
  else String (byte (240 + n / 262144))
         (String (byte (128 + n / 4096 mod 64))
            (String (byte (128 + n / 64 mod 64)) (String (byte (128 + n mod 64)) ""))).

(** The code point [n] is a decimal digit: it lies in one of the blocks
    of ten that start at the zeros of [decimal_zeros]. *)
Definition decimal_point (n : Z) : bool :=
  existsb (fun z => (z <=? n) && (n <=? z + 9)) decimal_zeros.

(** * Properties *)

(** ** Concrete runs *)

Example Phone_ok : Phone_init "1112223333" = Ok (mkField "1112223333").
Proof. reflexivity. Qed.

Example Phone_short : Phone_init "111222333" = Raise (ValueError "Phone must be 10 digits.").
Proof. reflexivity. Qed.

Example Phone_letter : Phone_init "11122x3333" = Raise (ValueError "Phone must be 10 digits.").
Proof. reflexivity. Qed.

Example strptime_strict : strptime "29.02.2000" = Ok (mkdate 2000 2 29).
Proof. reflexivity. Qed.

Example strptime_short : strptime "1.1.2000" = Ok (mkdate 2000 1 1).
Proof. reflexivity. Qed.

Example strptime_space : strptime " 1.1.2000" = Ok (mkdate 2000 1 1).
Proof. reflexivity. Qed.

Example strptime_not_leap :
  strptime "29.02.1999" = Raise (ValueError "day is out of range for month").
Proof. reflexivity. Qed.

Example strptime_year0 :
  strptime "1.1.0000" = Raise (ValueError "year 0 is out of range").
Proof. reflexivity. Qed.

Example strptime_trailing :
  strptime "01.01.20001" = Raise (ValueError "unconverted data remains: 1").
Proof. reflexivity. Qed.

Example strptime_month13 :
  strptime "1.13.2000"
  = Raise (ValueError "time data '1.13.2000' does not match format '%d.%m.%Y'").
Proof. reflexivity. Qed.

Example ordinal_2026_11_04 : toordinal (mkdate 2026 11 4) = 739924.
Proof. reflexivity. Qed.

Example weekday_2026_11_04 : weekday (mkdate 2026 11 4) = 2.
Proof. reflexivity. Qed.

Example fromordinal_max : fromordinal MAXORDINAL = mkdate 9999 12 31.
Proof. reflexivity. Qed.

Example strftime_ex : strftime (mkdate 2026 11 9) = "09.11.2026".
Proof. reflexivity. Qed.

Example replace_year_10000 :
  replace_year (mkdate 2000 1 1) 10000 = Raise (ValueError "year 10000 is out of range").
Proof. reflexivity. Qed.

Example add_days_overflow :
  add_days (mkdate 9999 12 31) 1 = Raise (OverflowError "date value out of range").
Proof. reflexivity. Qed.

Example main_session :
  main [(d20261104, "add John 1112223333");
        (d20261104, "add John 4445556666");
        (d20261104, "add-birthday John 7.11.1990");
        (d20261104, "change John 1112223333 0000000000");
        (d20261104, "phone John");
        (d20261104, "birthdays");
        (d20261104, "add Ann 12");
        (d20261104, "phone Bob");
        (d20261104, "all");
        (d20261104, "exit")]
  = (["Welcome to the assistant bot!";
      "Contact added/updated.";
      "Contact added/updated.";
      "Birthday added.";
      "Phone changed.";
      "0000000000; 4445556666";
      "John: 09.11.2026";
      "Phone must be 10 digits.";
      "Contact not found.";
      "Contact name: John, birthday: 7.11.1990, phones: 0000000000; 4445556666";
      "Good bye!"], Exited).
Proof. vm_compute. reflexivity. Qed.

Example chars_run :
  chars "é٣ x" = ["é"; "٣"; " "; "x"] /\ map ord (chars "é٣") = [233; 1635].
Proof. split; reflexivity. Qed.

Example Phone_two_scripts : Phone_init "12345٦٧٨٩٠" = Ok (mkField "12345٦٧٨٩٠").
Proof. reflexivity. Qed.

Example Phone_superscript :
  Phone_init "123456789²" = Raise (ValueError "Phone must be 10 digits.").
Proof. reflexivity. Qed.

Example parse_input_wide_spaces :
  parse_input "add　John 1112223333" = ["add"; "John"; "1112223333"].
Proof. reflexivity. Qed.

(** ** Characters of a text *)

Section Characters.

Lemma append_nil_r s : (s ++ "")%string = s.
Proof. induction s as [|c s IH]; cbn; [reflexivity | now rewrite IH]. Qed.

Lemma append_assoc a b c : ((a ++ b) ++ c)%string = (a ++ (b ++ c))%string.
Proof. induction a as [|x a IH]; cbn; [reflexivity | now rewrite IH]. Qed.

Lemma length_append a b : String.length (a ++ b) = (String.length a + String.length b)%nat.
Proof. induction a as [|x a IH]; cbn; [reflexivity | now rewrite IH]. Qed.

(** The first character and the rest make up the text. *)
Lemma next_spec s ch r : next s = Some (ch, r) -> s = ch ++ r /\ ch <> "".
Proof.
  destruct s as [|b0 s1]; [discriminate|]. unfold next.
  destruct (width (String b0 s1)) as [|[|[|[|[|n]]]]];
    destruct s1 as [|b1 [|b2 [|b3 s4]]];
    intros H; inversion H; subst; cbn; split; (reflexivity || discriminate).
Qed.

Lemma next_none s : next s = None <-> s = "".
Proof.
  destruct s as [|b0 s1]; [tauto|]. unfold next.
  destruct (width (String b0 s1)) as [|[|[|[|[|n]]]]];
    destruct s1 as [|b1 [|b2 [|b3 s4]]]; split; discriminate.
Qed.

(** [chars] reads the text character by character. *)
Lemma chars_next s :
  chars s = match next s with Some (ch, r) => ch :: chars r | None => [] end.
Proof.
  destruct s as [|b0 s1]; [reflexivity|]. unfold next. cbn [chars].
  destruct (width (String b0 s1)) as [|[|[|[|[|n]]]]];
    destruct s1 as [|b1 [|b2 [|b3 s4]]]; reflexivity.
Qed.

Lemma next_shorter s ch r :
  next s = Some (ch, r) -> (String.length r < String.length s)%nat.
Proof.
  intros H. apply next_spec in H as [-> Hne]. rewrite length_append.
  destruct ch; [contradiction | cbn; lia].
Qed.

(** Induction over the characters of a text. *)
Lemma chars_ind (P : string -> Prop) :
  P "" ->
  (forall s ch r, next s = Some (ch, r) -> P r -> P s) ->
  forall s, P s.
Proof.
  intros H0 Hstep s.
  assert (H : forall n s, (String.length s < n)%nat -> P s).
  { induction n as [|n IH]; intros s0 Hlen; [lia|].
    destruct (next s0) as [[ch r]|] eqn:E.
    - apply (Hstep s0 ch r E). apply IH.
      pose proof (next_shorter _ _ _ E). lia.
    - apply next_none in E. subst. exact H0. }
  exact (H (S (String.length s)) s (Nat.lt_succ_diag_r _)).
Qed.

(** Joining the characters of a text gives the text back. *)
Lemma text_chars s : text (chars s) = s.
Proof.
  induction s as [|s ch r E IH] using chars_ind; [reflexivity|].
  rewrite chars_next, E. cbn [text]. rewrite IH.
  apply next_spec in E as [-> _]. reflexivity.
Qed.

Lemma text_app a b : text (a ++ b)%list = (text a ++ text b)%string.
Proof.
  induction a as [|x a IH]; [reflexivity|]. cbn [app text].
  now rewrite IH, append_assoc.
Qed.

(** Case analysis on the tests of [width]. *)
Ltac width_crush :=
  repeat match goal with
         | |- context [if ?c then _ else _] => destruct c eqn:?
         | H : context [if ?c then _ else _] |- _ => destruct c eqn:?
         end;
  cbn [andb negb] in *; try reflexivity; try discriminate; try congruence;
  repeat match goal with
         | H : _ && _ = true |- _ => apply andb_true_iff in H; destruct H
         end;
  try discriminate; try congruence.

(** What follows a text does not change how its first character is
    read, when a character can start there. *)
Lemma width_app a b :
  a <> "" -> boundary b = true -> width (a ++ b) = width a.
Proof.
  intros Ha Hb.
  destruct a as [|a0 [|a1 [|a2 [|a3 a]]]]; [contradiction|..];
    destruct b as [|c0 [|c1 [|c2 b]]]; cbn [append width boundary] in *;
    try reflexivity;
    try (apply negb_true_iff in Hb; rewrite ?Hb; cbn [andb]);
    width_crush.
Qed.

Lemma next_app a b ch r :
  next a = Some (ch, r) -> boundary b = true -> next (a ++ b) = Some (ch, r ++ b).
Proof.
  intros H Hb.
  assert (Ha : a <> "") by (intros ->; discriminate H).
  pose proof (width_app a b Ha Hb) as W.
  destruct a as [|a0 a1]; [contradiction|].
  unfold next in *. cbn [append] in *. rewrite W.
  destruct (width (String a0 a1)) as [|[|[|[|[|n]]]]] eqn:E;
    destruct a1 as [|a1' [|a2 [|a3 a4]]]; cbn [append];
    inversion H; subst; try reflexivity.
  all: exfalso; revert E; unfold width; width_crush.
Qed.

(** The characters of two texts put together, when a character can start
    at the head of the second. *)
Lemma chars_app a b :
  boundary b = true -> chars (a ++ b) = (chars a ++ chars b)%list.
Proof.
  intros Hb. induction a as [|a ch r E IH] using chars_ind; [reflexivity|].
  rewrite (chars_next a), E. rewrite chars_next, (next_app a b ch r E Hb).
  now rewrite IH.
Qed.

(** A suffix of the characters of a text is the characters of its own
    text. *)
Lemma chars_suffix s : forall pre post,
  chars s = (pre ++ post)%list -> chars (text post) = post.
Proof.
  induction s as [|s ch r E IH] using chars_ind; intros pre post H.
  - destruct pre, post; try discriminate. reflexivity.
  - rewrite chars_next, E in H. destruct pre as [|p pre]; cbn [app] in H.
    + subst post. cbn [text]. rewrite text_chars.
      pose proof (next_spec _ _ _ E) as [Hs _]. rewrite <- Hs.
      now rewrite chars_next, E.
    + inversion H as [[Hp Hr]]. exact (IH pre post Hr).
Qed.

(** A run of characters of a text, up to a place where a character
    starts, is the characters of its own text. *)
Lemma chars_infix s pre mid post :
  chars s = (pre ++ mid ++ post)%list -> boundary (text post) = true ->
  chars (text mid) = mid.
Proof.
  intros H Hb.
  pose proof (chars_suffix s pre (mid ++ post)%list H) as H1.
  pose proof (chars_suffix s (pre ++ mid)%list post) as H2.
  rewrite <- app_assoc in H2. specialize (H2 H).
  rewrite text_app, (chars_app _ _ Hb), H2 in H1.
  now apply app_inv_tail in H1.
Qed.

Lemma code_range c : 0 <= code c < 256.
Proof.
  unfold code. pose proof (N_ascii_bounded c). lia.
Qed.

Ltac code_bounds :=
  repeat match goal with
         | |- context [code ?c] =>
             lazymatch goal with
             | _ : 0 <= code c < 256 |- _ => fail
             | _ => pose proof (code_range c)
             end
         | H : context [code ?c] |- _ =>
             lazymatch goal with
             | _ : 0 <= code c < 256 |- _ => fail
             | _ => pose proof (code_range c)
             end
         end.

(** Tests on integers, as propositions. *)
Ltac bool_to_Z :=
  repeat match goal with
         | H : _ && _ = true |- _ => apply andb_true_iff in H; destruct H
         | H : _ && _ = false |- _ => apply andb_false_iff in H
         | H : negb _ = true |- _ => apply negb_true_iff in H
         | H : negb _ = false |- _ => apply negb_false_iff in H
         | H : (_ <? _) = true |- _ => apply Z.ltb_lt in H
         | H : (_ <? _) = false |- _ => apply Z.ltb_ge in H
         | H : (_ <=? _) = true |- _ => apply Z.leb_le in H
         | H : (_ <=? _) = false |- _ => apply Z.leb_gt in H
         | H : (_ =? _) = true |- _ => apply Z.eqb_eq in H
         | H : (_ =? _) = false |- _ => apply Z.eqb_neq in H
         end.

(** The shape of a character: one byte below 128, which is its code
    point, or bytes from 128 on with a code point from 128 on. *)
Ltac split_or :=
  repeat match goal with
         | H : _ \/ _ |- _ => destruct H
         end.

Ltac all_chars_ge :=
  cbn [all_chars];
  repeat (apply andb_true_iff; split); try reflexivity; apply Z.leb_le; lia.

Lemma char_shape ch :
  scalar (ord ch) ->
  (exists c, ch = String c "" /\ code c < 128 /\ ord ch = code c)
  \/ (128 <= ord ch /\ all_chars (fun c => 128 <=? code c) ch = true).
Proof.
  unfold ord, scalar.
  destruct ch as [|b0 [|b1 [|b2 [|b3 [|b4 ch]]]]]; cbn [String.length width Nat.eqb negb];
    try (intros [H|H]; exfalso; lia).
  all: unfold cont; width_crush; cbn [Nat.eqb negb]; code_bounds; bool_to_Z;
    intros Hs; try (exfalso; lia).
  - left. exists b0. auto.
  - right. split; [lia | all_chars_ge].
  - right. split_or; bool_to_Z; (split; [lia | all_chars_ge]).
  - right. split_or; bool_to_Z; (split; [lia | all_chars_ge]).
Qed.

(** A well-formed character is read whole, whatever follows it. *)
Lemma next_char ch s : scalar (ord ch) -> next (ch ++ s) = Some (ch, s).
Proof.
  unfold ord, scalar.
  destruct ch as [|b0 [|b1 [|b2 [|b3 [|b4 ch]]]]]; cbn [String.length width Nat.eqb negb];
    try (intros [H|H]; exfalso; lia).
  all: unfold next; cbn [append width]; unfold cont; width_crush;
    cbn [Nat.eqb negb]; code_bounds; bool_to_Z; intros Hs; try (exfalso; lia);
    try reflexivity.
Qed.

Lemma char_boundary ch s : scalar (ord ch) -> boundary (ch ++ s) = true.
Proof.
  unfold ord, scalar.
  destruct ch as [|b0 [|b1 [|b2 [|b3 [|b4 ch]]]]]; cbn [String.length width Nat.eqb negb];
    try (intros [H|H]; exfalso; lia).
  all: cbn [append boundary]; unfold cont; width_crush;
    cbn [Nat.eqb negb]; code_bounds; bool_to_Z; intros Hs; try (exfalso; lia).
  all: apply negb_true_iff, andb_false_iff;
    ((left; apply Z.leb_gt; lia) || (right; apply Z.leb_gt; lia)).
Qed.

(** A byte below 128 is a character. *)
Lemma next_ascii c s : code c < 128 -> next (String c s) = Some (String c "", s).
Proof.
  intros H. unfold next, width. apply Z.ltb_lt in H.
  destruct (Z.ltb_spec (code c) 194); [reflexivity | apply Z.ltb_lt in H; lia].
Qed.

Lemma isspace_points ch : isspace ch = true <-> In (ord ch) space_points.
Proof.
  unfold isspace. rewrite existsb_exists. split.
  - intros (x & Hin & E). apply Z.eqb_eq in E. now subst.
  - intros H. exists (ord ch). split; [exact H | apply Z.eqb_refl].
Qed.

Lemma space_points_scalar : Forall scalar space_points.
Proof. repeat constructor; unfold scalar; lia. Qed.

Lemma isspace_scalar ch : isspace ch = true -> scalar (ord ch).
Proof.
  intros H. apply isspace_points in H.
  exact (proj1 (Forall_forall _ _) space_points_scalar _ H).
Qed.

(** The digits are scalar values, apart from the digits 0 to 9 they are
    at 128 or above, and none is whitespace. *)
Lemma decimal_zeros_facts :
  Forall (fun z => (z = 48 \/ 128 <= z) /\ scalar z /\ scalar (z + 9)
                   /\ (z + 9 < 55296 \/ 57344 <= z)
                   /\ forallb (fun w => negb ((z <=? w) && (w <=? z + 9))) space_points
                      = true)
         decimal_zeros.
Proof.
  unfold decimal_zeros.
  repeat (constructor; [unfold scalar; split; [lia|]; split; [lia|]; split; [lia|];
                        split; [lia | vm_compute; reflexivity]|]).
  constructor.
Qed.

Lemma decimal_spec ch v :
  decimal ch = Some v ->
  exists z, In z decimal_zeros /\ z <= ord ch <= z + 9 /\ v = ord ch - z.
Proof.
  unfold decimal.
  destruct (List.find _ decimal_zeros) as [z|] eqn:E; [|discriminate].
  intros H; inversion H; subst. apply find_some in E as [Hin Hz].
  apply andb_true_iff in Hz as [H1 H2]. apply Z.leb_le in H1, H2.
  exists z. auto.
Qed.

Lemma decimal_facts ch v :
  decimal ch = Some v ->
  0 <= v <= 9 /\ scalar (ord ch) /\ isspace ch = false.
Proof.
  intros H. apply decimal_spec in H as (z & Hin & Hr & ->).
  pose proof (proj1 (Forall_forall _ _) decimal_zeros_facts z Hin)
    as (_ & S1 & S2 & S3 & Hsp).
  split; [lia|]. split; [unfold scalar in *; lia|].
  destruct (isspace ch) eqn:E; [|reflexivity].
  apply isspace_points in E. rewrite forallb_forall in Hsp.
  specialize (Hsp _ E). apply negb_true_iff, andb_false_iff in Hsp.
  destruct Hsp as [Hsp|Hsp]; [apply Z.leb_gt in Hsp | apply Z.leb_gt in Hsp]; lia.
Qed.

Lemma ord_byte c :
  ord (String c "") = if code c <? 128 then code c else 56320 + code c.
Proof.
  unfold ord. cbn [width String.length]. width_crush.
Qed.

(** An ASCII decimal digit is one of 0 to 9. *)
Lemma decimal_ascii c v :
  decimal (String c "") = Some v -> 48 <= code c <= 57 /\ v = code c - 48.
Proof.
  intros H. apply decimal_spec in H as (z & Hin & Hr & ->).
  pose proof (proj1 (Forall_forall _ _) decimal_zeros_facts z Hin)
    as (Hz & _ & _ & S3 & _).
  rewrite ord_byte in *. pose proof (code_range c).
  destruct (Z.ltb_spec (code c) 128); lia.
Qed.

Lemma decimal_digit_char v :
  0 <= v <= 9 -> decimal (String (digit_char v) "") = Some v.
Proof.
  intros H.
  assert (E : v = 0 \/ v = 1 \/ v = 2 \/ v = 3 \/ v = 4 \/ v = 5 \/ v = 6
              \/ v = 7 \/ v = 8 \/ v = 9) by lia.
  destruct E as [->|[->|[->|[->|[->|[->|[->|[->|[->| ->]]]]]]]]]; reflexivity.
Qed.

(** The bytes of a character: one byte, or bytes from 128 on. *)
Lemma next_bytes s ch r :
  next s = Some (ch, r) ->
  (exists c, ch = String c "") \/ all_chars (fun c => 128 <=? code c) ch = true.
Proof.
  destruct s as [|b0 s1]; [discriminate|]. unfold next.
  destruct (width (String b0 s1)) as [|[|[|[|[|n]]]]] eqn:W;
    destruct s1 as [|b1 [|b2 [|b3 s4]]];
    intros H; inversion H; subst; eauto.
  all: right; revert W; unfold width, cont; width_crush; code_bounds; bool_to_Z;
    intros _; all_chars_ge.
Qed.

(** Well-formed characters put together are read back one by one. *)
Lemma chars_text cs : Forall (fun ch => scalar (ord ch)) cs -> chars (text cs) = cs.
Proof.
  induction 1 as [|ch cs Hc _ IH]; [reflexivity|].
  cbn [text]. now rewrite chars_next, (next_char ch _ Hc), IH.
Qed.

(** *** The encoding

    [utf8] and [ord] are inverse to each other on the Unicode scalar
    values, so the characters of a text are the encodings of its code
    points. *)

Lemma code_byte k : 0 <= k < 256 -> code (byte k) = k.
Proof.
  intros H. unfold code, byte. rewrite N_ascii_embedding by lia. lia.
Qed.

Lemma byte_code c : byte (code c) = c.
Proof. unfold code, byte. now rewrite N2Z.id, ascii_N_embedding. Qed.

Ltac ltb_cases :=
  repeat match goal with
         | |- context [?a <? ?b] => destruct (Z.ltb_spec a b)
         | |- context [?a <=? ?b] => destruct (Z.leb_spec a b)
         | |- context [?a =? ?b] => destruct (Z.eqb_spec a b)
         end.

Lemma ord_utf8 n : scalar n -> n <= 1114111 -> ord (utf8 n) = n.
Proof.
  unfold scalar, utf8. intros Hs Hn.
  destruct (Z.ltb_spec n 128); [|destruct (Z.ltb_spec n 2048); [|destruct (Z.ltb_spec n 65536)]].
  - unfold ord, width. cbn [String.length]. rewrite !code_byte by lia.
    ltb_cases; cbn [Nat.eqb negb]; lia.
  - unfold ord, width, cont. cbn [String.length].
    rewrite !code_byte by (Z.div_mod_to_equations; lia).
    ltb_cases; cbn [Nat.eqb negb andb]; Z.div_mod_to_equations; lia.
  - unfold ord, width, cont. cbn [String.length].
    rewrite !code_byte by (Z.div_mod_to_equations; lia).
    ltb_cases; cbn [Nat.eqb negb andb]; Z.div_mod_to_equations; lia.
  - unfold ord, width, cont. cbn [String.length].
    rewrite !code_byte by (Z.div_mod_to_equations; lia).
    ltb_cases; cbn [Nat.eqb negb andb]; Z.div_mod_to_equations; lia.
Qed.

Ltac same_byte :=
  match goal with
  | |- byte ?k = ?b =>
      transitivity (byte (code b));
      [f_equal; Z.div_mod_to_equations; lia | apply byte_code]
  end.

Lemma utf8_ord ch : scalar (ord ch) -> utf8 (ord ch) = ch /\ ord ch <= 1114111.
Proof.
  unfold ord, scalar.
  destruct ch as [|b0 [|b1 [|b2 [|b3 [|b4 ch]]]]]; cbn [String.length width Nat.eqb negb];
    try (intros [H|H]; exfalso; lia).
  all: unfold cont; width_crush; cbn [Nat.eqb negb]; code_bounds; bool_to_Z;
    intros Hs; try (exfalso; lia).
  all: split_or; bool_to_Z; try (exfalso; lia).
  all: (split; [|lia]); unfold utf8; ltb_cases; try (exfalso; lia);
    repeat match goal with
           | |- String _ _ = String _ _ => apply f_equal2; [same_byte|]
           end;
    reflexivity.
Qed.

(** The characters of a text are the encodings of their code points. *)
Lemma chars_utf8 ns s :
  Forall (fun n => scalar n /\ n <= 1114111) ns ->
  chars (text (map utf8 ns) ++ s) = (map utf8 ns ++ chars s)%list
  /\ map ord (map utf8 ns) = ns.
Proof.
  induction 1 as [|n ns [Hs Hn] _ [IH1 IH2]]; [auto|].
  cbn [map text app]. rewrite append_assoc, chars_next.
  rewrite next_char by (rewrite ord_utf8; assumption).
  now rewrite IH1, IH2, ord_utf8.
Qed.

Lemma isdecimal_point ch : isdecimal ch = decimal_point (ord ch).
Proof.
  unfold isdecimal, decimal, decimal_point.
  destruct (List.find _ decimal_zeros) as [z|] eqn:E.
  - apply find_some in E as [Hin Hz]. symmetry. apply existsb_exists. eauto.
  - symmetry. apply not_true_is_false. intros H. apply existsb_exists in H as (z & Hin & Hz).
    pose proof (find_none _ _ E z Hin) as Hn. cbn beta in Hn. congruence.
Qed.

Lemma decimal_point_scalar n : decimal_point n = true -> scalar n /\ n <= 1114111.
Proof.
  unfold decimal_point. intros H. apply existsb_exists in H as (z & Hin & Hz).
  apply andb_true_iff in Hz as [H1 H2]. apply Z.leb_le in H1, H2.
  pose proof (proj1 (Forall_forall _ _) decimal_zeros_facts z Hin) as (_ & S1 & S2 & S3 & _).
  assert (Hmax : Forall (fun z => z <= 1114102) decimal_zeros) by (repeat constructor; lia).
  pose proof (proj1 (Forall_forall _ _) Hmax z Hin).
  unfold scalar in *. lia.
Qed.

End Characters.

(** ** The phone pattern *)

Section PhonePattern.

Lemma flat_map_single {A B : Type} (f : A -> B) (l : list A) :
  flat_map (fun a => [f a]) l = map f l.
Proof. induction l as [|a l IH]; cbn; [reflexivity | now rewrite IH]. Qed.

Lemma seq_chr (p : string -> bool) (m : Re.matcher string) (s : string) :
  Re.seq (Re.chr p) m s
  = match next s with
    | Some (ch, r) =>
        if p ch then map (fun br => (ch ++ fst br, snd br)) (m r) else []
    | None => []
    end.
Proof.
  unfold Re.seq, Re.bind, Re.chr, Re.ret.
  destruct (next s) as [[ch r]|]; [|reflexivity].
  destruct (p ch); [|reflexivity].
  cbn [flat_map fst snd]. rewrite app_nil_r.
  apply (flat_map_single (fun br => (ch ++ fst br, snd br))).
Qed.

Lemma rep_digit_take (n : nat) (s : string) :
  Re.rep n Re.digit s
  = match take_digits n s with Some x => [x] | None => [] end.
Proof.
  revert s; induction n as [|n IH]; intros s; [reflexivity|].
  cbn [Re.rep]. unfold Re.digit at 1. rewrite seq_chr. cbn [take_digits].
  destruct (next s) as [[ch r]|]; [|reflexivity].
  destruct (isdecimal ch); [|reflexivity].
  rewrite IH. destruct (take_digits n r) as [[p r']|]; reflexivity.
Qed.

Lemma take_digits_all (n : nat) (s p : string) :
  take_digits n s = Some (p, "") ->
  p = s /\ List.length (chars s) = n /\ forallb isdecimal (chars s) = true.
Proof.
  revert s p; induction n as [|n IH]; intros s p H.
  - cbn in H. inversion H; subst. auto.
  - cbn [take_digits] in H. rewrite chars_next.
    destruct (next s) as [[ch r]|] eqn:E; [|discriminate].
    destruct (isdecimal ch) eqn:Hc; [|discriminate].
    destruct (take_digits n r) as [[p' r']|] eqn:Ht; [|discriminate].
    inversion H; subst. destruct (IH _ _ Ht) as (-> & Hl & Ha).
    apply next_spec in E as [-> _].
    cbn [List.length forallb]. rewrite Hc, Ha, Hl. auto.
Qed.

Lemma take_digits_exact (s : string) :
  forallb isdecimal (chars s) = true ->
  take_digits (List.length (chars s)) s = Some (s, "").
Proof.
  induction s as [|s ch r E IH] using chars_ind; [reflexivity|].
  rewrite chars_next, E. cbn [forallb List.length take_digits].
  intros H. apply andb_true_iff in H as [Hc Hs].
  rewrite E, Hc, (IH Hs). apply next_spec in E as [-> _]. reflexivity.
Qed.

Lemma fullmatch_phone (s : string) :
  (ten_digits s /\ Re.fullmatch phone_pattern s = Some s)
  \/ (~ ten_digits s /\ Re.fullmatch phone_pattern s = None).
Proof.
  unfold Re.fullmatch, phone_pattern. rewrite rep_digit_take.
  destruct (take_digits 10 s) as [[p r]|] eqn:Ht.
  - destruct r as [|c r]; cbn.
    + left. apply take_digits_all in Ht as (-> & Hl & Ha).
      split; [split; assumption | reflexivity].
    + right. split; [|reflexivity]. intros [Hl Ha].
      rewrite <- Hl, (take_digits_exact s Ha) in Ht. discriminate.
  - right. split; [|reflexivity]. intros [Hl Ha].
    rewrite <- Hl, (take_digits_exact s Ha) in Ht. discriminate.
Qed.

Lemma is_digit_decimal c : is_digit c = true -> isdecimal (String c "") = true.
Proof.
  unfold is_digit. intros H. apply andb_true_iff in H as [H1 H2].
  apply Z.leb_le in H1, H2.
  assert (E : c = digit_char (code c - 48)).
  { unfold digit_char, code. replace (Z.of_N (N_of_ascii c) - 48 + 48) with (Z.of_N (N_of_ascii c)) by lia.
    now rewrite N2Z.id, ascii_N_embedding. }
  unfold isdecimal. rewrite E, decimal_digit_char by lia. reflexivity.
Qed.

Lemma ascii_digits_chars s :
  all_chars is_digit s = true ->
  List.length (chars s) = String.length s /\ forallb isdecimal (chars s) = true.
Proof.
  induction s as [|c s IH]; [auto|]. cbn [all_chars String.length].
  intros H. apply andb_true_iff in H as [Hc Hs]. destruct (IH Hs) as [Hl Hd].
  assert (Hlt : code c < 128).
  { unfold is_digit in Hc. apply andb_true_iff in Hc as [_ Hc]. apply Z.leb_le in Hc. lia. }
  rewrite chars_next, (next_ascii c s Hlt). cbn [List.length forallb].
  now rewrite Hl, Hd, (is_digit_decimal c Hc).
Qed.

(** Ten of the digits 0 to 9 are ten digits. *)
Lemma ascii_digits_decimal s : ten_ascii_digits s -> ten_digits s.
Proof.
  intros [Hl Ha]. destruct (ascii_digits_chars s Ha) as [Hl' Hd].
  split; [now rewrite Hl' | exact Hd].
Qed.

(** Ten digits, said with code points: the text is the encoding of ten
    code points, each a decimal digit. *)
Lemma ten_digits_code_points s :
  ten_digits s
  <-> exists ns, List.length ns = 10%nat
                 /\ Forall (fun n => decimal_point n = true) ns
                 /\ s = text (map utf8 ns).
Proof.
  unfold ten_digits. split.
  - intros [Hl Hd]. exists (map ord (chars s)).
    split; [now rewrite length_map|].
    assert (H : Forall (fun ch => decimal_point (ord ch) = true /\ utf8 (ord ch) = ch)
                       (chars s)).
    { apply Forall_forall. intros ch Hin. rewrite forallb_forall in Hd.
      specialize (Hd ch Hin). rewrite isdecimal_point in Hd. split; [exact Hd|].
      apply utf8_ord. now apply decimal_point_scalar. }
    split.
    + apply Forall_map. eapply Forall_impl; [|exact H]. cbn. tauto.
    + rewrite <- (text_chars s) at 1. f_equal. rewrite map_map.
      clear Hl Hd. induction H as [|ch l [_ E] _ IH]; [reflexivity|].
      cbn [map]. now rewrite E, <- IH.
  - intros (ns & Hl & Hd & ->).
    assert (Hs : Forall (fun n => scalar n /\ n <= 1114111) ns)
      by (eapply Forall_impl; [|exact Hd]; exact decimal_point_scalar).
    destruct (chars_utf8 ns "" Hs) as [Hc Ho]. rewrite append_nil_r, app_nil_r in Hc.
    rewrite Hc, length_map. split; [exact Hl|].
    apply forallb_forall. intros ch Hin. apply in_map_iff in Hin as (n & <- & Hin).
    rewrite isdecimal_point.
    rewrite ord_utf8 by (apply (proj1 (Forall_forall _ _) Hs n Hin)).
    exact (proj1 (Forall_forall _ _) Hd n Hin).
Qed.

(** The ten Arabic-Indic digits by their code points. *)
Example arabic_digits_code_points :
  arabic_digits = text (map utf8 [1633; 1634; 1635; 1636; 1637; 1638; 1639; 1640; 1641; 1632])
  /\ map decimal (chars arabic_digits) = map Some [1; 2; 3; 4; 5; 6; 7; 8; 9; 0].
Proof. split; reflexivity. Qed.

End PhonePattern.

(** C3, as the code has it.  [Phone(s)], and with it
    [Record.add_phone(s)], succeeds exactly when [s] is a string of
    exactly 10 decimal digits, where a digit is what [\d] matches in a
    [str]: one of 0 to 9 or a decimal digit of another script.  For any
    other string (a letter, a symbol, another length) it raises the
    validation error [ValueError("Phone must be 10 digits.")] and the
    record keeps its phones.  Every string of exactly 10 of the digits 0
    to 9 is accepted.  Said with code points, the accepted strings are
    the texts of ten code points that are decimal digits. *)
Theorem Phone_init_iff_ten_digits (s : string) :
  (is_ok (Phone_init s) = true <-> ten_digits s)
  /\ (ten_digits s ->
      Phone_init s = Ok (mkField s)
      /\ forall r, add_phone s r = (set_phones r (phones r ++ [mkField s]), Ok tt))
  /\ (~ ten_digits s ->
      Phone_init s = Raise (ValueError "Phone must be 10 digits.")
      /\ forall r, add_phone s r = (r, Raise (ValueError "Phone must be 10 digits.")))
  /\ (ten_ascii_digits s -> ten_digits s)
  /\ (ten_digits s
      <-> exists ns, List.length ns = 10%nat
                     /\ Forall (fun n => decimal_point n = true) ns
                     /\ s = text (map utf8 ns)).
Proof.
  assert (Hp := ten_digits_code_points s).
  unfold add_phone, Phone_init.
  destruct (fullmatch_phone s) as [[Ht ->] | [Hn ->]]; cbn.
  - split; [tauto|]. split; [auto|]. split; [intros Hn; contradiction|].
    split; [auto | exact Hp].
  - split; [split; [discriminate | intros Ht; contradiction]|].
    split; [intros Ht; contradiction|]. split; [auto|]. split; [|exact Hp].
    intros Ha. exfalso. apply Hn. now apply ascii_digits_decimal.
Qed.

(** C3 as stated, with the digits 0 to 9, fails: [Phone] accepts ten
    Arabic-Indic digits, as [\d{10}] does on a [str]. *)
Lemma Phone_init_arabic_counterexample :
  Phone_init arabic_digits = Ok (mkField arabic_digits)
  /\ (forall r, snd (add_phone arabic_digits r) = Ok tt)
  /\ ~ ten_ascii_digits arabic_digits.
Proof.
  split; [reflexivity|]. split; [reflexivity|].
  intros [Hl _]. discriminate Hl.
Qed.

(** ** The calendar *)

Section Calendar.

Lemma days_in_month_bounds y m : 1 <= m <= 12 -> 28 <= days_in_month y m <= 31.
Proof.
  intros Hm. unfold days_in_month. split_month m; destruct (is_leap y); cbn; lia.
Qed.

Lemma date_new_ok y m d dt :
  date_new y m d = Ok dt <-> dt = mkdate y m d /\ valid dt.
Proof.
  unfold date_new, valid, MINYEAR, MAXYEAR.
  destruct (Z.leb_spec 1 y), (Z.leb_spec y 9999), (Z.leb_spec 1 m), (Z.leb_spec m 12),
    (Z.leb_spec 1 d), (Z.leb_spec d (days_in_month y m)); cbn;
    (split; [intros Heq; inversion Heq; subst; cbn; repeat split; (reflexivity || lia)
            | intros [-> Hv]; cbn in Hv; (reflexivity || lia)]).
Qed.

Lemma date_new_raises y m d :
  ~ valid (mkdate y m d) -> exists msg, date_new y m d = Raise (ValueError msg).
Proof.
  intros H. unfold date_new.
  repeat match goal with |- context [if ?b then _ else _] => destruct b eqn:? end;
    eauto.
  exfalso. apply H. unfold valid; cbn. 
  repeat match goal with H : negb _ = false |- _ => apply negb_false_iff, andb_true_iff in H; destruct H end.
  lia.
Qed.

Lemma days_before_year_succ y :
  days_before_year (y + 1) = days_before_year y + 365 + (if is_leap y then 1 else 0).
Proof.
  unfold days_before_year, is_leap.
  replace (y + 1 - 1) with y by lia.
  destruct (Z.eqb_spec (y mod 4) 0); destruct (Z.eqb_spec (y mod 100) 0);
    destruct (Z.eqb_spec (y mod 400) 0); cbn; Z.div_mod_to_equations; lia.
Qed.

Lemma toordinal_bounds dt : valid dt -> 1 <= toordinal dt <= MAXORDINAL.
Proof.
  destruct dt as [y m d]. unfold valid, toordinal, ymd2ord, MAXORDINAL, MINYEAR, MAXYEAR; cbn.
  intros (Hy & Hm & Hd).
  unfold days_in_month in Hd. unfold days_before_month, days_before_year.
  unfold is_leap in *.
  split_month m; cbn in *;
  destruct (Z.eqb_spec (y mod 4) 0); destruct (Z.eqb_spec (y mod 100) 0);
    destruct (Z.eqb_spec (y mod 400) 0); cbn in *; Z.div_mod_to_equations; lia.
Qed.

Lemma month_day_table :
  forallb (fun k => month_day_ok false (Z.of_nat k) && month_day_ok true (Z.of_nat k))
          (seq 0 365) = true.
Proof. vm_compute. reflexivity. Qed.

Lemma month_day_spec (leap : bool) (k : Z) :
  0 <= k < 365 -> month_day_ok leap k = true.
Proof.
  intros Hk. pose proof month_day_table as H.
  rewrite forallb_forall in H. specialize (H (Z.to_nat k)).
  rewrite Z2Nat.id in H by lia.
  assert (Hin : In (Z.to_nat k) (seq 0 365)) by (apply in_seq; lia).
  apply H in Hin. apply andb_true_iff in Hin as [Hf Ht].
  destruct leap; assumption.
Qed.

Lemma ord2ymd_eq (n : Z) :
  ord2ymd n =
  let a := (n - 1) / DI400Y in
  let r1 := (n - 1) mod DI400Y in
  let b := r1 / DI100Y in
  let r2 := r1 mod DI100Y in
  let c := r2 / DI4Y in
  let r3 := r2 mod DI4Y in
  let e := r3 / 365 in
  let k := r3 mod 365 in
  let y := a * 400 + 1 + b * 100 + c * 4 + e in
  if (e =? 4) || (b =? 4) then (y - 1, 12, 31)
  else
    let leap := (e =? 3) && (negb (c =? 24) || (b =? 3)) in
    (y, fst (month_day leap k), snd (month_day leap k)).
Proof.
  unfold ord2ymd, month_day. cbv zeta.
  repeat match goal with |- context [if ?b then _ else _] => destruct b end; reflexivity.
Qed.

Lemma ord2ymd_spec (n : Z) :
  1 <= n <= MAXORDINAL ->
  valid (fromordinal n) /\ toordinal (fromordinal n) = n.
Proof.
  intros Hn. unfold fromordinal. rewrite ord2ymd_eq. cbv zeta.
  unfold DI400Y, DI100Y, DI4Y, MAXORDINAL in *.
  set (a := (n - 1) / 146097).
  set (r1 := (n - 1) mod 146097).
  set (b := r1 / 36524). set (r2 := r1 mod 36524).
  set (c := r2 / 1461). set (r3 := r2 mod 1461).
  set (e := r3 / 365). set (k := r3 mod 365).
  assert (Ha : 0 <= a <= 24) by (subst a; Z.div_mod_to_equations; lia).
  assert (Hb : 0 <= b <= 4) by (subst b r1; Z.div_mod_to_equations; lia).
  assert (Hc : 0 <= c <= 24) by (subst c r2; Z.div_mod_to_equations; lia).
  assert (He : 0 <= e <= 4) by (subst e r3; Z.div_mod_to_equations; lia).
  assert (Hk : 0 <= k < 365) by (subst k; Z.div_mod_to_equations; lia).
  assert (Hn1 : n - 1 = 146097 * a + 36524 * b + 1461 * c + 365 * e + k)
    by (subst a b c e k r3 r2 r1; Z.div_mod_to_equations; lia).
  assert (Hr1 : r1 = 36524 * b + 1461 * c + 365 * e + k)
    by (subst b c e k r3 r2; Z.div_mod_to_equations; lia).
  assert (Hr1b : 0 <= r1 < 146097) by (subst r1; Z.div_mod_to_equations; lia).
  assert (Hr2 : r2 = 1461 * c + 365 * e + k)
    by (subst c e k r3; Z.div_mod_to_equations; lia).
  assert (Hr2b : 0 <= r2 < 36524) by (subst r2; Z.div_mod_to_equations; lia).
  assert (Hr3 : r3 = 365 * e + k) by (subst e k; Z.div_mod_to_equations; lia).
  assert (Hr3b : 0 <= r3 < 1461) by (subst r3; Z.div_mod_to_equations; lia).
  clearbody a b c e k r1 r2 r3.
  destruct (Z.eqb_spec e 4) as [He4|He4]; [|destruct (Z.eqb_spec b 4) as [Hb4|Hb4]]; cbn [orb].
  - (* the last day of a leap year that closes a 4-year cycle *)
    unfold valid, toordinal, ymd2ord, days_in_month, days_before_month,
      days_before_year, is_leap, MINYEAR, MAXYEAR; cbn [year month day].
    change (tbl DAYS_IN_MONTH 12) with 31. change (tbl DAYS_BEFORE_MONTH 12) with 334.
    change (12 =? 2) with false. change (12 >? 2) with true. cbn [andb].
    replace (a * 400 + 1 + b * 100 + c * 4 + e - 1) with (400 * a + 100 * b + 4 * c + 4) by lia.
    assert (Hc24 : c < 24) by lia.
    assert (Hb3 : b <= 3) by lia.
    destruct (Z.eqb_spec ((400 * a + 100 * b + 4 * c + 4) mod 4) 0);
    destruct (Z.eqb_spec ((400 * a + 100 * b + 4 * c + 4) mod 100) 0);
    destruct (Z.eqb_spec ((400 * a + 100 * b + 4 * c + 4) mod 400) 0);
    cbn [andb orb negb]; Z.div_mod_to_equations; lia.
  - unfold valid, toordinal, ymd2ord, days_in_month, days_before_month,
      days_before_year, is_leap, MINYEAR, MAXYEAR; cbn [year month day].
    change (tbl DAYS_IN_MONTH 12) with 31. change (tbl DAYS_BEFORE_MONTH 12) with 334.
    change (12 =? 2) with false. change (12 >? 2) with true. cbn [andb].
    replace (a * 400 + 1 + b * 100 + c * 4 + e - 1) with (400 * a + 400) by lia.
    destruct (Z.eqb_spec ((400 * a + 400) mod 4) 0);
    destruct (Z.eqb_spec ((400 * a + 400) mod 100) 0);
    destruct (Z.eqb_spec ((400 * a + 400) mod 400) 0);
    cbn [andb orb negb]; Z.div_mod_to_equations; lia.
  - set (leap := (e =? 3) && (negb (c =? 24) || (b =? 3))).
    set (y := a * 400 + 1 + b * 100 + c * 4 + e).
    assert (Hleap : is_leap y = leap).
    { unfold is_leap, leap, y.
      destruct (Z.eqb_spec e 3), (Z.eqb_spec c 24), (Z.eqb_spec b 3);
      destruct (Z.eqb_spec ((a * 400 + 1 + b * 100 + c * 4 + e) mod 4) 0);
      destruct (Z.eqb_spec ((a * 400 + 1 + b * 100 + c * 4 + e) mod 100) 0);
      destruct (Z.eqb_spec ((a * 400 + 1 + b * 100 + c * 4 + e) mod 400) 0);
      cbn [andb orb negb]; try reflexivity; exfalso; Z.div_mod_to_equations; lia. }
    pose proof (month_day_spec leap k Hk) as Hmd. unfold month_day_ok in Hmd.
    destruct (month_day leap k) as [m d]. cbn [fst snd].
    repeat (apply andb_true_iff in Hmd; destruct Hmd as [Hmd ?]).
    unfold valid, toordinal, ymd2ord, days_in_month, days_before_month,
      MINYEAR, MAXYEAR; cbn [year month day].
    rewrite Hleap.
    assert (Hdby : days_before_year y = n - 1 - k).
    { unfold days_before_year, y. Z.div_mod_to_equations. lia. }
    rewrite Hdby. unfold y. lia.
Qed.

Lemma weekday_range dt : 0 <= weekday dt < 7.
Proof. unfold weekday. apply Z.mod_pos_bound. lia. Qed.

Lemma lt_same_year a b :
  valid a -> valid b -> year a = year b ->
  (lt a b = true <-> toordinal a < toordinal b).
Proof.
  destruct a as [y m d], b as [y' m' d'].
  unfold valid, lt, toordinal, ymd2ord, days_in_month, days_before_month; cbn [year month day].
  intros (Hy & Hm & Hd) (Hy' & Hm' & Hd') <-.
  rewrite Z.ltb_irrefl, Z.eqb_refl. cbn [orb andb].
  destruct (is_leap y);
  split_month m; split_month m'; 
  destruct (Z.ltb_spec d d'); cbn [andb orb]; split; intros; try discriminate; try reflexivity; lia.
Qed.

Lemma days_before_year_mono y1 y2 :
  y1 <= y2 -> days_before_year y1 <= days_before_year y2.
Proof. intros H. unfold days_before_year. Z.div_mod_to_equations. lia. Qed.

Lemma day_of_year_bounds dt :
  valid dt ->
  1 <= days_before_month (year dt) (month dt) + day dt
    <= 365 + (if is_leap (year dt) then 1 else 0).
Proof.
  destruct dt as [y m d].
  unfold valid, days_in_month, days_before_month; cbn [year month day].
  intros (Hy & Hm & Hd).
  destruct (is_leap y); split_month m; lia.
Qed.

Lemma toordinal_year_le a b :
  valid a -> valid b -> toordinal a <= toordinal b -> year a <= year b.
Proof.
  intros Ha Hb Hle.
  destruct (Z.le_gt_cases (year a) (year b)) as [|Hgt]; [assumption|exfalso].
  pose proof (day_of_year_bounds a Ha) as Da.
  pose proof (day_of_year_bounds b Hb) as Db.
  pose proof (days_before_year_succ (year b)) as Hs.
  pose proof (days_before_year_mono (year b + 1) (year a) ltac:(lia)) as Hmono.
  unfold toordinal, ymd2ord in Hle. lia.
Qed.

Lemma lt_iff_toordinal a b :
  valid a -> valid b -> (lt a b = true <-> toordinal a < toordinal b).
Proof.
  intros Ha Hb.
  destruct (Z.lt_trichotomy (year a) (year b)) as [Hlt | [Heq | Hgt]].
  - split.
    + intros _. destruct (Z.lt_ge_cases (toordinal a) (toordinal b)); [assumption|].
      pose proof (toordinal_year_le b a Hb Ha ltac:(lia)). lia.
    + intros _. unfold lt. apply Z.ltb_lt in Hlt. rewrite Hlt. reflexivity.
  - apply lt_same_year; assumption.
  - split.
    + unfold lt. intros H.
      destruct (Z.ltb_spec (year a) (year b)); [lia|].
      destruct (Z.eqb_spec (year a) (year b)); [lia|]. discriminate H.
    + intros H. pose proof (toordinal_year_le a b Ha Hb ltac:(lia)). lia.
Qed.

Lemma next_year_gap y m d :
  valid (mkdate y m d) -> valid (mkdate (y + 1) m d) ->
  365 <= ymd2ord (y + 1) m d - ymd2ord y m d <= 366.
Proof.
  unfold valid, ymd2ord, days_in_month, days_before_month; cbn [year month day].
  intros (Hy & Hm & Hd) (Hy' & _ & Hd').
  rewrite days_before_year_succ.
  destruct (is_leap y) eqn:L1; destruct (is_leap (y + 1)) eqn:L2;
    split_month m; try lia.
  all: exfalso; revert L1 L2; unfold is_leap;
    destruct (Z.eqb_spec (y mod 4) 0); destruct (Z.eqb_spec ((y + 1) mod 4) 0);
    cbn; try discriminate; intros _ _; Z.div_mod_to_equations; lia.
Qed.

Lemma weekend_shift a :
  valid a -> 5 <= weekday a ->
  exists m, add_days a (7 - weekday a) = Ok m /\ valid m /\ weekday m = 0
            /\ toordinal m = toordinal a + (7 - weekday a).
Proof.
  intros Ha Hw. pose proof (toordinal_bounds a Ha) as Hb.
  pose proof (weekday_range a) as Hr.
  assert (Ho : 1 <= toordinal a + (7 - weekday a) <= MAXORDINAL).
  { unfold weekday, MAXORDINAL in *. Z.div_mod_to_equations. lia. }
  remember (toordinal a + (7 - weekday a)) as o eqn:Eo.
  exists (fromordinal o).
  destruct (ord2ymd_spec _ Ho) as [Hv Ht].
  unfold add_days. rewrite <- Eo.
  destruct (Z.ltb_spec 0 o); [|lia].
  destruct (Z.leb_spec o MAXORDINAL); [|lia].
  cbn [andb]. split; [reflexivity|]. split; [exact Hv|]. split; [|exact Ht].
  unfold weekday in *. rewrite Ht. Z.div_mod_to_equations. lia.
Qed.

End Calendar.

(** ** The birthday scheduler *)

Section Scheduler.

Lemma replace_year_fields b y t :
  replace_year b y = Ok t -> t = mkdate y (month b) (day b) /\ valid t.
Proof. unfold replace_year. apply date_new_ok. Qed.

Lemma upcoming_loop_cons today r rest acc :
  upcoming_loop today (r :: rest) acc
  = (l <- congratulate today r ;; upcoming_loop today rest (acc ++ l)%list).
Proof.
  cbn [upcoming_loop]. unfold congratulate, anniversary, congratulation_day, days_ahead.
  destruct (birthday r) as [bd|]; [|cbn; now rewrite app_nil_r].
  destruct (strptime (value bd)) as [b|e]; [|reflexivity]. cbn [rbind].
  destruct (replace_year b (year today)) as [t|e] eqn:Ht; [|reflexivity]. cbn [rbind].
  apply replace_year_fields in Ht as [Ht _].
  assert (Hr : replace_year t (year today + 1) = replace_year b (year today + 1))
    by (subst t; reflexivity).
  rewrite Hr.
  destruct (if lt t today then replace_year b (year today + 1) else Ok t) as [a|e];
    [|reflexivity].
  cbn [rbind].
  destruct ((0 <=? sub_days a today) && (sub_days a today <=? 7));
    [|cbn; now rewrite app_nil_r].
  destruct (if weekday a >=? 5 then add_days a (7 - weekday a) else Ok a); reflexivity.
Qed.

Lemma upcoming_loop_ok today rs : forall acc out,
  upcoming_loop today rs acc = Ok out ->
  exists ls, Forall2 (fun r l => congratulate today r = Ok l) rs ls
             /\ out = (acc ++ List.concat ls)%list.
Proof.
  induction rs as [|r rs IH]; intros acc out H.
  - cbn in H. inversion H; subst. exists []. split; [constructor|]. cbn. now rewrite app_nil_r.
  - rewrite upcoming_loop_cons in H.
    destruct (congratulate today r) as [l|e] eqn:Hc; [|discriminate]. cbn [rbind] in H.
    destruct (IH _ _ H) as (ls & HF & ->).
    exists (l :: ls). split; [constructor; assumption|]. cbn. now rewrite app_assoc.
Qed.

Lemma upcoming_loop_raises today rs : forall acc r,
  In r rs -> is_ok (congratulate today r) = false ->
  exists r' e, In r' rs /\ congratulate today r' = Raise e
               /\ upcoming_loop today rs acc = Raise e.
Proof.
  induction rs as [|r0 rs IH]; intros acc r Hin Hr; [destruct Hin|].
  rewrite upcoming_loop_cons.
  destruct (congratulate today r0) as [l|e] eqn:Hc.
  - cbn [rbind]. destruct Hin as [->|Hin]; [rewrite Hc in Hr; discriminate|].
    destruct (IH (acc ++ l)%list r Hin Hr) as (r' & e & Hin' & Hc' & Hl).
    exists r', e. repeat split; [right|..]; assumption.
  - exists r0, e. repeat split; [left; reflexivity | assumption].
Qed.

Lemma anniversary_valid today b a :
  anniversary today b = Ok a ->
  valid a /\ month a = month b /\ day a = day b
  /\ (year a = year today \/ year a = year today + 1).
Proof.
  unfold anniversary.
  destruct (replace_year b (year today)) as [t|] eqn:Ht; [|discriminate]. cbn [rbind].
  apply replace_year_fields in Ht as [-> Hv].
  destruct (lt _ today).
  - intros H. apply replace_year_fields in H as [-> Hv']. cbn. auto.
  - intros H. inversion H; subst. cbn. auto.
Qed.

Lemma congratulation_day_spec a :
  valid a ->
  exists m, congratulation_day a = Ok m /\ valid m
            /\ (weekday a < 5 -> m = a)
            /\ (5 <= weekday a ->
                weekday m = 0 /\ toordinal m = toordinal a + (7 - weekday a)).
Proof.
  intros Ha. unfold congratulation_day.
  destruct (Z.geb_spec (weekday a) 5) as [Hw|Hw].
  - destruct (weekend_shift a Ha Hw) as (m & Hm & Hv & Hw0 & Ho).
    exists m. split; [assumption|]. split; [assumption|].
    split; [intros; exfalso; lia | intros _; split; assumption].
  - exists a. split; [reflexivity|]. split; [assumption|].
    split; [reflexivity | intros; exfalso; lia].
Qed.

Lemma date_new_raises_ValueError y m d e :
  date_new y m d = Raise e -> is_ValueError e.
Proof.
  unfold date_new, is_ValueError.
  repeat match goal with |- context [if ?b then _ else _] => destruct b end;
    intros H; inversion H; eauto.
Qed.

Lemma int_raises_ValueError s e : int s = Raise e -> is_ValueError e.
Proof.
  unfold int, is_ValueError.
  match goal with |- context [let '(_, _) := ?x in _] => destruct x as [sign body] end.
  destruct (int_body body) as [ds|]; [destruct (4300 <? _)|];
    intros H; inversion H; eauto.
Qed.

Lemma strptime_raises_ValueError s e : strptime s = Raise e -> is_ValueError e.
Proof.
  unfold strptime.
  destruct (Re.re_match format_regex s) as [[[[d m] y] rest]|];
    [|intros H; inversion H; red; eauto].
  destruct (negb (is_empty rest)); [intros H; inversion H; red; eauto|].
  destruct (int y) as [y'|e1] eqn:Hy; [|cbn; intros H; inversion H; subst; eapply int_raises_ValueError; eauto].
  destruct (int m) as [m'|e1] eqn:Hm; [|cbn; intros H; inversion H; subst; eapply int_raises_ValueError; eauto].
  destruct (int d) as [d'|e1] eqn:Hd; [|cbn; intros H; inversion H; subst; eapply int_raises_ValueError; eauto].
  cbn. apply date_new_raises_ValueError.
Qed.

Lemma anniversary_raises_ValueError today b e :
  anniversary today b = Raise e -> is_ValueError e.
Proof.
  unfold anniversary, replace_year.
  destruct (date_new (year today) (month b) (day b)) as [t|e0] eqn:Ht; cbn [rbind].
  - destruct (lt t today); [apply date_new_raises_ValueError | discriminate].
  - intros H; inversion H; subst. eapply date_new_raises_ValueError; eauto.
Qed.

(** The scheduler raises nothing but [ValueError]. *)
Lemma congratulate_raises_ValueError today r e :
  congratulate today r = Raise e -> is_ValueError e.
Proof.
  unfold congratulate. destruct (birthday r) as [bd|]; [|discriminate].
  destruct (strptime (value bd)) as [b|e0] eqn:Hb; cbn [rbind].
  - destruct (anniversary today b) as [a|e1] eqn:Ha; cbn [rbind].
    + destruct (_ && _); [|discriminate].
      destruct (anniversary_valid _ _ _ Ha) as [Hv _].
      destruct (congratulation_day_spec a Hv) as (m & -> & _). discriminate.
    + intros H; inversion H; subst. eapply anniversary_raises_ValueError; eauto.
  - intros H; inversion H; subst. eapply strptime_raises_ValueError; eauto.
Qed.

End Scheduler.

Section SchedulerClaims.

Lemma congratulate_ok today r l :
  congratulate today r = Ok l ->
  map entry_name l = (if within_week today r then [record_name r] else [])
  /\ forall bd, birthday r = Some bd ->
       exists b a, strptime (value bd) = Ok b /\ anniversary today b = Ok a.
Proof.
  unfold congratulate, within_week.
  destruct (birthday r) as [bd|].
  - destruct (strptime (value bd)) as [b|] eqn:Hb; [|discriminate]. cbn [rbind].
    destruct (anniversary today b) as [a|] eqn:Ha; [|discriminate]. cbn [rbind].
    intros H. split.
    + destruct (_ && _).
      * destruct (congratulation_day a); [|discriminate].
        inversion H; subst. reflexivity.
      * inversion H; subst. reflexivity.
    + intros bd' E. inversion E; subst. eauto.
  - intros H. inversion H; subst. split; [reflexivity | discriminate].
Qed.

Lemma upcoming_names today rs ls :
  Forall2 (fun r l => congratulate today r = Ok l) rs ls ->
  map entry_name (List.concat ls) = map record_name (filter (within_week today) rs).
Proof.
  induction 1 as [|r l rs ls Hc _ IH]; [reflexivity|].
  cbn [List.concat filter]. rewrite map_app, IH.
  destruct (congratulate_ok _ _ _ Hc) as [-> _].
  destruct (within_week today r); reflexivity.
Qed.

Lemma upcoming_birthdays_known today rs ls r bd :
  Forall2 (fun r l => congratulate today r = Ok l) rs ls ->
  In r rs -> birthday r = Some bd ->
  exists b a, strptime (value bd) = Ok b /\ anniversary today b = Ok a.
Proof.
  induction 1 as [|r0 l rs ls Hc _ IH]; intros Hin Hb; [destruct Hin|].
  destruct Hin as [->|Hin]; [|auto].
  destruct (congratulate_ok _ _ _ Hc) as [_ H]. auto.
Qed.

Lemma NoDup_map_eq {A B : Type} (f : A -> B) (l : list A) (x y : A) :
  NoDup (map f l) -> In x l -> In y l -> f x = f y -> x = y.
Proof.
  induction l as [|a l IH]; intros Hnd Hx Hy E; [destruct Hx|].
  cbn in Hnd. inversion Hnd as [|? ? Hnotin Hnd']; subst.
  destruct Hx as [->|Hx], Hy as [->|Hy]; auto.
  - exfalso. apply Hnotin. rewrite E. now apply in_map.
  - exfalso. apply Hnotin. rewrite <- E. now apply in_map.
Qed.

Lemma in_filter_names (p : Record_ -> bool) (rs : list Record_) (r : Record_) :
  NoDup (map record_name rs) -> In r rs ->
  (In (record_name r) (map record_name (filter p rs)) <-> p r = true).
Proof.
  intros Hnd Hin. split.
  - intros H. apply in_map_iff in H as (r' & E & H').
    apply filter_In in H' as [Hin' Hp].
    now rewrite <- (NoDup_map_eq record_name rs r' r Hnd Hin' Hin E).
  - intros Hp. apply in_map. apply filter_In. auto.
Qed.

(** A date one day before today in today's year has its next occurrence
    364 or 365 days ahead. *)
Lemma yesterday_rolls today b t a :
  valid today ->
  replace_year b (year today) = Ok t -> days_ahead today t = -1 ->
  anniversary today b = Ok a ->
  year a = year today + 1 /\ 364 <= days_ahead today a.
Proof.
  intros Hv Ht Hd Ha.
  pose proof Ht as Ht'. apply replace_year_fields in Ht' as [Et Hvt].
  unfold anniversary in Ha. rewrite Ht in Ha. cbn [rbind] in Ha.
  unfold days_ahead, sub_days in *.
  assert (Hlt : lt t today = true) by (apply lt_iff_toordinal; [assumption..|lia]).
  rewrite Hlt in Ha. apply replace_year_fields in Ha as [-> Hva].
  cbn [year]. split; [reflexivity|].
  assert (Hvt' : valid (mkdate (year today) (month b) (day b))) by (rewrite <- Et; exact Hvt).
  pose proof (next_year_gap _ _ _ Hvt' Hva) as Hgap.
  subst t. unfold toordinal in *. cbn [year month day] in *. lia.
Qed.

(** C1.  When the scheduler returns a list, the names in it are the names
    of the records within the week, in the order of the book; a record
    with a birthday is in the list exactly when [0 <= daysAhead <= 7] for
    its anniversary.  So a birthday 7 days ahead is included, one 8 days
    ahead is not, and one that was yesterday has its anniversary next year,
    364 or more days ahead, and is not included.  The book holds one
    record per name, as every reachable book does. *)
Theorem upcoming_iff_within_week
    (today : date) (book : AddressBook) (out : list Congratulation) :
  valid today ->
  NoDup (map record_name (dict_values book)) ->
  get_upcoming_birthdays today book = Ok out ->
  map entry_name out = map record_name (filter (within_week today) (dict_values book))
  /\ forall r bd,
       In r (dict_values book) -> birthday r = Some bd ->
       exists b a,
         strptime (value bd) = Ok b /\ anniversary today b = Ok a
         /\ (included out r <-> 0 <= days_ahead today a <= 7)
         /\ (days_ahead today a = 7 -> included out r)
         /\ (days_ahead today a = 8 -> ~ included out r)
         /\ (forall t,
               replace_year b (year today) = Ok t -> days_ahead today t = -1 ->
               year a = year today + 1 /\ 364 <= days_ahead today a
               /\ ~ included out r).
Proof.
  intros Hv Hnd Hout. unfold get_upcoming_birthdays in Hout.
  apply upcoming_loop_ok in Hout as (ls & HF & ->). cbn [app].
  pose proof (upcoming_names _ _ _ HF) as Hnames.
  split; [exact Hnames|].
  intros r bd Hin Hb.
  destruct (upcoming_birthdays_known _ _ _ _ _ HF Hin Hb) as (b & a & Hs & Ha).
  exists b, a. split; [exact Hs|]. split; [exact Ha|].
  assert (Hiff : included (List.concat ls) r <-> 0 <= days_ahead today a <= 7).
  { unfold included. rewrite Hnames, (in_filter_names _ _ _ Hnd Hin).
    unfold within_week. rewrite Hb, Hs, Ha.
    rewrite andb_true_iff, Z.leb_le, Z.leb_le. reflexivity. }
  split; [exact Hiff|].
  split; [intros E; apply Hiff; lia|].
  split; [intros E Hi; apply Hiff in Hi; lia|].
  intros t Ht Hd.
  destruct (yesterday_rolls _ _ _ _ Hv Ht Hd Ha) as [Hy Hfar].
  split; [exact Hy|]. split; [exact Hfar|].
  intros Hi. apply Hiff in Hi. lia.
Qed.

Lemma validb_valid dt : validb dt = true -> valid dt.
Proof.
  unfold validb, valid. rewrite !andb_true_iff, !Z.leb_le. tauto.
Qed.

Lemma valid_d20261104 : valid d20261104.
Proof. apply validb_valid. reflexivity. Qed.

Lemma NoDup_book_nov : NoDup (map record_name (dict_values book_nov)).
Proof. repeat constructor; cbn; intuition discriminate. Qed.

Example upcoming_book_nov :
  get_upcoming_birthdays d20261104 book_nov
  = Ok [mkCongratulation "Eve" "11.11.2026"; mkCongratulation "Sam" "09.11.2026"].
Proof. vm_compute. reflexivity. Qed.

Lemma upcoming_iff_within_week_witness :
  map entry_name [mkCongratulation "Eve" "11.11.2026"; mkCongratulation "Sam" "09.11.2026"]
  = map record_name (filter (within_week d20261104) (dict_values book_nov)).
Proof.
  exact (proj1 (upcoming_iff_within_week d20261104 book_nov _
                  valid_d20261104 NoDup_book_nov upcoming_book_nov)).
Defined.

(** C1 as stated, for every record and every today, fails where the
    scheduler returns no list at all: Ann's birthday is today
    ([daysAhead = 0]), yet she is in no output, because the year
    replacement for Bob's 29 February raises. *)
Lemma upcoming_feb29_counterexample :
  In ann_record (dict_values book_feb29)
  /\ birthday ann_record = Some (mkField "01.03.1990")
  /\ strptime "01.03.1990" = Ok (mkdate 1990 3 1)
  /\ anniversary d20230301 (mkdate 1990 3 1) = Ok d20230301
  /\ days_ahead d20230301 d20230301 = 0
  /\ get_upcoming_birthdays d20230301 book_feb29
     = Raise (ValueError "day is out of range for month")
  /\ ~ (exists out, get_upcoming_birthdays d20230301 book_feb29 = Ok out
                    /\ included out ann_record).
Proof.
  split; [left; reflexivity|].
  repeat (split; [vm_compute; reflexivity|]).
  intros (out & H & _). vm_compute in H. discriminate H.
Qed.

(** The year replacement fails for 29 February in a year that is not a
    leap year. *)
Lemma replace_year_feb29 b y :
  MINYEAR <= y <= MAXYEAR -> is_leap y = false -> month b = 2 -> day b = 29 ->
  replace_year b y = Raise (ValueError "day is out of range for month").
Proof.
  intros Hy Hl Hm Hd. unfold replace_year, date_new, days_in_month.
  rewrite Hm, Hd, Hl. unfold MINYEAR, MAXYEAR in *.
  destruct (Z.leb_spec 1 y); [|lia]. destruct (Z.leb_spec y 9999); [|lia].
  reflexivity.
Qed.

(** C10.  If some record's birthday is 29 February and today's year is not
    a leap year, the year replacement for that record raises
    [ValueError], the scheduler raises a [ValueError] and returns no list,
    and the [birthdays] command returns the text of that error. *)
Theorem birthdays_feb29_raises
    (today : date) (book : AddressBook) (args : list string)
    (r : Record_) (bd : Birthday) (b : date) :
  valid today -> is_leap (year today) = false ->
  In r (dict_values book) -> birthday r = Some bd ->
  strptime (value bd) = Ok b -> month b = 2 -> day b = 29 ->
  replace_year b (year today) = Raise (ValueError "day is out of range for month")
  /\ exists msg,
       get_upcoming_birthdays today book = Raise (ValueError msg)
       /\ birthdays today args book = (book, Ok msg)
       /\ main_step today "birthdays" book = Continue msg book.
Proof.
  intros Hv Hl Hin Hb Hs Hm Hd.
  assert (Hrep : replace_year b (year today)
                 = Raise (ValueError "day is out of range for month"))
    by (apply replace_year_feb29; try assumption; apply Hv).
  split; [exact Hrep|].
  assert (Hbad : is_ok (congratulate today r) = false).
  { unfold congratulate, anniversary. rewrite Hb, Hs. cbn [rbind].
    rewrite Hrep. reflexivity. }
  destruct (upcoming_loop_raises today (dict_values book) [] r Hin Hbad)
    as (r' & e & _ & Hc & Hloop).
  destruct (congratulate_raises_ValueError _ _ _ Hc) as [msg ->].
  exists msg. unfold get_upcoming_birthdays.
  assert (Hcmd : birthdays today args book = (book, Ok msg)).
  { unfold birthdays, input_error, birthdays_func, get_upcoming_birthdays.
    rewrite Hloop. reflexivity. }
  split; [exact Hloop|]. split; [exact Hcmd|].
  change (main_step today "birthdays" book)
    with (print_result (birthdays today [] book)).
  unfold birthdays, input_error, birthdays_func, get_upcoming_birthdays.
  rewrite Hloop. reflexivity.
Qed.

Lemma valid_d20230301 : valid d20230301.
Proof. apply validb_valid. reflexivity. Qed.

Lemma birthdays_feb29_raises_witness :
  replace_year (mkdate 2000 2 29) (year d20230301)
  = Raise (ValueError "day is out of range for month")
  /\ exists msg,
       get_upcoming_birthdays d20230301 book_feb29 = Raise (ValueError msg)
       /\ birthdays d20230301 [] book_feb29 = (book_feb29, Ok msg)
       /\ main_step d20230301 "birthdays" book_feb29 = Continue msg book_feb29.
Proof.
  apply (birthdays_feb29_raises d20230301 book_feb29 []
           (mkRecord (mkField "Bob") [] (Some (mkField "29.02.2000")))
           (mkField "29.02.2000") (mkdate 2000 2 29)).
  - exact valid_d20230301.
  - reflexivity.
  - right; left; reflexivity.
  - reflexivity.
  - reflexivity.
  - reflexivity.
  - reflexivity.
Defined.

End SchedulerClaims.

(** ** The date format *)

Section DateFormat.

Lemma code_range_chars lo hi c :
  code lo <= code c <= code hi -> In c (range_chars lo hi).
Proof.
  unfold code, range_chars. intros H.
  apply in_map_iff. exists (N.to_nat (N_of_ascii c)). split.
  - rewrite Nnat.N2Nat.id. apply ascii_N_embedding.
  - apply in_seq. lia.
Qed.

(** A character of a range that ends below 128 is one byte of the
    range. *)
Lemma in_range_ascii lo hi ch :
  code hi < 128 -> in_range lo hi ch = true ->
  exists c, ch = String c "" /\ In c (range_chars lo hi).
Proof.
  unfold in_range. intros Hhi H. apply andb_true_iff in H as [H1 H2].
  apply Z.leb_le in H1, H2. pose proof (code_range lo) as Hlo.
  assert (Hs : scalar (ord ch)) by (unfold scalar; lia).
  apply char_shape in Hs as [(c & -> & Hc & Ho) | (Ho & _)]; [|lia].
  exists c. split; [reflexivity|]. apply code_range_chars. lia.
Qed.

Ltac char_cases H :=
  vm_compute in H;
  repeat (destruct H as [H|H]; [symmetry in H; subst|]); [..|contradiction].

Lemma in_chr p a r s :
  In (a, r) (Re.chr p s) -> next s = Some (a, r) /\ p a = true.
Proof.
  unfold Re.chr. destruct (next s) as [[ch r']|]; [|intros []].
  destruct (p ch) eqn:Hp; [|intros []].
  intros [H|[]]. inversion H; subst. auto.
Qed.

Lemma in_bind {A B} (m : Re.matcher A) (k : A -> Re.matcher B) x s :
  In x (Re.bind m k s) <-> exists a r, In (a, r) (m s) /\ In x (k a r).
Proof.
  unfold Re.bind. rewrite in_flat_map. split.
  - intros ([a r] & H1 & H2). eauto.
  - intros (a & r & H1 & H2). exists (a, r). auto.
Qed.

Lemma in_seq_re m1 m2 a r s :
  In (a, r) (Re.seq m1 m2 s) ->
  exists a1 a2 r1, In (a1, r1) (m1 s) /\ In (a2, r) (m2 r1) /\ a = a1 ++ a2.
Proof.
  unfold Re.seq. rewrite in_bind. intros (a1 & r1 & H1 & H2).
  rewrite in_bind in H2. destruct H2 as (a2 & r2 & H2 & H3).
  destruct H3 as [H3|[]]. inversion H3; subst. eauto 8.
Qed.

Lemma in_lit c a r s :
  In (a, r) (Re.lit c s) -> s = String c r /\ a = String c "".
Proof.
  unfold Re.lit. intros H. apply in_chr in H as [Hn Hc].
  apply String.eqb_eq in Hc. subst a. apply next_spec in Hn as [-> _]. auto.
Qed.

Lemma in_alt {A} (m1 m2 : Re.matcher A) x s :
  In x ((m1 ||| m2) s) -> In x (m1 s) \/ In x (m2 s).
Proof. unfold Re.alt. apply in_app_or. Qed.

Lemma in_rng lo hi a r s :
  code hi < 128 -> In (a, r) (Re.rng lo hi s) ->
  exists c, s = String c r /\ In c (range_chars lo hi) /\ a = String c "".
Proof.
  unfold Re.rng. intros Hhi H. apply in_chr in H as [Hn Hc].
  apply (in_range_ascii lo hi a Hhi) in Hc as (c & -> & Hc).
  apply next_spec in Hn as [-> _]. exists c. cbn [append]. auto.
Qed.

Lemma in_digit a r s :
  In (a, r) (Re.digit s) -> s = a ++ r /\ exists v, decimal a = Some v.
Proof.
  unfold Re.digit. intros H. apply in_chr in H as [Hn Hc].
  apply next_spec in Hn as [-> _]. split; [reflexivity|].
  unfold isdecimal in Hc. destruct (decimal a) as [v|]; [eauto | discriminate].
Qed.

(** Matching a class on a text whose first character is known. *)
Lemma chr_char p ch s :
  scalar (ord ch) -> Re.chr p (ch ++ s) = if p ch then [(ch, s)] else [].
Proof. intros H. unfold Re.chr. now rewrite (next_char ch s H). Qed.

Lemma digit_next ch v s : decimal ch = Some v -> Re.digit (ch ++ s) = [(ch, s)].
Proof.
  intros H. unfold Re.digit. rewrite chr_char by (apply (decimal_facts ch v H)).
  unfold isdecimal. now rewrite H.
Qed.

Lemma seq_digit ch v m s :
  decimal ch = Some v ->
  Re.seq Re.digit m (ch ++ s) = map (fun br => (ch ++ fst br, snd br)) (m s).
Proof.
  intros H. unfold Re.digit. rewrite seq_chr.
  rewrite next_char by (apply (decimal_facts ch v H)).
  unfold isdecimal. now rewrite H.
Qed.

Lemma decimal_neq ch v t : decimal ch = Some v -> decimal t = None -> (t =? ch)%string = false.
Proof.
  intros H Ht. destruct (String.eqb_spec t ch) as [E|E]; [|reflexivity].
  subst. congruence.
Qed.

Lemma decimal_neq_r ch v t :
  decimal ch = Some v -> decimal t = None -> (ch =? t)%string = false.
Proof. intros H Ht. rewrite String.eqb_sym. exact (decimal_neq ch v t H Ht). Qed.

(** [int] on a text of decimal digits. *)
Lemma int_lstrip_id l :
  Forall (fun ch => int_space ch = false) l -> int_lstrip l = l.
Proof. destruct 1 as [|ch l H _]; [reflexivity|]. cbn [int_lstrip]. now rewrite H. Qed.

Lemma int_body_decimals cs vs :
  Forall2 (fun ch v => decimal ch = Some v) cs vs -> cs <> [] -> int_body cs = Some vs.
Proof.
  induction 1 as [|ch v cs vs Hd Hrest IH]; [contradiction|]. intros _.
  cbn [int_body]. rewrite Hd. destruct Hrest as [|u w cs' vs' Hu Hrest'].
  - reflexivity.
  - rewrite (decimal_neq_r u w "_" Hu eq_refl), IH by discriminate. reflexivity.
Qed.

Lemma int_decimals cs vs :
  Forall2 (fun ch v => decimal ch = Some v) cs vs -> cs <> [] ->
  Z.of_nat (List.length cs) <= 4300 ->
  int (text cs) = Ok (fold_left (fun acc v => acc * 10 + v) vs 0).
Proof.
  intros H Hne Hlen.
  assert (Hall : Forall (fun ch => scalar (ord ch) /\ int_space ch = false) cs).
  { clear Hne Hlen. induction H as [|ch v cs vs Hd _ IH]; constructor; [|exact IH].
    destruct (decimal_facts ch v Hd) as (_ & Hs & Hsp).
    split; [exact Hs|]. unfold int_space. now rewrite Hsp. }
  assert (Hs : Forall (fun ch => scalar (ord ch)) cs)
    by (eapply Forall_impl; [|exact Hall]; cbn; tauto).
  assert (Hi : Forall (fun ch => int_space ch = false) cs)
    by (eapply Forall_impl; [|exact Hall]; cbn; tauto).
  unfold int. rewrite (chars_text cs Hs), (int_lstrip_id cs Hi).
  rewrite (int_lstrip_id (rev cs)) by (apply Forall_rev; exact Hi).
  rewrite rev_involutive.
  pose proof (Forall2_length H) as Hl.
  destruct H as [|ch v cs vs Hd Hrest]; [contradiction|].
  rewrite (decimal_neq_r ch v "-" Hd eq_refl), (decimal_neq_r ch v "+" Hd eq_refl).
  rewrite (int_body_decimals (ch :: cs) (v :: vs)) by (try discriminate; now constructor).
  rewrite <- Hl. destruct (Z.ltb_spec 4300 (Z.of_nat (List.length (ch :: cs)))); [lia|].
  now rewrite Z.mul_1_l.
Qed.

Lemma int_two a b va vb :
  decimal a = Some va -> decimal b = Some vb -> int (a ++ b) = Ok (10 * va + vb).
Proof.
  intros Ha Hb.
  pose proof (int_decimals [a; b] [va; vb]) as H. cbn [text fold_left List.length] in H.
  rewrite append_nil_r in H. rewrite H; [f_equal; lia | | discriminate | lia].
  repeat constructor; assumption.
Qed.

Lemma int_four a b c e va vb vc ve :
  decimal a = Some va -> decimal b = Some vb -> decimal c = Some vc ->
  decimal e = Some ve ->
  int (a ++ b ++ c ++ e) = Ok (1000 * va + 100 * vb + 10 * vc + ve).
Proof.
  intros Ha Hb Hc He.
  pose proof (int_decimals [a; b; c; e] [va; vb; vc; ve]) as H.
  cbn [text fold_left List.length] in H.
  rewrite append_nil_r in H. rewrite H; [f_equal; lia | | discriminate | lia].
  repeat constructor; assumption.
Qed.

Lemma form_of_in forms t v : form_of forms t = Some v -> In (t, v) forms.
Proof.
  unfold form_of. destruct (List.find _ forms) as [[t' v']|] eqn:H; [|discriminate].
  intros E; inversion E; subst. apply find_some in H as [Hin Heq].
  apply String.eqb_eq in Heq. cbn in Heq. now subst.
Qed.

Lemma in_Zrange lo n k : lo <= k < lo + Z.of_nat n -> In k (Zrange lo n).
Proof.
  intros H. unfold Zrange. apply in_map_iff. exists (Z.to_nat (k - lo)).
  split; [lia | apply in_seq; lia].
Qed.

Lemma day_texts_in_forms d D :
  1 <= d <= 31 -> In D (day_texts d) -> In (D, d) day_forms.
Proof.
  intros Hd HD. unfold day_forms. apply in_flat_map. exists d.
  split; [apply in_Zrange; lia | exact (in_map (fun D => (D, d)) _ _ HD)].
Qed.

Lemma month_texts_in_forms m M :
  1 <= m <= 12 -> In M (month_texts m) -> In (M, m) month_forms.
Proof.
  intros Hm HM. unfold month_forms. apply in_flat_map. exists m.
  split; [apply in_Zrange; lia | exact (in_map (fun M => (M, m)) _ _ HM)].
Qed.

(** Unfolding one match of a sequence of two classes. *)
Ltac two_chars H :=
  apply in_seq_re in H as (?a1 & ?a2 & ?r1 & ?H1 & ?H2 & ->).

Ltac one_of lo hi H c Hc :=
  apply (in_rng lo hi) in H as (c & -> & Hc & ->); [|vm_compute; reflexivity].

Ltac solve_form :=
  split; [reflexivity | eexists; left; vm_compute; reflexivity].

Lemma re_d_inv D r s :
  In (D, r) (re_d s) ->
  s = D ++ r /\ exists d, form_of day_forms D = Some d \/ unicode_day d D.
Proof.
  unfold re_d. intros H.
  apply in_alt in H as [H|H]; [apply in_alt in H as [H|H];
    [apply in_alt in H as [H|H]; [apply in_alt in H as [H|H]|]|]|].
  - two_chars H. apply in_lit in H1 as [-> ->].
    one_of "0"%char "1"%char H2 c Hc. char_cases Hc; solve_form.
  - two_chars H. one_of "1"%char "2"%char H1 c1 Hc1.
    apply in_digit in H2 as (-> & v & Hv).
    split; [reflexivity|]. exists (10 * digit_val c1 + v). right.
    exists c1, a2. split; [char_cases Hc1; auto|]. split; [reflexivity|].
    rewrite Hv. f_equal. lia.
  - two_chars H. apply in_lit in H1 as [-> ->].
    one_of "1"%char "9"%char H2 c Hc. char_cases Hc; solve_form.
  - one_of "1"%char "9"%char H c Hc. char_cases Hc; solve_form.
  - two_chars H. apply in_lit in H1 as [-> ->].
    one_of "1"%char "9"%char H2 c Hc. char_cases Hc; solve_form.
Qed.

Ltac solve_month :=
  split; [reflexivity | eexists; vm_compute; reflexivity].

Lemma re_m_inv M r s :
  In (M, r) (re_m s) -> s = M ++ r /\ exists m, form_of month_forms M = Some m.
Proof.
  unfold re_m. intros H.
  apply in_alt in H as [H|H]; [apply in_alt in H as [H|H]|].
  - two_chars H. apply in_lit in H1 as [-> ->].
    one_of "0"%char "2"%char H2 c Hc. char_cases Hc; solve_month.
  - two_chars H. apply in_lit in H1 as [-> ->].
    one_of "1"%char "9"%char H2 c Hc. char_cases Hc; solve_month.
  - one_of "1"%char "9"%char H c Hc. char_cases Hc; solve_month.
Qed.

Ltac forall_table :=
  lazymatch goal with
  | |- Forall _ [] => constructor
  | |- Forall _ (_ :: _) => constructor; [cbn [fst snd] | forall_table]
  end.

Ltac table_facts :=
  match goal with
  | |- Forall _ ?t => let v := eval vm_compute in t in change t with v
  end;
  forall_table.

Lemma day_forms_facts :
  Forall (fun f => int (fst f) = Ok (snd f) /\ 1 <= snd f <= 31
                   /\ In (fst f) (day_texts (snd f))) day_forms.
Proof.
  table_facts.
  all: split; [vm_compute; reflexivity | split; [lia | vm_compute; intuition reflexivity]].
Qed.

Lemma month_forms_facts :
  Forall (fun f => int (fst f) = Ok (snd f) /\ 1 <= snd f <= 12
                   /\ In (fst f) (month_texts (snd f))) month_forms.
Proof.
  table_facts.
  all: split; [vm_compute; reflexivity | split; [lia | vm_compute; intuition reflexivity]].
Qed.

Lemma group_dot_day :
  Forall (fun f => forall r, group_dot re_d (fst f ++ "." ++ r) = [(fst f, r)]) day_forms.
Proof. table_facts. all: intros r; vm_compute; reflexivity. Qed.

Lemma group_dot_month :
  Forall (fun f => forall r, group_dot re_m (fst f ++ "." ++ r) = [(fst f, r)]) month_forms.
Proof. table_facts. all: intros r; vm_compute; reflexivity. Qed.

Lemma chr_ascii p c s :
  code c < 128 ->
  Re.chr p (String c s) = if p (String c "") then [(String c "", s)] else [].
Proof. intros H. unfold Re.chr. now rewrite (next_ascii c s H). Qed.

Lemma seq_chr_ascii p m c s :
  code c < 128 ->
  Re.seq (Re.chr p) m (String c s)
  = if p (String c "")
    then map (fun br => (String c "" ++ fst br, snd br)) (m s) else [].
Proof. intros H. now rewrite seq_chr, (next_ascii c s H). Qed.

(** The tests on closed terms, computed. *)
Ltac closed_ifs :=
  repeat match goal with
         | |- context [if ?b then _ else _] =>
             let v := eval vm_compute in b in
             match v with
             | true => change b with true
             | false => change b with false
             end;
             cbv iota
         end.

Ltac ascii_head := rewrite ?seq_chr_ascii, ?chr_ascii by (vm_compute; reflexivity).

(** A day from 10 to 29 with any decimal digit as its second digit: the
    pattern [[1-2]\d] takes both digits, and the pattern [[1-9]], which takes
    the first only, does not reach the dot. *)
Lemma unicode_day_match c ch v r :
  c = "1"%char \/ c = "2"%char -> decimal ch = Some v ->
  group_dot re_d (String c ch ++ "." ++ r) = [(String c ch, r)].
Proof.
  intros Hc Hd.
  destruct (decimal_facts _ _ Hd) as (_ & Hs & _).
  assert (Hdot : ("." =? ch)%string = false) by exact (decimal_neq ch _ "." Hd eq_refl).
  cbn [append]. unfold group_dot, re_d, Re.alt, Re.lit, Re.rng, Re.bind.
  destruct Hc as [-> | ->]; ascii_head; closed_ifs;
    rewrite (digit_next ch _ _ Hd);
    cbn [map fst snd app flat_map append Re.ret];
    ascii_head; closed_ifs; rewrite (chr_char _ ch _ Hs), Hdot; reflexivity.
Qed.

Lemma unicode_day_facts d D :
  unicode_day d D ->
  10 <= d <= 29 /\ int D = Ok d
  /\ forall r, group_dot re_d (D ++ "." ++ r) = [(D, r)].
Proof.
  intros (c & ch & Hc & -> & Hd).
  destruct (decimal_facts _ _ Hd) as (Hv & _ & _).
  split; [|split].
  - destruct Hc as [-> | ->]; [change (digit_val "1") with 1 in Hv
                               | change (digit_val "2") with 2 in Hv]; lia.
  - change (String c ch) with (String c "" ++ ch).
    destruct Hc as [-> | ->].
    + rewrite (int_two "1" ch 1 _ eq_refl Hd). f_equal.
      change (digit_val "1") with 1. lia.
    + rewrite (int_two "2" ch 2 _ eq_refl Hd). f_equal.
      change (digit_val "2") with 2. lia.
  - intros r. exact (unicode_day_match c ch _ r Hc Hd).
Qed.

Lemma day_text_facts d D :
  1 <= d <= 31 -> day_text d D ->
  int D = Ok d /\ forall r, group_dot re_d (D ++ "." ++ r) = [(D, r)].
Proof.
  intros Hd [HD|HD].
  - pose proof (day_texts_in_forms _ _ Hd HD) as HDf.
    pose proof (proj1 (Forall_forall _ _) day_forms_facts _ HDf) as (ID & _ & _).
    pose proof (proj1 (Forall_forall _ _) group_dot_day _ HDf) as GD.
    auto.
  - destruct (unicode_day_facts d D HD) as (_ & ID & GD). auto.
Qed.

Lemma day_value_facts d D :
  form_of day_forms D = Some d \/ unicode_day d D ->
  1 <= d <= 31 /\ day_text d D /\ int D = Ok d.
Proof.
  intros [H|H].
  - apply form_of_in in H.
    pose proof (proj1 (Forall_forall _ _) day_forms_facts _ H) as (ID & Hd & TD).
    cbn [fst snd] in *. split; [exact Hd|]. split; [left; exact TD | exact ID].
  - destruct (unicode_day_facts d D H) as (Hd & ID & _).
    split; [lia|]. split; [right; exact H | exact ID].
Qed.

(** The year: four decimal digits. *)
Lemma year_text_facts y Y :
  year_text y Y ->
  0 <= y <= 9999 /\ int Y = Ok y /\ forall r, re_Y (Y ++ r) = [(Y, r)].
Proof.
  intros (a & b & c & e & Ha & Hb & Hc & He & ->).
  destruct (decimal_facts _ _ Ha) as (Ra & _), (decimal_facts _ _ Hb) as (Rb & _),
    (decimal_facts _ _ Hc) as (Rc & _), (decimal_facts _ _ He) as (Re' & _).
  split; [Z.div_mod_to_equations; lia|]. split.
  - rewrite (int_four a b c e _ _ _ _ Ha Hb Hc He). f_equal.
    Z.div_mod_to_equations. lia.
  - intros r. unfold re_Y. rewrite !append_assoc.
    rewrite (seq_digit a _ _ _ Ha), (seq_digit b _ _ _ Hb), (seq_digit c _ _ _ Hc),
      (digit_next e _ _ He).
    reflexivity.
Qed.

Lemma re_Y_inv Y r s :
  In (Y, r) (re_Y s) -> s = Y ++ r /\ exists y, year_text y Y.
Proof.
  unfold re_Y. intros H.
  apply in_seq_re in H as (a & Y1 & r1 & Ha & H & ->).
  apply in_seq_re in H as (b & Y2 & r2 & Hb & H & ->).
  apply in_seq_re in H as (c & e & r3 & Hc & He & ->).
  apply in_digit in Ha as (-> & va & Ha), Hb as (-> & vb & Hb),
    Hc as (-> & vc & Hc), He as (-> & ve & He).
  split; [now rewrite !append_assoc|].
  destruct (decimal_facts _ _ Ha) as (Ra & _), (decimal_facts _ _ Hb) as (Rb & _),
    (decimal_facts _ _ Hc) as (Rc & _), (decimal_facts _ _ He) as (Re' & _).
  exists (1000 * va + 100 * vb + 10 * vc + ve), a, b, c, e.
  repeat split; try reflexivity.
  - rewrite Ha. f_equal. Z.div_mod_to_equations. lia.
  - rewrite Hb. f_equal. Z.div_mod_to_equations. lia.
  - rewrite Hc. f_equal. Z.div_mod_to_equations. lia.
  - rewrite He. f_equal. Z.div_mod_to_equations. lia.
Qed.

Lemma bind_group_dot {B} g (K : string -> Re.matcher B) s :
  Re.bind g (fun t => Re.bind (Re.lit ".") (fun _ => K t)) s
  = Re.bind (group_dot g) K s.
Proof.
  unfold group_dot, Re.bind. induction (g s) as [|[t r] l IH]; [reflexivity|].
  cbn [flat_map fst snd]. rewrite flat_map_app, IH. f_equal.
  induction (Re.lit "." r) as [|[x r'] l' IH']; [reflexivity|].
  cbn [flat_map fst snd Re.ret app]. now rewrite IH'.
Qed.

Lemma bind_ext {A B} (m : Re.matcher A) (k1 k2 : A -> Re.matcher B) s :
  (forall a r, k1 a r = k2 a r) -> Re.bind m k1 s = Re.bind m k2 s.
Proof. intros H. unfold Re.bind. apply flat_map_ext. intros [a r]. apply H. Qed.

Lemma format_regex_factor s :
  format_regex s
  = Re.bind (group_dot re_d) (fun d =>
    Re.bind (group_dot re_m) (fun m =>
    Re.bind re_Y (fun y => Re.ret (d, m, y)))) s.
Proof.
  unfold format_regex. rewrite bind_group_dot.
  apply bind_ext. intros d r. apply bind_group_dot.
Qed.

Lemma in_group_dot g t r s :
  In (t, r) (group_dot g s) -> In (t, String "." r) (g s).
Proof.
  unfold group_dot. rewrite in_bind. intros (t' & r0 & Hg & H).
  rewrite in_bind in H. destruct H as (x & r1 & Hl & Hr).
  apply in_lit in Hl as [-> ->]. destruct Hr as [Hr|[]].
  inversion Hr; subst. exact Hg.
Qed.

Lemma valid_day_month dt : valid dt -> 1 <= day dt <= 31 /\ 1 <= month dt <= 12.
Proof.
  intros (_ & Hm & Hd). pose proof (days_in_month_bounds (year dt) _ Hm). lia.
Qed.

(** [strptime] accepts exactly the texts of valid dates, and returns the
    date. *)
Lemma strptime_texts s dt : valid dt -> date_texts dt s -> strptime s = Ok dt.
Proof.
  intros Hv (D & M & Y & HD & HM & HY & ->).
  destruct (valid_day_month dt Hv) as [Hd Hm].
  destruct (day_text_facts _ _ Hd HD) as [ID GD].
  pose proof (month_texts_in_forms _ _ Hm HM) as HMf.
  pose proof (proj1 (Forall_forall _ _) month_forms_facts _ HMf) as (IM & _ & _).
  pose proof (proj1 (Forall_forall _ _) group_dot_month _ HMf) as GM.
  cbn [fst snd] in *.
  destruct (year_text_facts _ _ HY) as (_ & IY & TY).
  specialize (TY ""). rewrite append_nil_r in TY.
  unfold strptime, Re.re_match. rewrite format_regex_factor.
  unfold Re.bind at 1. rewrite GD. cbn [flat_map fst snd]. rewrite app_nil_r.
  unfold Re.bind at 1. rewrite GM. cbn [flat_map fst snd]. rewrite app_nil_r.
  unfold Re.bind at 1. rewrite TY. cbn [flat_map fst snd Re.ret app is_empty negb].
  rewrite IY, IM, ID. cbn [rbind].
  apply date_new_ok. destruct dt; auto.
Qed.

Lemma strptime_ok_texts s dt : strptime s = Ok dt -> valid dt /\ date_texts dt s.
Proof.
  unfold strptime, Re.re_match.
  destruct (format_regex s) as [|[[[D M] Y] rest] l] eqn:Hf; [discriminate|].
  assert (Hin : In (D, M, Y, rest) (format_regex s)) by (rewrite Hf; left; reflexivity).
  clear Hf. rewrite format_regex_factor in Hin.
  apply in_bind in Hin as (D' & r1 & HD & Hin).
  apply in_bind in Hin as (M' & r2 & HM & Hin).
  apply in_bind in Hin as (Y' & r3 & HY & Hin).
  destruct Hin as [Hin|[]]. inversion Hin; subst D' M' Y' r3. clear Hin.
  apply in_group_dot, re_d_inv in HD as (-> & d & Fd).
  apply in_group_dot, re_m_inv in HM as (-> & m & Fm).
  apply re_Y_inv in HY as (-> & y & HY).
  apply day_value_facts in Fd as (_ & TD & ID).
  apply form_of_in in Fm.
  pose proof (proj1 (Forall_forall _ _) month_forms_facts _ Fm) as (IM & _ & TM).
  cbn [fst snd] in *.
  destruct (year_text_facts _ _ HY) as (_ & IY & _).
  destruct rest; cbn [is_empty negb]; [|discriminate].
  rewrite IY, IM, ID. cbn [rbind].
  intros H. apply date_new_ok in H as [-> Hv]. split; [exact Hv|].
  exists D, M, Y. cbn [year month day]. rewrite append_nil_r. auto.
Qed.

Lemma strptime_iff s dt : strptime s = Ok dt <-> valid dt /\ date_texts dt s.
Proof.
  split; [apply strptime_ok_texts | intros [Hv Ht]; now apply strptime_texts].
Qed.

Lemma year_text_pad4 y : 0 <= y <= 9999 -> year_text y (pad4 y).
Proof.
  intros Hy. unfold pad4.
  exists (String (digit_char (y / 1000)) ""), (String (digit_char (y / 100 mod 10)) ""),
    (String (digit_char (y / 10 mod 10)) ""), (String (digit_char (y mod 10)) "").
  repeat split; try reflexivity;
    apply decimal_digit_char; Z.div_mod_to_equations; lia.
Qed.

Lemma strict_is_text dt : valid dt -> date_texts dt (DDMMYYYY dt).
Proof.
  intros Hv. exists (pad2 (day dt)), (pad2 (month dt)), (pad4 (year dt)).
  split; [left; left; reflexivity|]. split; [left; reflexivity|].
  split; [|reflexivity]. apply year_text_pad4.
  destruct Hv as [Hy _]. unfold MINYEAR, MAXYEAR in Hy. lia.
Qed.

(** The strict format is read back as the date it writes. *)
Lemma strptime_DDMMYYYY dt : valid dt -> strptime (DDMMYYYY dt) = Ok dt.
Proof. intros Hv. apply strptime_texts; [exact Hv | now apply strict_is_text]. Qed.

Lemma length_DDMMYYYY dt : String.length (DDMMYYYY dt) = 10%nat.
Proof. reflexivity. Qed.

Lemma Birthday_init_cases s :
  (lenient_date_string s /\ Birthday_init s = Ok (mkField s))
  \/ (~ lenient_date_string s
      /\ Birthday_init s = Raise (ValueError "Invalid date format. Use DD.MM.YYYY")).
Proof.
  unfold Birthday_init. destruct (strptime s) as [dt|e] eqn:H.
  - left. apply strptime_iff in H as [Hv Ht]. split; [exists dt; auto | reflexivity].
  - right. split.
    + intros (dt & Hv & Ht). rewrite (strptime_texts s dt Hv Ht) in H. discriminate.
    + destruct (strptime_raises_ValueError _ _ H) as [msg ->]. reflexivity.
Qed.

End DateFormat.

(** C4, as the code has it.  [Birthday(s)], and with it
    [Record.add_birthday(s)], succeeds exactly when [s] is [D.M.YYYY] for a
    valid calendar date with a year from 1 to 9999, where the year has
    exactly four decimal digits, the month two digits or, below 10, one
    digit, and the day two digits or, below 10, one digit that may follow
    one space.  The digits of the month and of the day are 0 to 9, except
    the second digit of a day from 10 to 29, which like the digits of the
    year is what [\d] matches: one of 0 to 9 or a decimal digit of another
    script.  Every strict [DD.MM.YYYY] text of a valid date is among them.
    Any other string raises the validation error
    [ValueError("Invalid date format. Use DD.MM.YYYY")] and leaves the
    record as it was. *)
Theorem Birthday_init_iff_lenient (s : string) :
  (is_ok (Birthday_init s) = true <-> lenient_date_string s)
  /\ (strict_date_string s -> lenient_date_string s)
  /\ (lenient_date_string s ->
      Birthday_init s = Ok (mkField s)
      /\ forall r, add_birthday_m s r = (set_birthday r (Some (mkField s)), Ok tt))
  /\ (~ lenient_date_string s ->
      Birthday_init s = Raise (ValueError "Invalid date format. Use DD.MM.YYYY")
      /\ forall r,
           add_birthday_m s r
           = (r, Raise (ValueError "Invalid date format. Use DD.MM.YYYY"))).
Proof.
  assert (Hstrict : strict_date_string s -> lenient_date_string s).
  { intros (dt & Hv & ->). exists dt. split; [exact Hv | now apply strict_is_text]. }
  unfold add_birthday_m.
  destruct (Birthday_init_cases s) as [[Hl ->] | [Hn ->]]; cbn [is_ok].
  - split; [tauto|]. split; [exact Hstrict|]. split; [auto | intros Hn; contradiction].
  - split; [split; [discriminate | intros Hl; contradiction]|].
    split; [exact Hstrict|]. split; [intros Hl; contradiction | auto].
Qed.

(** C4 as stated fails: ["1.1.2000"] is not in strict [DD.MM.YYYY] format
    (it has 8 characters), and [Birthday] accepts it; so it does
    ["1٣.01.2000"], whose day has an Arabic-Indic digit. *)
Lemma Birthday_init_strict_counterexample :
  Birthday_init "1.1.2000" = Ok (mkField "1.1.2000")
  /\ ~ strict_date_string "1.1.2000"
  /\ Birthday_init "1٣.01.2000" = Ok (mkField "1٣.01.2000")
  /\ ~ strict_date_string "1٣.01.2000".
Proof.
  split; [reflexivity|]. split; [|split; [reflexivity|]].
  - intros (dt & _ & H). apply (f_equal String.length) in H.
    rewrite length_DDMMYYYY in H. discriminate H.
  - intros (dt & _ & H). apply (f_equal String.length) in H.
    rewrite length_DDMMYYYY in H. discriminate H.
Qed.

Example strptime_digits_of_other_scripts :
  strptime "1٣.01.2000" = Ok (mkdate 2000 1 13)
  /\ strptime "01.01.٢٠٠٠" = Ok (mkdate 2000 1 1)
  /\ is_ok (strptime "٠١.01.2000") = false
  /\ is_ok (strptime "01.٠١.2000") = false
  /\ is_ok (strptime "3٠.01.2000") = false.
Proof. repeat split; reflexivity. Qed.

(** ** The reported date *)

Section ReportedDate.

Lemma str_of_int_4_digits y : 1000 <= y <= 9999 -> str_of_int y = pad4 y.
Proof.
  intros Hy. unfold str_of_int. destruct (Z.ltb_spec y 0); [lia|].
  assert (Hlog : 9 <= Z.log2 y)
    by (change 9 with (Z.log2 512); apply Z.log2_le_mono; lia).
  destruct (Z.to_nat (Z.log2 y)) as [|[|[|n]]] eqn:E; try lia.
  cbn [digits_fuel].
  destruct (Z.ltb_spec y 10); [lia|].
  destruct (Z.ltb_spec (y / 10) 10); [Z.div_mod_to_equations; lia|].
  destruct (Z.ltb_spec (y / 10 / 10) 10); [Z.div_mod_to_equations; lia|].
  destruct (Z.ltb_spec (y / 10 / 10 / 10) 10); [|Z.div_mod_to_equations; lia].
  unfold pad4.
  replace (y / 10 / 10 / 10 mod 10) with (y / 1000) by (Z.div_mod_to_equations; lia).
  replace (y / 10 / 10 mod 10) with (y / 100 mod 10) by (Z.div_mod_to_equations; lia).
  reflexivity.
Qed.

Lemma strftime_DDMMYYYY dt : 1000 <= year dt <= 9999 -> strftime dt = DDMMYYYY dt.
Proof. intros H. unfold strftime, DDMMYYYY. now rewrite str_of_int_4_digits. Qed.

Lemma congratulate_entry today r l entry :
  congratulate today r = Ok l -> In entry l ->
  exists bd b a m,
    birthday r = Some bd /\ strptime (value bd) = Ok b /\ anniversary today b = Ok a
    /\ 0 <= days_ahead today a <= 7
    /\ congratulation_day a = Ok m
    /\ entry = mkCongratulation (record_name r) (strftime m).
Proof.
  unfold congratulate.
  destruct (birthday r) as [bd|] eqn:Hb; [|intros H; inversion H; subst; intros []].
  destruct (strptime (value bd)) as [b|] eqn:Hs; [|discriminate]. cbn [rbind].
  destruct (anniversary today b) as [a|] eqn:Ha; [|discriminate]. cbn [rbind].
  destruct (Z.leb_spec 0 (days_ahead today a)) as [Hlo|Hlo];
    [|cbn [andb]; intros H; inversion H; subst; intros []].
  destruct (Z.leb_spec (days_ahead today a) 7) as [Hhi|Hhi];
    [|cbn [andb]; intros H; inversion H; subst; intros []].
  cbn [andb].
  destruct (congratulation_day a) as [m|] eqn:Hm; [|discriminate]. cbn [rbind].
  intros H; inversion H; subst. intros [<-|[]]. exists bd, b, a, m.
  split; [reflexivity|]. split; [assumption|]. split; [assumption|].
  split; [lia|]. split; [assumption | reflexivity].
Qed.

Lemma Forall2_concat_in {A B} (P : A -> list B -> Prop) xs ls y :
  Forall2 P xs ls -> In y (List.concat ls) ->
  exists x l, In x xs /\ P x l /\ In y l.
Proof.
  induction 1 as [|x l xs ls HP _ IH]; [intros []|].
  cbn [List.concat]. intros H. apply in_app_or in H as [H|H].
  - exists x, l. split; [left; reflexivity | auto].
  - destruct (IH H) as (x' & l' & Hin & HP' & Hy). exists x', l'.
    split; [right; assumption | auto].
Qed.

End ReportedDate.

(** C2.  Every entry of the scheduler's output comes from a record of the
    book whose anniversary is 0 to 7 days ahead, and its date is the
    anniversary itself when that falls Monday to Friday, and the following
    Monday (2 days after a Saturday, 1 day after a Sunday) when it falls
    on a weekend.  The date is written by [strftime]; with the year of the
    system clock at 1000 or later that is [DD.MM.YYYY], two digits, two
    digits and four digits, which [strptime] reads back as that day. *)
Theorem congratulation_date_weekend_shift
    (today : date) (book : AddressBook) (out : list Congratulation)
    (entry : Congratulation) :
  get_upcoming_birthdays today book = Ok out ->
  In entry out ->
  exists r bd b a m,
    In r (dict_values book) /\ birthday r = Some bd
    /\ entry_name entry = record_name r
    /\ strptime (value bd) = Ok b /\ anniversary today b = Ok a
    /\ 0 <= days_ahead today a <= 7
    /\ valid m
    /\ congratulation_date entry = strftime m
    /\ (weekday a < 5 -> m = a)
    /\ (5 <= weekday a ->
        weekday m = 0 /\ days_ahead a m = 7 - weekday a /\ 1 <= days_ahead a m <= 2)
    /\ (1000 <= year today ->
        congratulation_date entry = DDMMYYYY m
        /\ String.length (congratulation_date entry) = 10%nat
        /\ strptime (congratulation_date entry) = Ok m).
Proof.
  intros Hout Hin. unfold get_upcoming_birthdays in Hout.
  apply upcoming_loop_ok in Hout as (ls & HF & ->). cbn [app] in Hin.
  destruct (Forall2_concat_in _ _ _ _ HF Hin) as (r & l & Hr & Hc & Hl).
  destruct (congratulate_entry _ _ _ _ Hc Hl)
    as (bd & b & a & m & Hb & Hs & Ha & Hweek7 & Hm & ->).
  destruct (anniversary_valid _ _ _ Ha) as (Hva & _ & _ & Hya).
  destruct (congratulation_day_spec a Hva) as (m' & Hm' & Hvm & Hweek & Hweekend).
  rewrite Hm in Hm'. inversion Hm'; subst m'. clear Hm'.
  pose proof (weekday_range a) as Hw.
  assert (Hord : toordinal a <= toordinal m).
  { destruct (Z.lt_ge_cases (weekday a) 5) as [Hlt|Hge].
    - rewrite (Hweek Hlt). lia.
    - destruct (Hweekend Hge) as [_ Ho]. lia. }
  pose proof (toordinal_year_le a m Hva Hvm Hord) as Hyear.
  exists r, bd, b, a, m. cbn [entry_name congratulation_date].
  do 8 (split; [first [assumption | reflexivity]|]).
  split; [exact Hweek|]. split.
  - intros Hge. destruct (Hweekend Hge) as [Hw0 Ho].
    unfold days_ahead, sub_days. split; [exact Hw0|]. lia.
  - intros Hy.
    assert (Hym : 1000 <= year m <= 9999).
    { destruct Hvm as [Hym _]. unfold MINYEAR, MAXYEAR in Hym. lia. }
    rewrite (strftime_DDMMYYYY m Hym).
    split; [reflexivity|]. split; [apply length_DDMMYYYY | now apply strptime_DDMMYYYY].
Qed.

Lemma congratulation_date_weekend_shift_witness :
  exists r bd b a m,
    In r (dict_values book_nov) /\ birthday r = Some bd
    /\ entry_name (mkCongratulation "Sam" "09.11.2026") = record_name r
    /\ strptime (value bd) = Ok b /\ anniversary d20261104 b = Ok a
    /\ 0 <= days_ahead d20261104 a <= 7
    /\ valid m
    /\ congratulation_date (mkCongratulation "Sam" "09.11.2026") = strftime m
    /\ (weekday a < 5 -> m = a)
    /\ (5 <= weekday a ->
        weekday m = 0 /\ days_ahead a m = 7 - weekday a /\ 1 <= days_ahead a m <= 2)
    /\ (1000 <= year d20261104 ->
        congratulation_date (mkCongratulation "Sam" "09.11.2026") = DDMMYYYY m
        /\ String.length (congratulation_date (mkCongratulation "Sam" "09.11.2026"))
           = 10%nat
        /\ strptime (congratulation_date (mkCongratulation "Sam" "09.11.2026")) = Ok m).
Proof.
  apply (congratulation_date_weekend_shift d20261104 book_nov
           [mkCongratulation "Eve" "11.11.2026"; mkCongratulation "Sam" "09.11.2026"]).
  - vm_compute. reflexivity.
  - right; left; reflexivity.
Defined.

(** ** Records *)

Section Records.

Lemma edit_phone_loop_map old_phone new_phone ps found :
  edit_phone_loop old_phone new_phone ps found
  = (map (replace_phone old_phone new_phone) ps,
     found || existsb (fun p => (value p =? old_phone)%string) ps).
Proof.
  revert found; induction ps as [|p ps IH]; intros found; cbn [edit_phone_loop map existsb].
  - now rewrite orb_false_r.
  - unfold replace_phone at 1. destruct (value p =? old_phone)%string; rewrite IH; cbn [orb].
    + now rewrite orb_true_r.
    + reflexivity.
Qed.

Lemma existsb_value_in old_phone ps :
  existsb (fun p => (value p =? old_phone)%string) ps = true
  <-> In old_phone (map value ps).
Proof.
  rewrite existsb_exists, in_map_iff. split.
  - intros (p & Hin & E). apply String.eqb_eq in E. eauto.
  - intros (p & E & Hin). exists p. split; [assumption | now apply String.eqb_eq].
Qed.

Lemma map_replace_absent old_phone new_phone ps :
  ~ In old_phone (map value ps) -> map (replace_phone old_phone new_phone) ps = ps.
Proof.
  induction ps as [|p ps IH]; [reflexivity|]. cbn [map In]. intros H.
  unfold replace_phone at 1. destruct (String.eqb_spec (value p) old_phone) as [E|E].
  - exfalso. apply H. left. exact E.
  - f_equal. apply IH. intros Hin. apply H. right. exact Hin.
Qed.

Lemma set_phones_same r : set_phones r (phones r) = r.
Proof. destruct r; reflexivity. Qed.

Lemma find_phone_replaced old_phone new_phone ps :
  In old_phone (map value ps) ->
  List.find (fun p => (value p =? new_phone)%string)
            (map (replace_phone old_phone new_phone) ps)
  <> None.
Proof.
  induction ps as [|p ps IH]; [intros []|]. cbn [map In List.find]. intros H.
  unfold replace_phone at 1 2.
  destruct (String.eqb_spec (value p) old_phone) as [E|E].
  - cbn [value]. rewrite String.eqb_refl. discriminate.
  - destruct (value p =? new_phone)%string; [discriminate|].
    apply IH. destruct H as [H|H]; [contradiction | exact H].
Qed.

End Records.

(** C5, as the code has it.  [edit_phone(old, new)] raises the
    validation error if [new] is not exactly 10 decimal digits, a digit
    being what [\d] matches in a [str] (one of 0 to 9 or a decimal digit of
    another script); otherwise it raises the not-found error if no phone
    of the record equals [old]; in both cases the record is left as it
    was.  Otherwise every phone equal to [old] becomes [new], every other
    phone stays, and [find_phone(new)] then finds [new].  Every string of
    exactly 10 of the digits 0 to 9 passes the first test. *)
Theorem edit_phone_cases (r : Record_) (old_phone new_phone : string) :
  (~ ten_digits new_phone ->
   edit_phone old_phone new_phone r = (r, Raise (ValueError "Phone must be 10 digits."))
   /\ raises_kind (snd (edit_phone old_phone new_phone r)) ValidationError)
  /\ (ten_digits new_phone -> ~ In old_phone (map value (phones r)) ->
      edit_phone old_phone new_phone r = (r, Raise (ValueError "Phone not found."))
      /\ raises_kind (snd (edit_phone old_phone new_phone r)) NotFoundError)
  /\ (ten_digits new_phone -> In old_phone (map value (phones r)) ->
      edit_phone old_phone new_phone r
      = (set_phones r (map (replace_phone old_phone new_phone) (phones r)), Ok tt)
      /\ find_phone new_phone (fst (edit_phone old_phone new_phone r))
         = Some (mkField new_phone))
  /\ (ten_ascii_digits new_phone -> ten_digits new_phone).
Proof.
  split; [|split; [|split; [|apply ascii_digits_decimal]]].
  - intros Hn. unfold edit_phone, raises_kind.
    destruct (fullmatch_phone new_phone) as [[Ht _] | [_ ->]]; [contradiction|].
    cbn [snd]. split; [reflexivity|]. eexists. split; reflexivity.
  - intros Ht Hnot. unfold edit_phone, raises_kind. rewrite edit_phone_loop_map.
    destruct (fullmatch_phone new_phone) as [[_ ->] | [Hn _]]; [|contradiction].
    cbn [orb].
    destruct (existsb (fun p : Field => (value p =? old_phone)%string) (phones r))
      eqn:Hex; [apply existsb_value_in in Hex; contradiction|].
    cbn [negb snd]. rewrite (map_replace_absent _ _ _ Hnot), set_phones_same.
    split; [reflexivity|]. eexists. split; reflexivity.
  - intros Ht Hin. unfold edit_phone. rewrite edit_phone_loop_map.
    destruct (fullmatch_phone new_phone) as [[_ ->] | [Hn _]]; [|contradiction].
    cbn [orb]. pose proof Hin as Hex. apply existsb_value_in in Hex. rewrite Hex.
    cbn [negb fst]. split; [reflexivity|].
    unfold find_phone. cbn [phones set_phones].
    pose proof (find_phone_replaced old_phone new_phone (phones r) Hin) as Hf.
    destruct (List.find _ _) as [[v]|] eqn:E; [|contradiction].
    apply find_some in E as [_ E]. apply String.eqb_eq in E. cbn in E. now subst.
Qed.

(** C5 as stated, with the digits 0 to 9, fails: [edit_phone] takes ten
    Arabic-Indic digits as the new phone. *)
Lemma edit_phone_arabic_counterexample :
  ~ ten_ascii_digits arabic_digits
  /\ edit_phone "1112223333" arabic_digits john_record
     = (mkRecord (mkField "John") [mkField arabic_digits] (Some (mkField "01.03.1990")),
        Ok tt).
Proof.
  split; [intros [Hl _]; discriminate Hl | reflexivity].
Qed.

Example edit_phone_found :
  edit_phone "1112223333" "4445556666" john_record
  = (mkRecord (mkField "John") [mkField "4445556666"] (Some (mkField "01.03.1990")),
     Ok tt)
  /\ find_phone "4445556666" (fst (edit_phone "1112223333" "4445556666" john_record))
     = Some (mkField "4445556666").
Proof. split; reflexivity. Qed.

Example edit_phone_not_found :
  edit_phone "9998887777" "4445556666" john_record
  = (john_record, Raise (ValueError "Phone not found.")).
Proof. reflexivity. Qed.

(** ** The dict of the book *)

Section Dict.

Context {V : Type}.

Lemma dict_get_set_same k (v : V) d : dict_get k (dict_set k v d) = Some v.
Proof.
  induction d as [|[k' v'] d IH]; cbn [dict_set dict_get].
  - now rewrite String.eqb_refl.
  - destruct (String.eqb_spec k' k) as [E|E]; cbn [dict_get].
    + subst. now rewrite String.eqb_refl.
    + destruct (String.eqb_spec k' k); [contradiction | exact IH].
Qed.

Lemma dict_get_set_other k k0 (v : V) d :
  k0 <> k -> dict_get k0 (dict_set k v d) = dict_get k0 d.
Proof.
  intros Hne. induction d as [|[k' v'] d IH]; cbn [dict_set dict_get].
  - destruct (String.eqb_spec k k0); [congruence | reflexivity].
  - destruct (String.eqb_spec k' k) as [E|E]; cbn [dict_get].
    + subst. destruct (String.eqb_spec k k0); [congruence | reflexivity].
    + now rewrite IH.
Qed.

Lemma dict_set_same k (v : V) d : dict_get k d = Some v -> dict_set k v d = d.
Proof.
  induction d as [|[k' v'] d IH]; cbn [dict_set dict_get]; [discriminate|].
  destruct (String.eqb_spec k' k) as [E|E].
  - intros H; inversion H; reflexivity.
  - intros H. now rewrite IH.
Qed.

Lemma dict_set_twice k (v v0 : V) d : dict_set k v (dict_set k v0 d) = dict_set k v d.
Proof.
  induction d as [|[k' v'] d IH]; cbn [dict_set].
  - now rewrite String.eqb_refl.
  - destruct (String.eqb_spec k' k) as [E|E]; cbn [dict_set].
    + subst. now rewrite String.eqb_refl.
    + destruct (String.eqb_spec k' k); [contradiction | now rewrite IH].
Qed.

Lemma dict_keys_set k (v v0 : V) d :
  dict_get k d = Some v0 -> dict_keys (dict_set k v d) = dict_keys d.
Proof.
  unfold dict_keys.
  induction d as [|[k' v'] d IH]; cbn [dict_set dict_get map]; [discriminate|].
  destruct (String.eqb_spec k' k) as [E|E]; [reflexivity|].
  intros H. cbn [map fst]. now rewrite IH.
Qed.

Lemma dict_get_in k (v : V) d : dict_get k d = Some v -> In v (dict_values d).
Proof.
  unfold dict_values.
  induction d as [|[k' v'] d IH]; cbn [dict_get map]; [discriminate|].
  destruct (k' =? k)%string.
  - intros H; inversion H; subst. left; reflexivity.
  - intros H. right. auto.
Qed.

Lemma Forall_dict_set (P : V -> Prop) k v d :
  Forall P (dict_values d) -> P v -> Forall P (dict_values (dict_set k v d)).
Proof.
  unfold dict_values. intros Hd Hv.
  induction d as [|[k' v'] d IH]; cbn [dict_set map snd].
  - constructor; [exact Hv | constructor].
  - cbn [map snd] in Hd. inversion Hd; subst.
    destruct (k' =? k)%string; cbn [map snd]; constructor; auto.
Qed.

Lemma Forall_dict_del (P : V -> Prop) k d :
  Forall P (dict_values d) -> Forall P (dict_values (dict_del k d)).
Proof.
  unfold dict_values. intros Hd.
  induction d as [|[k' v'] d IH]; cbn [dict_del map snd]; [constructor|].
  cbn [map snd] in Hd. inversion Hd; subst.
  destruct (k' =? k)%string; cbn [map snd]; [assumption | constructor; auto].
Qed.

End Dict.

(** ** The command [add] on a name the book has *)

Section AddCommand.

Lemma main_step_add today line args book :
  parse_input line = "add" :: args ->
  main_step today line book = print_result (add_contact args book).
Proof. unfold main_step. intros ->. reflexivity. Qed.

Lemma list_len_two {A} (a b : A) l : (list_len (a :: b :: l) <? 2) = false.
Proof. unfold list_len. cbn [List.length]. apply Z.ltb_ge. lia. Qed.

Lemma add_phone_valid p r :
  ten_digits p -> add_phone p r = (set_phones r (phones r ++ [mkField p]), Ok tt).
Proof.
  intros Hp. unfold add_phone, Phone_init.
  destruct (fullmatch_phone p) as [[_ ->] | [Hn _]]; [reflexivity | contradiction].
Qed.

End AddCommand.

(** C6.  When the book has a record named [n] with the phones [ps], the
    command [add n p] with a 10-digit [p] leaves the record under [n] with
    the phones [ps ++ [p]], whether or not [p] is among [ps], and with its
    name and birthday as they were; every other entry and the order of the
    book stay. *)
Theorem add_existing_contact_appends
    (today : date) (line : string) (book : AddressBook)
    (n p : string) (rest : list string) (r : Record_) :
  parse_input line = "add" :: n :: p :: rest ->
  find n book = Some r -> record_name r = n -> ten_digits p ->
  exists book',
    main_step today line book = Continue "Contact added/updated." book'
    /\ add_contact (n :: p :: rest) book = (book', Ok "Contact added/updated.")
    /\ find n book' = Some (mkRecord (name r) (phones r ++ [mkField p]) (birthday r))
    /\ (forall k, k <> n -> find k book' = find k book)
    /\ dict_keys book' = dict_keys book.
Proof.
  intros Hline Hfind Hname Hp.
  exists (dict_set n (set_phones r (phones r ++ [mkField p])) book).
  assert (Hadd : add_contact (n :: p :: rest) book
                 = (dict_set n (set_phones r (phones r ++ [mkField p])) book,
                    Ok "Contact added/updated.")).
  { unfold add_contact, input_error, add_contact_func.
    rewrite list_len_two, Hfind. unfold call_on. rewrite (add_phone_valid p r Hp).
    unfold add_record. cbn [name set_phones value].
    unfold record_name in Hname. rewrite Hname, dict_set_twice. reflexivity. }
  split; [rewrite (main_step_add today line _ book Hline), Hadd; reflexivity|].
  split; [exact Hadd|].
  split; [apply dict_get_set_same|].
  split; [intros k Hk; now apply dict_get_set_other|].
  exact (dict_keys_set n _ r book Hfind).
Qed.

Lemma add_existing_contact_appends_witness :
  exists book',
    main_step d20261104 "add John 1112223333" book_john
    = Continue "Contact added/updated." book'
    /\ add_contact ["John"; "1112223333"] book_john = (book', Ok "Contact added/updated.")
    /\ find "John" book'
       = Some (mkRecord (name john_record)
                        (phones john_record ++ [mkField "1112223333"])
                        (birthday john_record))
    /\ (forall k, k <> "John" -> find k book' = find k book_john)
    /\ dict_keys book' = dict_keys book_john.
Proof.
  apply (add_existing_contact_appends d20261104 "add John 1112223333" book_john
           "John" "1112223333" [] john_record).
  - reflexivity.
  - reflexivity.
  - reflexivity.
  - split; reflexivity.
Defined.

(** C9.  On a record that has a birthday, [add_birthday] with a text
    [Birthday] accepts puts the new birthday in the place of the old one,
    and name and phones stay; with a text [Birthday] rejects it raises the
    validation error and the old birthday stays.  The [add-birthday]
    command does the same to the record stored under the name.  The
    texts [Birthday] accepts are those of [lenient_date_string], and
    every strict [DD.MM.YYYY] text of a valid date is one. *)
Theorem add_birthday_last_write_wins
    (r : Record_) (old : Birthday) (s : string) (n : string) (book : AddressBook) :
  birthday r = Some old ->
  find n book = Some r ->
  (is_ok (Birthday_init s) = true ->
   add_birthday_m s r = (mkRecord (name r) (phones r) (Some (mkField s)), Ok tt)
   /\ add_birthday [n; s] book
      = (dict_set n (mkRecord (name r) (phones r) (Some (mkField s))) book,
         Ok "Birthday added."))
  /\ (is_ok (Birthday_init s) = false ->
      add_birthday_m s r = (r, Raise (ValueError "Invalid date format. Use DD.MM.YYYY"))
      /\ birthday (fst (add_birthday_m s r)) = Some old
      /\ add_birthday [n; s] book = (book, Ok "Invalid date format. Use DD.MM.YYYY"))
  /\ (is_ok (Birthday_init s) = true <-> lenient_date_string s)
  /\ (strict_date_string s -> lenient_date_string s).
Proof.
  intros Hold Hfind.
  assert (Hstrict : strict_date_string s -> lenient_date_string s)
    by (intros (dt & Hv & ->); exists dt; split; [exact Hv | now apply strict_is_text]).
  unfold add_birthday, input_error, add_birthday_func, call_on. rewrite Hfind.
  unfold add_birthday_m.
  destruct (Birthday_init_cases s) as [[Hl ->] | [Hn ->]]; cbn [fst is_ok].
  - split; [intros _; split; reflexivity|]. split; [discriminate|].
    split; [tauto | exact Hstrict].
  - split; [discriminate|]. split.
    + intros _. rewrite (dict_set_same n r book Hfind). auto.
    + split; [|exact Hstrict]. split; [discriminate | intros Hl; contradiction].
Qed.

Lemma add_birthday_last_write_wins_witness :
  (is_ok (Birthday_init "02.03.1991") = true ->
   add_birthday_m "02.03.1991" john_record
   = (mkRecord (name john_record) (phones john_record) (Some (mkField "02.03.1991")),
      Ok tt)
   /\ add_birthday ["John"; "02.03.1991"] book_john
      = (dict_set "John"
           (mkRecord (name john_record) (phones john_record)
                     (Some (mkField "02.03.1991"))) book_john,
         Ok "Birthday added."))
  /\ (is_ok (Birthday_init "02.03.1991") = false ->
      add_birthday_m "02.03.1991" john_record
      = (john_record, Raise (ValueError "Invalid date format. Use DD.MM.YYYY"))
      /\ birthday (fst (add_birthday_m "02.03.1991" john_record))
         = Some (mkField "01.03.1990")
      /\ add_birthday ["John"; "02.03.1991"] book_john
         = (book_john, Ok "Invalid date format. Use DD.MM.YYYY"))
  /\ (is_ok (Birthday_init "02.03.1991") = true <-> lenient_date_string "02.03.1991")
  /\ (strict_date_string "02.03.1991" -> lenient_date_string "02.03.1991").
Proof.
  apply (add_birthday_last_write_wins john_record (mkField "01.03.1990")
           "02.03.1991" "John" book_john).
  - reflexivity.
  - reflexivity.
Defined.

Example add_birthday_replaces_run :
  add_birthday_m "02.03.1991" john_record
  = (mkRecord (mkField "John") [mkField "1112223333"] (Some (mkField "02.03.1991")),
     Ok tt)
  /\ add_birthday_m "31.02.1991" john_record
     = (john_record, Raise (ValueError "Invalid date format. Use DD.MM.YYYY")).
Proof. split; reflexivity. Qed.

(** ** The invariant of the phones *)

Section PhonesInvariant.

Lemma method_keeps_phones_valid m r :
  record_method m -> phones_valid r -> phones_valid (fst (m r)).
Proof.
  unfold phones_valid. intros Hm Hr. destruct Hm as [p | p | o n | b].
  - unfold add_phone, Phone_init.
    destruct (fullmatch_phone p) as [[Hp ->] | [_ ->]]; cbn [fst]; [|exact Hr].
    cbn [phones set_phones]. apply Forall_app. split; [exact Hr|].
    constructor; [exact Hp | constructor].
  - cbn [remove_phone fst phones set_phones].
    apply Forall_forall. intros x Hx. apply filter_In in Hx as [Hx _].
    exact (proj1 (Forall_forall _ _) Hr x Hx).
  - unfold edit_phone. rewrite edit_phone_loop_map.
    destruct (fullmatch_phone n) as [[Hn ->] | [_ ->]]; cbv beta iota; [|exact Hr].
    assert (Hmap : Forall (fun p => ten_digits (value p))
                          (map (replace_phone o n) (phones r))).
    { apply Forall_forall. intros x Hx. apply in_map_iff in Hx as (p & <- & Hp).
      unfold replace_phone. destruct (value p =? o)%string; [exact Hn|].
      exact (proj1 (Forall_forall _ _) Hr p Hp). }
    destruct (negb _); exact Hmap.
  - unfold add_birthday_m. destruct (Birthday_init b); exact Hr.
Qed.

Lemma built_phones_valid r : built r -> phones_valid r.
Proof.
  induction 1 as [n | m r _ IH Hm]; [constructor|].
  now apply method_keeps_phones_valid.
Qed.

Lemma find_phones_valid n r book :
  book_phones_valid book -> find n book = Some r -> phones_valid r.
Proof.
  intros Hb Hf. apply dict_get_in in Hf.
  exact (proj1 (Forall_forall _ _) Hb r Hf).
Qed.

Lemma call_on_eq {A} n r (m : method A) book :
  call_on n r m book = (dict_set n (fst (m r)) book, fst (m r), snd (m r)).
Proof. unfold call_on. destruct (m r); reflexivity. Qed.

Lemma add_record_keeps r book :
  book_phones_valid book -> phones_valid r -> book_phones_valid (add_record r book).
Proof. intros Hb Hr. now apply Forall_dict_set. Qed.

Lemma input_error_book f book : fst (input_error f book) = fst (f book).
Proof. unfold input_error. destruct (f book); reflexivity. Qed.

Lemma add_contact_keeps args book :
  book_phones_valid book -> book_phones_valid (fst (add_contact args book)).
Proof.
  intros Hb. unfold add_contact. rewrite input_error_book. unfold add_contact_func.
  destruct (list_len args <? 2); [exact Hb|].
  destruct args as [|n [|p rest]]; try exact Hb.
  destruct (find n book) as [r|] eqn:Hf.
  - rewrite call_on_eq.
    pose proof (find_phones_valid _ _ _ Hb Hf) as Hr.
    pose proof (method_keeps_phones_valid _ r (call_add_phone p) Hr) as Hr'.
    assert (Hb' : book_phones_valid (dict_set n (fst (add_phone p r)) book))
      by now apply Forall_dict_set.
    destruct (snd (add_phone p r)); cbn [fst]; [|exact Hb'].
    now apply add_record_keeps.
  - pose proof (method_keeps_phones_valid _ (Record_init n) (call_add_phone p)
                  (built_phones_valid _ (built_init n))) as Hr'.
    destruct (add_phone p (Record_init n)) as [r' res]. cbn [fst] in Hr'.
    destruct res; cbn [fst]; [|exact Hb].
    now apply add_record_keeps.
Qed.

Lemma change_contact_keeps args book :
  book_phones_valid book -> book_phones_valid (fst (change_contact args book)).
Proof.
  intros Hb. unfold change_contact. rewrite input_error_book. unfold change_contact_func.
  destruct args as [|n [|o [|p [|x rest]]]]; try exact Hb.
  destruct (find n book) as [r|] eqn:Hf; [|exact Hb].
  rewrite call_on_eq.
  pose proof (find_phones_valid _ _ _ Hb Hf) as Hr.
  pose proof (method_keeps_phones_valid _ r (call_edit_phone o p) Hr) as Hr'.
  assert (Hb' : book_phones_valid (dict_set n (fst (edit_phone o p r)) book))
    by now apply Forall_dict_set.
  destruct (snd (edit_phone o p r)); exact Hb'.
Qed.

Lemma add_birthday_keeps args book :
  book_phones_valid book -> book_phones_valid (fst (add_birthday args book)).
Proof.
  intros Hb. unfold add_birthday. rewrite input_error_book. unfold add_birthday_func.
  destruct args as [|n [|b [|x rest]]]; try exact Hb.
  destruct (find n book) as [r|] eqn:Hf; [|exact Hb].
  rewrite call_on_eq.
  pose proof (find_phones_valid _ _ _ Hb Hf) as Hr.
  pose proof (method_keeps_phones_valid _ r (call_add_birthday b) Hr) as Hr'.
  assert (Hb' : book_phones_valid (dict_set n (fst (add_birthday_m b r)) book))
    by now apply Forall_dict_set.
  destruct (snd (add_birthday_m b r)); exact Hb'.
Qed.

Lemma show_phone_book args book : fst (show_phone args book) = book.
Proof.
  unfold show_phone. rewrite input_error_book. unfold show_phone_func.
  destruct args; [reflexivity|]. destruct (find s book); reflexivity.
Qed.

Lemma show_all_book book : fst (show_all book) = book.
Proof.
  unfold show_all. rewrite input_error_book. unfold show_all_func.
  destruct book; reflexivity.
Qed.

Lemma show_birthday_book args book : fst (show_birthday args book) = book.
Proof.
  unfold show_birthday. rewrite input_error_book. unfold show_birthday_func.
  destruct args; [reflexivity|]. destruct (find s book) as [r|]; [|reflexivity].
  destruct (birthday r); reflexivity.
Qed.

Lemma birthdays_book today args book : fst (birthdays today args book) = book.
Proof.
  unfold birthdays. rewrite input_error_book. unfold birthdays_func.
  destruct (get_upcoming_birthdays today book) as [[|]|]; reflexivity.
Qed.

Lemma print_result_continue h out book' :
  print_result h = Continue out book' -> fst h = book'.
Proof.
  destruct h as [b [s|e]]; cbn; intros H; inversion H; reflexivity.
Qed.

Lemma main_step_keeps today line book out book' :
  main_step today line book = Continue out book' ->
  book_phones_valid book -> book_phones_valid book'.
Proof.
  unfold main_step. destruct (parse_input line) as [|command args]; [discriminate|].
  intros H Hb.
  repeat match type of H with
         | (if ?b then _ else _) = _ => destruct b
         end;
    try discriminate;
    try (inversion H; subst; exact Hb);
    apply print_result_continue in H; subst book'.
  - now apply add_contact_keeps.
  - now apply change_contact_keeps.
  - now rewrite show_phone_book.
  - now rewrite show_all_book.
  - now apply add_birthday_keeps.
  - now rewrite show_birthday_book.
  - now rewrite birthdays_book.
Qed.

End PhonesInvariant.

(** C8, as the code has it.  In every reachable state of the book, every
    phone of every record is a string of exactly 10 decimal digits, a
    digit being what [\d] matches in a [str]: one of 0 to 9 or a decimal
    digit of another script. *)
Theorem reachable_phones_valid (book : AddressBook) :
  reachable book -> book_phones_valid book.
Proof.
  induction 1 as [ | today line out book book' _ IH Hstep
                   | r book _ IH Hr | n book _ IH | n r m book _ IH Hf Hm ].
  - constructor.
  - exact (main_step_keeps _ _ _ _ _ Hstep IH).
  - apply add_record_keeps; [exact IH | now apply built_phones_valid].
  - now apply Forall_dict_del.
  - apply Forall_dict_set; [exact IH|].
    apply method_keeps_phones_valid; [exact Hm|].
    exact (find_phones_valid _ _ _ IH Hf).
Qed.

Lemma reachable_book_john : reachable book_john.
Proof.
  apply (reach_method "John" (mkRecord (mkField "John") [mkField "1112223333"] None)
           (add_birthday_m "01.03.1990")
           [("John", mkRecord (mkField "John") [mkField "1112223333"] None)]).
  - apply (reach_main_step d20261104 "add John 1112223333" "Contact added/updated." []).
    + apply reach_empty.
    + reflexivity.
  - reflexivity.
  - constructor.
Qed.

Lemma reachable_phones_valid_witness : book_phones_valid book_john.
Proof. exact (reachable_phones_valid book_john reachable_book_john). Defined.

(** C8 as stated, with the digits 0 to 9, fails: the command [add] stores
    a phone of ten Arabic-Indic digits. *)
Lemma reachable_arabic_phone_counterexample :
  main_step d20261104 "add John ١٢٣٤٥٦٧٨٩٠" [] = Continue "Contact added/updated." book_arabic
  /\ reachable book_arabic
  /\ ~ Forall (fun r => Forall (fun p => ten_ascii_digits (value p)) (phones r))
              (dict_values book_arabic).
Proof.
  split; [reflexivity|]. split.
  - apply (reach_main_step d20261104 "add John ١٢٣٤٥٦٧٨٩٠" "Contact added/updated." []).
    + apply reach_empty.
    + reflexivity.
  - intros H. apply Forall_inv in H. cbn [phones book_arabic] in H.
    apply Forall_inv in H. destruct H as [Hl _]. discriminate Hl.
Qed.

(** ** The dispatch boundary *)

Section Dispatch.

Lemma lstrip_chars_split l :
  exists ws, l = (ws ++ lstrip_chars l)%list /\ forallb isspace ws = true.
Proof.
  induction l as [|ch l (ws & E & Hws)]; [exists []; auto|].
  cbn [lstrip_chars]. destruct (isspace ch) eqn:Hc.
  - exists (ch :: ws). cbn [app forallb]. rewrite Hc, Hws. split; [now f_equal | reflexivity].
  - exists []. auto.
Qed.

Lemma rstrip_chars_split l :
  exists ws, l = (rstrip_chars l ++ ws)%list /\ forallb isspace ws = true.
Proof.
  unfold rstrip_chars. destruct (lstrip_chars_split (rev l)) as (ws & E & Hws).
  exists (rev ws). split.
  - rewrite <- rev_app_distr, <- E. symmetry. apply rev_involutive.
  - rewrite forallb_forall in *. intros x Hx. apply Hws. now apply in_rev.
Qed.

Lemma spaces_boundary ws : forallb isspace ws = true -> boundary (text ws) = true.
Proof.
  destruct ws as [|ch ws]; [reflexivity|]. cbn [forallb text]. intros H.
  apply andb_true_iff in H as [H _]. apply char_boundary. now apply isspace_scalar.
Qed.

Lemma chars_strip s : chars (strip s) = rstrip_chars (lstrip_chars (chars s)).
Proof.
  unfold strip.
  destruct (lstrip_chars_split (chars s)) as (ws1 & E1 & H1).
  destruct (rstrip_chars_split (lstrip_chars (chars s))) as (ws2 & E2 & H2).
  apply (chars_infix s ws1 _ ws2); [|now apply spaces_boundary].
  now rewrite <- E2.
Qed.

Lemma split_from_nil cs : forall w,
  split_from cs w = [] <-> w = [] /\ forallb isspace cs = true.
Proof.
  induction cs as [|ch cs IH]; intros w; cbn [split_from forallb].
  - destruct w; split; try tauto; try discriminate. intros [E _]; discriminate E.
  - destruct (isspace ch); cbn [andb].
    + destruct w.
      * rewrite IH. tauto.
      * split; [discriminate | intros [E _]; discriminate E].
    + rewrite IH. split; [|intros [_ E]; discriminate E].
      intros [E _]. destruct w; discriminate E.
Qed.

Lemma strip_chars_blank l :
  forallb isspace (rstrip_chars (lstrip_chars l)) = forallb isspace l.
Proof.
  destruct (lstrip_chars_split l) as (ws1 & E1 & H1).
  destruct (rstrip_chars_split (lstrip_chars l)) as (ws2 & E2 & H2).
  rewrite E1 at 2. rewrite E2 at 2.
  rewrite !forallb_app, H1, H2, andb_true_r. reflexivity.
Qed.

Lemma parse_input_nil line : parse_input line = [] <-> blank line.
Proof.
  unfold parse_input, PyStr.split, blank. rewrite chars_strip.
  rewrite <- strip_chars_blank. split.
  - intros H. apply map_eq_nil in H. now apply split_from_nil in H.
  - intros H. rewrite (proj2 (split_from_nil _ [])); auto.
Qed.

Lemma upcoming_loop_raises_ValueError today rs : forall acc e,
  upcoming_loop today rs acc = Raise e -> is_ValueError e.
Proof.
  induction rs as [|r rs IH]; intros acc e; [discriminate|].
  rewrite upcoming_loop_cons.
  destruct (congratulate today r) as [l|e0] eqn:Hc; cbn [rbind].
  - apply IH.
  - intros H; inversion H; subst. exact (congratulate_raises_ValueError _ _ _ Hc).
Qed.

Lemma input_error_ok f book :
  (forall e, snd (f book) = Raise e -> caught e) ->
  exists s, snd (input_error f book) = Ok s.
Proof.
  unfold input_error. destruct (f book) as [b [s|e]]; cbn [snd]; intros H; [eauto|].
  specialize (H e eq_refl). destruct e; cbn in H; [eauto | eauto | eauto | destruct H].
Qed.

Lemma Phone_init_raises p e : Phone_init p = Raise e -> caught e.
Proof.
  unfold Phone_init. destruct (Re.fullmatch phone_pattern p); [discriminate|].
  intros H; inversion H; exact I.
Qed.

Lemma add_contact_caught args book e :
  snd (add_contact_func args book) = Raise e -> caught e.
Proof.
  unfold add_contact_func.
  destruct (list_len args <? 2); [intros H; inversion H; exact I|].
  destruct args as [|n [|p rest]]; try (intros H; inversion H; exact I).
  unfold call_on, add_phone.
  destruct (find n book) as [r|]; destruct (Phone_init p) as [ph|e0] eqn:Hp; cbn [snd];
    try discriminate; intros H; inversion H; subst; exact (Phone_init_raises _ _ Hp).
Qed.

Lemma change_contact_caught args book e :
  snd (change_contact_func args book) = Raise e -> caught e.
Proof.
  unfold change_contact_func.
  destruct args as [|n [|o [|p [|x rest]]]]; try (intros H; inversion H; exact I).
  destruct (find n book) as [r|]; [|intros H; inversion H; exact I].
  unfold call_on, edit_phone. rewrite edit_phone_loop_map.
  destruct (Re.fullmatch phone_pattern p); cbv beta iota;
    [destruct (negb _)|]; cbn [snd]; try discriminate; intros H; inversion H; exact I.
Qed.

Lemma show_phone_caught args book e :
  snd (show_phone_func args book) = Raise e -> caught e.
Proof.
  unfold show_phone_func. destruct args as [|n rest]; [intros H; inversion H; exact I|].
  destruct (find n book); [discriminate | intros H; inversion H; exact I].
Qed.

Lemma show_all_caught book e : snd (show_all_func book) = Raise e -> caught e.
Proof. unfold show_all_func. destruct book; discriminate. Qed.

Lemma add_birthday_caught args book e :
  snd (add_birthday_func args book) = Raise e -> caught e.
Proof.
  unfold add_birthday_func.
  destruct args as [|n [|b [|x rest]]]; try (intros H; inversion H; exact I).
  destruct (find n book) as [r|]; [|intros H; inversion H; exact I].
  unfold call_on, add_birthday_m.
  destruct (Birthday_init_cases b) as [[_ ->] | [_ ->]]; cbn [snd];
    [discriminate | intros H; inversion H; exact I].
Qed.

Lemma show_birthday_caught args book e :
  snd (show_birthday_func args book) = Raise e -> caught e.
Proof.
  unfold show_birthday_func. destruct args as [|n rest]; [intros H; inversion H; exact I|].
  destruct (find n book) as [r|]; [destruct (birthday r)|]; discriminate.
Qed.

Lemma birthdays_caught today args book e :
  snd (birthdays_func today args book) = Raise e -> caught e.
Proof.
  unfold birthdays_func, get_upcoming_birthdays.
  destruct (upcoming_loop today (dict_values book) []) as [[|x l]|e0] eqn:Hu;
    cbn [snd]; try discriminate.
  intros H; inversion H; subst.
  destruct (upcoming_loop_raises_ValueError _ _ _ _ Hu) as [msg ->]. exact I.
Qed.

Lemma print_result_no_crash f book :
  (forall e, snd (f book) = Raise e -> caught e) ->
  forall e, print_result (input_error f book) <> Crash e.
Proof.
  intros H e. destruct (input_error_ok f book H) as [s Hs].
  destruct (input_error f book) as [b res]. cbn [snd] in Hs. subst res.
  discriminate.
Qed.

(** A round that reads a line with a word in it never lets an exception
    escape. *)
Lemma main_step_word_no_crash today line book e :
  parse_input line <> [] -> main_step today line book <> Crash e.
Proof.
  unfold main_step. destruct (parse_input line) as [|command args]; [contradiction|].
  intros _.
  repeat match goal with
         | |- (if ?b then _ else _) <> _ => destruct b
         end;
    try discriminate.
  - apply (print_result_no_crash (add_contact_func args)), add_contact_caught.
  - apply (print_result_no_crash (change_contact_func args)), change_contact_caught.
  - apply (print_result_no_crash (show_phone_func args)), show_phone_caught.
  - apply (print_result_no_crash show_all_func), show_all_caught.
  - apply (print_result_no_crash (add_birthday_func args)), add_birthday_caught.
  - apply (print_result_no_crash (show_birthday_func args)), show_birthday_caught.
  - apply (print_result_no_crash (birthdays_func today args)), birthdays_caught.
Qed.

End Dispatch.

(** C7, where the code departs from it.  On the empty line, and on any
    line of whitespace only, the unpacking [command, *args = parse_input(...)]
    raises [ValueError] outside every [input_error] wrapper, and the
    exception escapes [main].  These are the only lines that do so: on a
    line with a word in it, every exception a handler raises is caught. *)
Theorem main_step_blank_line_crashes (today : date) (book : AddressBook) :
  main_step today "" book = Crash unpack_error
  /\ main [(today, "")] = (["Welcome to the assistant bot!"], Crashed unpack_error)
  /\ forall line e,
       main_step today line book = Crash e <-> blank line /\ e = unpack_error.
Proof.
  split; [reflexivity|]. split; [reflexivity|].
  intros line e. split.
  - intros H. destruct (parse_input line) as [|c args] eqn:Hp.
    + split; [now apply parse_input_nil|].
      unfold main_step in H. rewrite Hp in H. now inversion H.
    + exfalso. apply (main_step_word_no_crash today line book e); [|exact H].
      rewrite Hp. discriminate.
  - intros [Hb ->]. apply parse_input_nil in Hb. unfold main_step. now rewrite Hb.
Qed.

(** ** One entry per name *)

Section BookShape.

Lemma in_keys_dict_set {V} x k (v : V) d :
  In x (dict_keys (dict_set k v d)) -> x = k \/ In x (dict_keys d).
Proof.
  unfold dict_keys. induction d as [|[k' v'] d IH]; cbn [dict_set map fst In].
  - intros [H|[]]; auto.
  - destruct (k' =? k)%string; cbn [map fst In]; [tauto|].
    intros [H|H]; [tauto|]. destruct (IH H); tauto.
Qed.

Lemma NoDup_keys_dict_set {V} k (v : V) d :
  NoDup (dict_keys d) -> NoDup (dict_keys (dict_set k v d)).
Proof.
  unfold dict_keys. induction d as [|[k' v'] d IH]; cbn [dict_set map fst]; intros H.
  - constructor; [intros [] | constructor].
  - inversion H as [|? ? Hnotin Hnd]; subst.
    destruct (String.eqb_spec k' k) as [E|E]; cbn [map fst].
    + constructor; assumption.
    + constructor; [|exact (IH Hnd)].
      intros Hin. apply (in_keys_dict_set k' k v d) in Hin as [Hin|Hin]; auto.
Qed.

Lemma in_keys_dict_del {V} x k (d : list (string * V)) :
  In x (dict_keys (dict_del k d)) -> In x (dict_keys d).
Proof.
  unfold dict_keys. induction d as [|[k' v'] d IH]; cbn [dict_del map fst In]; [tauto|].
  destruct (k' =? k)%string; cbn [map fst In]; tauto.
Qed.

Lemma book_wf_set k r book :
  book_wf book -> record_name r = k -> book_wf (dict_set k r book).
Proof.
  intros [Hnd Hf] Hr. split; [now apply NoDup_keys_dict_set|].
  clear Hnd. induction book as [|[k' r'] book IH]; cbn [dict_set].
  - constructor; [exact Hr | constructor].
  - pose proof (Forall_inv Hf) as Hhd. pose proof (Forall_inv_tail Hf) as Htl.
    cbn [fst snd] in Hhd.
    destruct (String.eqb_spec k' k) as [E|E].
    + constructor; [cbn [fst snd]; congruence | exact Htl].
    + constructor; [exact Hhd | exact (IH Htl)].
Qed.

Lemma book_wf_del k book : book_wf book -> book_wf (dict_del k book).
Proof.
  intros [Hnd Hf]. unfold dict_keys in *.
  induction book as [|[k' r'] book IH]; cbn [dict_del]; [split; constructor|].
  cbn [map fst] in Hnd. inversion Hnd as [|? ? Hnotin Hnd']; subst.
  pose proof (Forall_inv Hf) as Hhd. pose proof (Forall_inv_tail Hf) as Htl.
  destruct (k' =? k)%string; [split; assumption|].
  destruct (IH Hnd' Htl) as [IH1 IH2]. split.
  - cbn [map fst]. constructor; [|exact IH1].
    intros Hin. apply Hnotin. exact (in_keys_dict_del _ _ _ Hin).
  - constructor; assumption.
Qed.

Lemma book_wf_find n r book : book_wf book -> find n book = Some r -> record_name r = n.
Proof.
  intros [_ Hf]. unfold find.
  induction book as [|[k' r'] book IH]; cbn [dict_get]; [discriminate|].
  pose proof (Forall_inv Hf) as Hhd. pose proof (Forall_inv_tail Hf) as Htl.
  cbn [fst snd] in Hhd.
  destruct (String.eqb_spec k' n) as [E|E].
  - intros H. inversion H. congruence.
  - exact (IH Htl).
Qed.

Lemma method_keeps_name m r : record_method m -> record_name (fst (m r)) = record_name r.
Proof.
  intros Hm. destruct Hm as [p | p | o n | b].
  - unfold add_phone. destruct (Phone_init p); reflexivity.
  - reflexivity.
  - unfold edit_phone. destruct (Re.fullmatch phone_pattern n); [|reflexivity].
    destruct (edit_phone_loop o n (phones r) false) as [ps found].
    destruct (negb found); reflexivity.
  - unfold add_birthday_m. destruct (Birthday_init b); reflexivity.
Qed.

Lemma book_wf_call n r m book :
  book_wf book -> find n book = Some r -> record_method m ->
  book_wf (dict_set n (fst (m r)) book).
Proof.
  intros Hwf Hf Hm. apply book_wf_set; [exact Hwf|].
  rewrite (method_keeps_name m r Hm). exact (book_wf_find _ _ _ Hwf Hf).
Qed.

Lemma add_contact_wf args book :
  book_wf book -> book_wf (fst (add_contact args book)).
Proof.
  intros Hb. unfold add_contact. rewrite input_error_book. unfold add_contact_func.
  destruct (list_len args <? 2); [exact Hb|].
  destruct args as [|n [|p rest]]; try exact Hb.
  destruct (find n book) as [r|] eqn:Hf.
  - rewrite call_on_eq.
    pose proof (book_wf_call n r _ book Hb Hf (call_add_phone p)) as Hb'.
    destruct (snd (add_phone p r)); cbn [fst]; [|exact Hb'].
    apply book_wf_set; [exact Hb' | reflexivity].
  - destruct (add_phone p (Record_init n)) as [r' res].
    destruct res; cbn [fst]; [|exact Hb].
    apply book_wf_set; [exact Hb | reflexivity].
Qed.

Lemma change_contact_wf args book :
  book_wf book -> book_wf (fst (change_contact args book)).
Proof.
  intros Hb. unfold change_contact. rewrite input_error_book. unfold change_contact_func.
  destruct args as [|n [|o [|p [|x rest]]]]; try exact Hb.
  destruct (find n book) as [r|] eqn:Hf; [|exact Hb].
  rewrite call_on_eq.
  pose proof (book_wf_call n r _ book Hb Hf (call_edit_phone o p)) as Hb'.
  destruct (snd (edit_phone o p r)); exact Hb'.
Qed.

Lemma add_birthday_wf args book :
  book_wf book -> book_wf (fst (add_birthday args book)).
Proof.
  intros Hb. unfold add_birthday. rewrite input_error_book. unfold add_birthday_func.
  destruct args as [|n [|b [|x rest]]]; try exact Hb.
  destruct (find n book) as [r|] eqn:Hf; [|exact Hb].
  rewrite call_on_eq.
  pose proof (book_wf_call n r _ book Hb Hf (call_add_birthday b)) as Hb'.
  destruct (snd (add_birthday_m b r)); exact Hb'.
Qed.

Lemma main_step_wf today line book out book' :
  main_step today line book = Continue out book' -> book_wf book -> book_wf book'.
Proof.
  unfold main_step. destruct (parse_input line) as [|command args]; [discriminate|].
  intros H Hb.
  repeat match type of H with
         | (if ?b then _ else _) = _ => destruct b
         end;
    try discriminate;
    try (inversion H; subst; exact Hb);
    apply print_result_continue in H; subst book'.
  - now apply add_contact_wf.
  - now apply change_contact_wf.
  - now rewrite show_phone_book.
  - now rewrite show_all_book.
  - now apply add_birthday_wf.
  - now rewrite show_birthday_book.
  - now rewrite birthdays_book.
Qed.

(** Every reachable book keeps one entry per name. *)
Lemma reachable_book_wf book : reachable book -> book_wf book.
Proof.
  induction 1 as [ | today line out book book' _ IH Hstep
                   | r book _ IH Hr | n book _ IH | n r m book _ IH Hf Hm ].
  - split; constructor.
  - exact (main_step_wf _ _ _ _ _ Hstep IH).
  - apply book_wf_set; [exact IH | reflexivity].
  - now apply book_wf_del.
  - now apply book_wf_call.
Qed.

(** So the names of the records of a reachable book are distinct. *)
Lemma reachable_names_distinct book :
  reachable book -> NoDup (map record_name (dict_values book)).
Proof.
  intros H. destruct (reachable_book_wf book H) as [Hnd Hf].
  assert (E : map record_name (dict_values book) = dict_keys book).
  { unfold dict_values, dict_keys. clear Hnd H.
    induction book as [|[k r] book IH]; [reflexivity|].
    pose proof (Forall_inv Hf) as Hhd. pose proof (Forall_inv_tail Hf) as Htl.
    cbn [map fst snd] in *. rewrite Hhd, IH; [reflexivity | exact Htl]. }
  rewrite E. exact Hnd.
Qed.

End BookShape.

(** ** More concrete runs *)

Example strip_run : strip "  add  John 1112223333 " = "add  John 1112223333".
Proof. reflexivity. Qed.

Example parse_input_run :
  parse_input "  add  John 1112223333 " = ["add"; "John"; "1112223333"].
Proof. reflexivity. Qed.

Example parse_input_blank : parse_input "   " = [].
Proof. reflexivity. Qed.

Example str_of_int_run : str_of_int 10000 = "10000" /\ str_of_int 7 = "7".
Proof. split; reflexivity. Qed.

Example blank_line_session :
  main [(d20261104, "add John 1112223333"); (d20261104, " "); (d20261104, "all")]
  = (["Welcome to the assistant bot!"; "Contact added/updated."], Crashed unpack_error).
Proof. vm_compute. reflexivity. Qed.

Example feb29_session :
  main [(d20230301, "add Bob 1112223333");
        (d20230301, "add-birthday Bob 29.02.2000");
        (d20230301, "birthdays");
        (d20230301, "show-birthday Bob")]
  = (["Welcome to the assistant bot!";
      "Contact added/updated.";
      "Birthday added.";
      "day is out of range for month";
      "29.02.2000"], Waiting [("Bob", mkRecord (mkField "Bob") [mkField "1112223333"]
                                                (Some (mkField "29.02.2000")))]).
Proof. vm_compute. reflexivity. Qed.

(** * Further properties of the code *)

(** ** [Record.remove_phone], [Record.find_phone], [Record.edit_phone] *)

Section RecordPhones.

Lemma find_phone_present p ps :
  In p (map value ps) ->
  List.find (fun ph => (value ph =? p)%string) ps = Some (mkField p).
Proof.
  induction ps as [|[v] ps IH]; [intros []|]. cbn [map In List.find value].
  destruct (String.eqb_spec v p) as [E|E].
  - intros _. now subst.
  - intros [H|H]; [contradiction | auto].
Qed.

Lemma find_phone_absent p ps :
  ~ In p (map value ps) -> List.find (fun ph => (value ph =? p)%string) ps = None.
Proof.
  induction ps as [|[v] ps IH]; [reflexivity|]. cbn [map In List.find value].
  intros H. destruct (String.eqb_spec v p) as [E|E]; [tauto|]. apply IH. tauto.
Qed.

Lemma values_filter p ps :
  map value (filter (fun ph => negb (value ph =? p)%string) ps)
  = filter (fun v => negb (v =? p)%string) (map value ps).
Proof.
  induction ps as [|[v] ps IH]; [reflexivity|]. cbn [filter map value].
  destruct (v =? p)%string; cbn [negb map value]; now rewrite IH.
Qed.

Lemma count_occ_filter_other p q vs :
  q <> p ->
  count_occ string_dec (filter (fun v => negb (v =? p)%string) vs) q
  = count_occ string_dec vs q.
Proof.
  intros Hq. induction vs as [|v vs IH]; [reflexivity|]. cbn [filter count_occ].
  destruct (String.eqb_spec v p) as [E|E]; cbn [negb count_occ].
  - subst v. destruct (string_dec p q); [congruence | exact IH].
  - destruct (string_dec v q); now rewrite IH.
Qed.

Lemma filter_absent p ps :
  ~ In p (map value ps) -> filter (fun ph => negb (value ph =? p)%string) ps = ps.
Proof.
  induction ps as [|[v] ps IH]; [reflexivity|]. cbn [map In filter value].
  intros H. destruct (String.eqb_spec v p) as [E|E]; [tauto|].
  cbn [negb]. f_equal. apply IH. tauto.
Qed.

Lemma count_replace old_phone new_phone ps q :
  count_occ string_dec (map value (map (replace_phone old_phone new_phone) ps)) q
  = if string_dec q old_phone
    then (if string_dec old_phone new_phone
          then count_occ string_dec (map value ps) q else 0%nat)
    else if string_dec q new_phone
         then (count_occ string_dec (map value ps) old_phone
               + count_occ string_dec (map value ps) new_phone)%nat
         else count_occ string_dec (map value ps) q.
Proof.
  induction ps as [|[v] ps IH]; cbn [map count_occ value].
  - destruct (string_dec q old_phone), (string_dec old_phone new_phone),
      (string_dec q new_phone); reflexivity.
  - rewrite IH. clear IH. unfold replace_phone. cbn [value].
    destruct (String.eqb_spec v old_phone) as [Ev|Ev]; cbn [value];
      repeat match goal with
             | |- context [string_dec ?a ?b] => destruct (string_dec a b)
             end; subst; try congruence; lia.
Qed.

End RecordPhones.

(** X1.  [remove_phone(p)] never raises; afterwards no phone of the record
    equals [p] and [find_phone(p)] finds nothing; every other phone stays,
    as often as it occurred; name and birthday stay; and when [p] was not
    among the phones the record is left as it was. *)
Theorem remove_phone_removes_all (r : Record_) (p : string) :
  snd (remove_phone p r) = Ok tt
  /\ ~ In p (map value (phones (fst (remove_phone p r))))
  /\ find_phone p (fst (remove_phone p r)) = None
  /\ (forall q, q <> p -> phone_count q (fst (remove_phone p r)) = phone_count q r)
  /\ name (fst (remove_phone p r)) = name r
  /\ birthday (fst (remove_phone p r)) = birthday r
  /\ (~ In p (map value (phones r)) -> fst (remove_phone p r) = r).
Proof.
  cbn [remove_phone fst snd phones set_phones name birthday].
  assert (Hnot : ~ In p (map value
                   (filter (fun ph => negb (value ph =? p)%string) (phones r)))).
  { rewrite values_filter. intros H. apply filter_In in H as [_ H].
    rewrite String.eqb_refl in H. discriminate H. }
  split; [reflexivity|]. split; [exact Hnot|].
  split; [unfold find_phone; cbn [phones set_phones]; now apply find_phone_absent|].
  split; [intros q Hq; unfold phone_count; cbn [phones set_phones];
          rewrite values_filter; now apply count_occ_filter_other|].
  split; [reflexivity|]. split; [reflexivity|].
  intros H. rewrite (filter_absent p (phones r) H). apply set_phones_same.
Qed.

(** X2.  [find_phone(p)] returns a phone with the value [p] exactly when
    the record has one, and [None] otherwise; the phone a successful
    [add_phone(p)] appended is found. *)
Theorem find_phone_iff_present (r : Record_) (p : string) :
  (In p (map value (phones r)) -> find_phone p r = Some (mkField p))
  /\ (~ In p (map value (phones r)) -> find_phone p r = None)
  /\ (forall ph, find_phone p r = Some ph -> value ph = p /\ In ph (phones r))
  /\ (ten_digits p -> find_phone p (fst (add_phone p r)) = Some (mkField p)).
Proof.
  unfold find_phone.
  split; [apply find_phone_present|]. split; [apply find_phone_absent|].
  split.
  - intros ph H. apply find_some in H as [Hin E].
    apply String.eqb_eq in E. auto.
  - intros Hp. rewrite (add_phone_valid p r Hp). cbn [fst phones set_phones].
    apply find_phone_present. rewrite map_app. apply in_or_app. right.
    left. reflexivity.
Qed.

(** X3.  A successful [edit_phone(old, new)] with [new] different from
    [old] keeps the number of phones, name and birthday, and leaves no
    phone equal to [old]: the phones equal to [new] are now those that
    were [old] or [new]; repeating the same call raises "Phone not found."
    and changes nothing. *)
Theorem edit_phone_moves_all (r : Record_) (old_phone new_phone : string) :
  ten_digits new_phone -> In old_phone (map value (phones r)) ->
  old_phone <> new_phone ->
  let r' := fst (edit_phone old_phone new_phone r) in
  snd (edit_phone old_phone new_phone r) = Ok tt
  /\ List.length (phones r') = List.length (phones r)
  /\ name r' = name r /\ birthday r' = birthday r
  /\ phone_count old_phone r' = 0%nat
  /\ phone_count new_phone r' = (phone_count old_phone r + phone_count new_phone r)%nat
  /\ (forall q, q <> old_phone -> q <> new_phone -> phone_count q r' = phone_count q r)
  /\ edit_phone old_phone new_phone r' = (r', Raise (ValueError "Phone not found.")).
Proof.
  intros Hnew Hold Hne. cbv zeta.
  assert (E : edit_phone old_phone new_phone r
              = (set_phones r (map (replace_phone old_phone new_phone) (phones r)), Ok tt)).
  { unfold edit_phone. rewrite edit_phone_loop_map. cbn [orb].
    destruct (fullmatch_phone new_phone) as [[_ ->] | [Hn _]]; [|contradiction].
    apply existsb_value_in in Hold. rewrite Hold. reflexivity. }
  rewrite E. cbn [fst snd phones set_phones name birthday].
  pose proof (count_replace old_phone new_phone (phones r)) as Hcount.
  assert (Hgone : ~ In old_phone
                    (map value (map (replace_phone old_phone new_phone) (phones r)))).
  { intros Hin. apply (count_occ_In string_dec) in Hin. rewrite Hcount in Hin.
    destruct (string_dec old_phone old_phone); [|congruence].
    destruct (string_dec old_phone new_phone); [congruence | lia]. }
  split; [reflexivity|]. split; [now rewrite length_map|].
  split; [reflexivity|]. split; [reflexivity|].
  unfold phone_count; cbn [phones set_phones].
  split; [rewrite Hcount; destruct (string_dec old_phone old_phone); [|congruence];
          destruct (string_dec old_phone new_phone); congruence|].
  split.
  { rewrite Hcount. destruct (string_dec new_phone old_phone); [congruence|].
    destruct (string_dec new_phone new_phone); congruence. }
  split.
  { intros q Ho Hn. rewrite Hcount.
    destruct (string_dec q old_phone); [congruence|].
    destruct (string_dec q new_phone); congruence. }
  unfold edit_phone. rewrite edit_phone_loop_map. cbn [orb phones set_phones].
  destruct (fullmatch_phone new_phone) as [[_ ->] | [Hn _]]; [|contradiction].
  destruct (existsb _ _) eqn:Hex.
  - apply existsb_value_in in Hex. contradiction.
  - cbn [negb]. rewrite (map_replace_absent _ _ _ Hgone).
    destruct r; reflexivity.
Qed.

Lemma edit_phone_moves_all_witness :
  let r' := fst (edit_phone "1112223333" "4445556666" john_record) in
  snd (edit_phone "1112223333" "4445556666" john_record) = Ok tt
  /\ List.length (phones r') = List.length (phones john_record)
  /\ name r' = name john_record /\ birthday r' = birthday john_record
  /\ phone_count "1112223333" r' = 0%nat
  /\ phone_count "4445556666" r'
     = (phone_count "1112223333" john_record + phone_count "4445556666" john_record)%nat
  /\ (forall q, q <> "1112223333" -> q <> "4445556666" ->
                phone_count q r' = phone_count q john_record)
  /\ edit_phone "1112223333" "4445556666" r' = (r', Raise (ValueError "Phone not found.")).
Proof.
  apply (edit_phone_moves_all john_record "1112223333" "4445556666").
  - split; reflexivity.
  - left; reflexivity.
  - discriminate.
Defined.

(** ** [AddressBook.add_record], [AddressBook.find], [AddressBook.delete] *)

Section BookOperations.

Lemma dict_set_absent {V} k (v : V) d :
  dict_get k d = None -> dict_set k v d = (d ++ [(k, v)])%list.
Proof.
  induction d as [|[k' v'] d IH]; cbn [dict_get dict_set app]; [reflexivity|].
  destruct (k' =? k)%string; [discriminate|]. intros H. now rewrite IH.
Qed.

Lemma dict_get_none_keys {V} k (d : list (string * V)) :
  dict_get k d = None <-> ~ In k (dict_keys d).
Proof.
  unfold dict_keys. induction d as [|[k' v'] d IH]; cbn [dict_get map fst In]; [tauto|].
  destruct (String.eqb_spec k' k) as [E|E].
  - split; [discriminate | intros H; exfalso; apply H; left; exact E].
  - rewrite IH. tauto.
Qed.

Lemma dict_get_del_same {V} k (d : list (string * V)) :
  NoDup (dict_keys d) -> dict_get k (dict_del k d) = None.
Proof.
  unfold dict_keys. induction d as [|[k' v'] d IH]; cbn [dict_del map fst]; [reflexivity|].
  intros H. inversion H as [|? ? Hnotin Hnd]; subst.
  destruct (String.eqb_spec k' k) as [E|E].
  - subst k'. now apply dict_get_none_keys.
  - cbn [dict_get]. destruct (String.eqb_spec k' k); [contradiction | auto].
Qed.

Lemma dict_get_del_other {V} k k0 (d : list (string * V)) :
  k0 <> k -> dict_get k0 (dict_del k d) = dict_get k0 d.
Proof.
  intros Hne. induction d as [|[k' v'] d IH]; cbn [dict_del dict_get]; [reflexivity|].
  destruct (String.eqb_spec k' k) as [E|E]; cbn [dict_get].
  - subst k'. destruct (String.eqb_spec k k0); [congruence | reflexivity].
  - now rewrite IH.
Qed.

Lemma dict_del_absent {V} k (d : list (string * V)) :
  dict_get k d = None -> dict_del k d = d.
Proof.
  induction d as [|[k' v'] d IH]; cbn [dict_get dict_del]; [reflexivity|].
  destruct (k' =? k)%string; [discriminate|]. intros H. now rewrite IH.
Qed.

Lemma NoDup_keys_dict_del {V} k (d : list (string * V)) :
  NoDup (dict_keys d) -> NoDup (dict_keys (dict_del k d)).
Proof.
  unfold dict_keys. induction d as [|[k' v'] d IH]; cbn [dict_del map fst]; [auto|].
  intros H. inversion H as [|? ? Hnotin Hnd]; subst.
  destruct (k' =? k)%string; [assumption|]. cbn [map fst].
  constructor; [|auto]. intros Hin. apply Hnotin.
  exact (in_keys_dict_del _ _ _ Hin).
Qed.

End BookOperations.

(** X4.  [add_record] is an upsert by name: afterwards [find] of the
    record's name returns the record and every other name finds what it
    found before; a name the book has keeps its place and the keys stay as
    they were, a new name goes to the end; adding the same record twice is
    adding it once. *)
Theorem add_record_upsert (r : Record_) (book : AddressBook) :
  find (record_name r) (add_record r book) = Some r
  /\ (forall k, k <> record_name r -> find k (add_record r book) = find k book)
  /\ (forall r0, find (record_name r) book = Some r0 ->
                 dict_keys (add_record r book) = dict_keys book)
  /\ (find (record_name r) book = None ->
      add_record r book = (book ++ [(record_name r, r)])%list)
  /\ add_record r (add_record r book) = add_record r book.
Proof.
  unfold add_record, find, record_name.
  split; [apply dict_get_set_same|].
  split; [intros k Hk; now apply dict_get_set_other|].
  split; [intros r0 H; exact (dict_keys_set _ r r0 book H)|].
  split; [apply dict_set_absent | apply dict_set_twice].
Qed.

(** X5.  In a book with one entry per name, after [delete(n)] the name
    [n] is not found, every other name finds what it found before, and
    the book still has one entry per name; deleting a name the book does
    not have changes nothing. *)
Theorem delete_forgets (n : string) (book : AddressBook) :
  NoDup (dict_keys book) ->
  find n (delete n book) = None
  /\ (forall k, k <> n -> find k (delete n book) = find k book)
  /\ NoDup (dict_keys (delete n book))
  /\ (find n book = None -> delete n book = book).
Proof.
  intros Hnd. unfold find, delete.
  split; [now apply dict_get_del_same|].
  split; [intros k Hk; now apply dict_get_del_other|].
  split; [now apply NoDup_keys_dict_del | apply dict_del_absent].
Qed.

Lemma NoDup_book_two : NoDup (dict_keys book_two).
Proof. repeat constructor; cbn; intuition discriminate. Qed.

Lemma delete_forgets_witness :
  find "John" (delete "John" book_two) = None
  /\ (forall k, k <> "John" -> find k (delete "John" book_two) = find k book_two)
  /\ NoDup (dict_keys (delete "John" book_two))
  /\ (find "John" book_two = None -> delete "John" book_two = book_two).
Proof. exact (delete_forgets "John" book_two NoDup_book_two). Defined.

(** ** The handlers [add_contact], [change_contact], [show_phone] *)

Section PhoneHandlers.

Lemma add_phone_invalid p r :
  ~ ten_digits p -> add_phone p r = (r, Raise (ValueError "Phone must be 10 digits.")).
Proof.
  intros Hp. unfold add_phone, Phone_init.
  destruct (fullmatch_phone p) as [[Ht _] | [_ ->]]; [contradiction | reflexivity].
Qed.

End PhoneHandlers.

Lemma add_contact_new (book : AddressBook) (n p : string) (rest : list string) :
  find n book = None -> ten_digits p ->
  add_contact (n :: p :: rest) book
  = (dict_set n (mkRecord (mkField n) [mkField p] None) book,
     Ok "Contact added/updated.").
Proof.
  intros Hf Hp. unfold add_contact, input_error, add_contact_func.
  rewrite list_len_two, Hf, (add_phone_valid p (Record_init n) Hp).
  reflexivity.
Qed.

(** X6.  [add_contact] with a name the book does not have and a 10-digit
    phone puts a new record at the end of the book, with that name, that
    one phone and no birthday, and every other entry stays. *)
Theorem add_contact_creates
    (book : AddressBook) (n p : string) (rest : list string) :
  find n book = None -> ten_digits p ->
  add_contact (n :: p :: rest) book
  = ((book ++ [(n, mkRecord (mkField n) [mkField p] None)])%list,
     Ok "Contact added/updated.")
  /\ find n (fst (add_contact (n :: p :: rest) book))
     = Some (mkRecord (mkField n) [mkField p] None)
  /\ forall k, k <> n -> find k (fst (add_contact (n :: p :: rest) book)) = find k book.
Proof.
  intros Hf Hp. rewrite (add_contact_new book n p rest Hf Hp). cbn [fst].
  split; [now rewrite (dict_set_absent n _ book Hf)|].
  split; [apply dict_get_set_same | intros k Hk; now apply dict_get_set_other].
Qed.

Lemma add_contact_creates_witness :
  add_contact ["Ann"; "0123456789"] book_john
  = ((book_john ++ [("Ann", mkRecord (mkField "Ann") [mkField "0123456789"] None)])%list,
     Ok "Contact added/updated.")
  /\ find "Ann" (fst (add_contact ["Ann"; "0123456789"] book_john))
     = Some (mkRecord (mkField "Ann") [mkField "0123456789"] None)
  /\ forall k, k <> "Ann" ->
       find k (fst (add_contact ["Ann"; "0123456789"] book_john)) = find k book_john.
Proof.
  apply (add_contact_creates book_john "Ann" "0123456789" []).
  - reflexivity.
  - split; reflexivity.
Defined.

(** X7.  [add_contact] changes nothing when it reports an error: with
    fewer than two arguments it returns "Give me name and phone please.",
    and with a phone that is not 10 digits "Phone must be 10 digits.",
    whether the name is in the book or not; no record is created for a
    new name with a bad phone. *)
Theorem add_contact_errors_keep_book (args : list string) (book : AddressBook) :
  ((list_len args <? 2) = true ->
   add_contact args book = (book, Ok "Give me name and phone please."))
  /\ (forall n p rest, args = n :: p :: rest -> ~ ten_digits p ->
        add_contact args book = (book, Ok "Phone must be 10 digits.")).
Proof.
  unfold add_contact, input_error, add_contact_func. split.
  - intros H. now rewrite H.
  - intros n p rest -> Hp. rewrite list_len_two.
    destruct (find n book) as [r|] eqn:Hf.
    + unfold call_on. rewrite (add_phone_invalid p r Hp).
      now rewrite (dict_set_same n r book Hf).
    + now rewrite (add_phone_invalid p (Record_init n) Hp).
Qed.

(** X8.  [change_contact] in all its cases, in the order the code tests
    them: a number of arguments other than three; then a name the book
    does not have, even when the new phone is malformed; then a new phone
    that is not 10 digits; then an old phone the record does not have.
    Each of these returns its message and leaves the book as it was.
    Otherwise every phone of that record equal to the old one becomes the
    new one, and the other entries stay. *)
Theorem change_contact_cases
    (n old_phone new_phone : string) (book : AddressBook) :
  (forall args, List.length args <> 3%nat ->
     change_contact args book = (book, Ok "Give me name, old phone and new phone."))
  /\ (find n book = None ->
      change_contact [n; old_phone; new_phone] book = (book, Ok "Contact not found."))
  /\ (forall r, find n book = Some r -> ~ ten_digits new_phone ->
        change_contact [n; old_phone; new_phone] book
        = (book, Ok "Phone must be 10 digits."))
  /\ (forall r, find n book = Some r -> ten_digits new_phone ->
        ~ In old_phone (map value (phones r)) ->
        change_contact [n; old_phone; new_phone] book = (book, Ok "Phone not found."))
  /\ (forall r, find n book = Some r -> ten_digits new_phone ->
        In old_phone (map value (phones r)) ->
        change_contact [n; old_phone; new_phone] book
        = (dict_set n (set_phones r (map (replace_phone old_phone new_phone) (phones r)))
                    book,
           Ok "Phone changed.")
        /\ forall k, k <> n ->
             find k (fst (change_contact [n; old_phone; new_phone] book)) = find k book).
Proof.
  unfold change_contact, input_error, change_contact_func.
  split.
  { intros args Hlen. destruct args as [|a [|b [|c [|d rest]]]]; try reflexivity.
    exfalso. apply Hlen. reflexivity. }
  split; [intros ->; reflexivity|].
  assert (Hedit : forall r, find n book = Some r ->
            call_on n r (edit_phone old_phone new_phone) book
            = (dict_set n (fst (edit_phone old_phone new_phone r)) book,
               fst (edit_phone old_phone new_phone r),
               snd (edit_phone old_phone new_phone r)))
    by (intros r _; apply call_on_eq).
  split; [|split].
  - intros r Hf Hn. rewrite Hf, (Hedit r Hf).
    unfold edit_phone. destruct (fullmatch_phone new_phone) as [[Ht _] | [_ ->]];
      [contradiction|]. cbn [fst snd]. now rewrite (dict_set_same n r book Hf).
  - intros r Hf Ht Hnot. rewrite Hf, (Hedit r Hf).
    unfold edit_phone. rewrite edit_phone_loop_map. cbn [orb].
    destruct (fullmatch_phone new_phone) as [[_ ->] | [Hn _]]; [|contradiction].
    destruct (existsb (fun p : Field => (value p =? old_phone)%string) (phones r)) eqn:Hex.
    + apply existsb_value_in in Hex. contradiction.
    + cbn [negb fst snd]. rewrite (map_replace_absent _ _ _ Hnot), set_phones_same.
      now rewrite (dict_set_same n r book Hf).
  - intros r Hf Ht Hin. rewrite Hf, (Hedit r Hf).
    unfold edit_phone. rewrite edit_phone_loop_map. cbn [orb].
    destruct (fullmatch_phone new_phone) as [[_ ->] | [Hn _]]; [|contradiction].
    apply existsb_value_in in Hin. rewrite Hin. cbn [negb fst snd].
    split; [reflexivity|]. intros k Hk. now apply dict_get_set_other.
Qed.

(** X9.  After a successful [add_contact(n, p)], whether [n] was new or
    not, [show_phone(n)] returns the phones [n] had before, then [p],
    joined by "; ", and leaves the book as it is. *)
Theorem add_then_show_phone
    (book : AddressBook) (n p : string) (rest : list string) :
  ten_digits p ->
  snd (add_contact (n :: p :: rest) book) = Ok "Contact added/updated."
  /\ show_phone [n] (fst (add_contact (n :: p :: rest) book))
     = (fst (add_contact (n :: p :: rest) book),
        Ok (join "; " (phones_of n book ++ [p])%list)).
Proof.
  intros Hp.
  assert (E : exists book' r',
            add_contact (n :: p :: rest) book = (book', Ok "Contact added/updated.")
            /\ find n book' = Some r'
            /\ map value (phones r') = (phones_of n book ++ [p])%list).
  { unfold add_contact, input_error, add_contact_func, phones_of.
    rewrite list_len_two. destruct (find n book) as [r|] eqn:Hf.
    - unfold call_on. rewrite (add_phone_valid p r Hp).
      eexists _, _. split; [reflexivity|]. split.
      + unfold add_record, find.
        destruct (string_dec (value (name (set_phones r (phones r ++ [mkField p])))) n)
          as [En|En].
        * rewrite En. apply dict_get_set_same.
        * rewrite dict_get_set_other by congruence. apply dict_get_set_same.
      + cbn [phones set_phones]. now rewrite map_app.
    - rewrite (add_phone_valid p (Record_init n) Hp).
      eexists _, _. split; [reflexivity|]. split.
      + unfold add_record, find. cbn [name set_phones Record_init Name_init value].
        apply dict_get_set_same.
      + reflexivity. }
  destruct E as (book' & r' & -> & Hf' & Hv). cbn [fst snd].
  split; [reflexivity|].
  unfold show_phone, input_error, show_phone_func. rewrite Hf', Hv. reflexivity.
Qed.

Lemma add_then_show_phone_witness :
  snd (add_contact ["John"; "4445556666"] book_john) = Ok "Contact added/updated."
  /\ show_phone ["John"] (fst (add_contact ["John"; "4445556666"] book_john))
     = (fst (add_contact ["John"; "4445556666"] book_john),
        Ok (join "; " (phones_of "John" book_john ++ ["4445556666"])%list)).
Proof.
  apply (add_then_show_phone book_john "John" "4445556666" []).
  split; reflexivity.
Defined.

Example show_phone_after_add :
  show_phone ["John"] (fst (add_contact ["John"; "4445556666"] book_john))
  = (fst (add_contact ["John"; "4445556666"] book_john), Ok "1112223333; 4445556666").
Proof. reflexivity. Qed.

(** ** The handlers [add_birthday], [show_birthday] *)

(** X10.  For a name the book has and a text [Birthday] accepts,
    [add_birthday] stores the text as it was typed, whether or not the
    record had a birthday, and keeps name, phones and the other entries;
    [show_birthday] then returns that very text. *)
Theorem add_then_show_birthday
    (book : AddressBook) (n s : string) (r : Record_) :
  find n book = Some r -> lenient_date_string s ->
  add_birthday [n; s] book
  = (dict_set n (mkRecord (name r) (phones r) (Some (mkField s))) book,
     Ok "Birthday added.")
  /\ show_birthday [n] (fst (add_birthday [n; s] book))
     = (fst (add_birthday [n; s] book), Ok s)
  /\ forall k, k <> n -> find k (fst (add_birthday [n; s] book)) = find k book.
Proof.
  intros Hf Hs.
  assert (E : add_birthday [n; s] book
              = (dict_set n (mkRecord (name r) (phones r) (Some (mkField s))) book,
                 Ok "Birthday added.")).
  { unfold add_birthday, input_error, add_birthday_func, call_on, add_birthday_m.
    rewrite Hf. destruct (Birthday_init_cases s) as [[_ ->] | [Hn _]];
      [reflexivity | contradiction]. }
  rewrite E. cbn [fst]. split; [reflexivity|]. split.
  - unfold show_birthday, input_error, show_birthday_func, find.
    rewrite dict_get_set_same. reflexivity.
  - intros k Hk. now apply dict_get_set_other.
Qed.

Lemma add_then_show_birthday_witness :
  add_birthday ["John"; "7.11.1990"] book_john
  = (dict_set "John"
       (mkRecord (name john_record) (phones john_record) (Some (mkField "7.11.1990")))
       book_john,
     Ok "Birthday added.")
  /\ show_birthday ["John"] (fst (add_birthday ["John"; "7.11.1990"] book_john))
     = (fst (add_birthday ["John"; "7.11.1990"] book_john), Ok "7.11.1990")
  /\ forall k, k <> "John" ->
       find k (fst (add_birthday ["John"; "7.11.1990"] book_john)) = find k book_john.
Proof.
  apply (add_then_show_birthday book_john "John" "7.11.1990" john_record).
  - reflexivity.
  - exists (mkdate 1990 11 7). split; [apply validb_valid; reflexivity|].
    exists "7", "11", "1990". split; [left; right; left; reflexivity|].
    split; [left; reflexivity|]. split; [|reflexivity].
    exists "1", "9", "9", "0". repeat split; reflexivity.
Defined.

(** X11.  [add_birthday] changes nothing when it reports an error: with a
    number of arguments other than two it returns its usage text, and for
    a name the book does not have "Contact not found.", even when the
    date is malformed.  [show_birthday] on a contact that [add_contact]
    has just created returns "No birthday set.". *)
Theorem birthday_handlers_edge_cases (book : AddressBook) :
  (forall args, List.length args <> 2%nat ->
     add_birthday args book
     = (book, Ok "Give me name and birthday in DD.MM.YYYY format."))
  /\ (forall n s, find n book = None ->
        add_birthday [n; s] book = (book, Ok "Contact not found.")
        /\ show_birthday [n] book = (book, Ok "Contact not found."))
  /\ (forall n p rest, find n book = None -> ten_digits p ->
        show_birthday [n] (fst (add_contact (n :: p :: rest) book))
        = (fst (add_contact (n :: p :: rest) book), Ok "No birthday set.")).
Proof.
  split.
  { intros args Hlen. unfold add_birthday, input_error, add_birthday_func.
    destruct args as [|a [|b [|c rest]]]; try reflexivity.
    exfalso. apply Hlen. reflexivity. }
  split.
  - intros n s Hf. unfold add_birthday, show_birthday, input_error,
      add_birthday_func, show_birthday_func. now rewrite Hf.
  - intros n p rest Hf Hp.
    rewrite (add_contact_new book n p rest Hf Hp). cbn [fst].
    unfold show_birthday, input_error, show_birthday_func, find.
    now rewrite dict_get_set_same.
Qed.

(** ** The invariant of the birthdays *)

Section BirthdaysInvariant.

Lemma method_keeps_birthday_valid m r :
  record_method m -> birthday_valid r -> birthday_valid (fst (m r)).
Proof.
  intros Hm Hr. destruct Hm as [p | p | o n | b].
  - unfold add_phone. destruct (Phone_init p); exact Hr.
  - exact Hr.
  - unfold edit_phone. destruct (Re.fullmatch phone_pattern n); [|exact Hr].
    destruct (edit_phone_loop o n (phones r) false) as [ps found].
    destruct (negb found); exact Hr.
  - unfold add_birthday_m.
    destruct (Birthday_init_cases b) as [[Hl ->] | [_ ->]]; [|exact Hr].
    intros bd E. cbn in E. inversion E; subst. exact Hl.
Qed.

Lemma built_birthday_valid r : built r -> birthday_valid r.
Proof.
  induction 1 as [n | m r _ IH Hm]; [intros bd E; discriminate E|].
  now apply method_keeps_birthday_valid.
Qed.

Lemma book_birthdays_call n r m book :
  book_birthdays_valid book -> find n book = Some r -> record_method m ->
  book_birthdays_valid (dict_set n (fst (m r)) book).
Proof.
  intros Hb Hf Hm. apply Forall_dict_set; [exact Hb|].
  apply method_keeps_birthday_valid; [exact Hm|].
  apply dict_get_in in Hf. exact (proj1 (Forall_forall _ _) Hb r Hf).
Qed.

Lemma add_contact_birthdays args book :
  book_birthdays_valid book -> book_birthdays_valid (fst (add_contact args book)).
Proof.
  intros Hb. unfold add_contact. rewrite input_error_book. unfold add_contact_func.
  destruct (list_len args <? 2); [exact Hb|].
  destruct args as [|n [|p rest]]; try exact Hb.
  destruct (find n book) as [r|] eqn:Hf.
  - rewrite call_on_eq.
    pose proof (book_birthdays_call n r _ book Hb Hf (call_add_phone p)) as Hb'.
    destruct (snd (add_phone p r)); cbn [fst]; [|exact Hb'].
    apply Forall_dict_set; [exact Hb'|].
    apply method_keeps_birthday_valid; [constructor|].
    apply dict_get_in in Hf. exact (proj1 (Forall_forall _ _) Hb r Hf).
  - pose proof (method_keeps_birthday_valid _ (Record_init n) (call_add_phone p)
                  (built_birthday_valid _ (built_init n))) as Hr'.
    destruct (add_phone p (Record_init n)) as [r' res]. cbn [fst] in Hr'.
    destruct res; cbn [fst]; [|exact Hb].
    now apply Forall_dict_set.
Qed.

Lemma change_contact_birthdays args book :
  book_birthdays_valid book -> book_birthdays_valid (fst (change_contact args book)).
Proof.
  intros Hb. unfold change_contact. rewrite input_error_book. unfold change_contact_func.
  destruct args as [|n [|o [|p [|x rest]]]]; try exact Hb.
  destruct (find n book) as [r|] eqn:Hf; [|exact Hb].
  rewrite call_on_eq.
  pose proof (book_birthdays_call n r _ book Hb Hf (call_edit_phone o p)) as Hb'.
  destruct (snd (edit_phone o p r)); exact Hb'.
Qed.

Lemma add_birthday_birthdays args book :
  book_birthdays_valid book -> book_birthdays_valid (fst (add_birthday args book)).
Proof.
  intros Hb. unfold add_birthday. rewrite input_error_book. unfold add_birthday_func.
  destruct args as [|n [|b [|x rest]]]; try exact Hb.
  destruct (find n book) as [r|] eqn:Hf; [|exact Hb].
  rewrite call_on_eq.
  pose proof (book_birthdays_call n r _ book Hb Hf (call_add_birthday b)) as Hb'.
  destruct (snd (add_birthday_m b r)); exact Hb'.
Qed.

Lemma main_step_birthdays today line book out book' :
  main_step today line book = Continue out book' ->
  book_birthdays_valid book -> book_birthdays_valid book'.
Proof.
  unfold main_step. destruct (parse_input line) as [|command args]; [discriminate|].
  intros H Hb.
  repeat match type of H with
         | (if ?b then _ else _) = _ => destruct b
         end;
    try discriminate;
    try (inversion H; subst; exact Hb);
    apply print_result_continue in H; subst book'.
  - now apply add_contact_birthdays.
  - now apply change_contact_birthdays.
  - now rewrite show_phone_book.
  - now rewrite show_all_book.
  - now apply add_birthday_birthdays.
  - now rewrite show_birthday_book.
  - now rewrite birthdays_book.
Qed.

Lemma reachable_birthdays_valid book : reachable book -> book_birthdays_valid book.
Proof.
  induction 1 as [ | today line out book book' _ IH Hstep
                   | r book _ IH Hr | n book _ IH | n r m book _ IH Hf Hm ].
  - constructor.
  - exact (main_step_birthdays _ _ _ _ _ Hstep IH).
  - apply Forall_dict_set; [exact IH | now apply built_birthday_valid].
  - now apply Forall_dict_del.
  - now apply book_birthdays_call.
Qed.

End BirthdaysInvariant.

(** X12.  In every reachable state of the book, every stored birthday is
    a text [Birthday] accepts: [strptime] reads it as a valid calendar
    date, so the parse inside the scheduler cannot fail, and
    [show_birthday] returns a text that can be entered again. *)
Theorem reachable_birthdays_parse
    (book : AddressBook) (n : string) (r : Record_) (bd : Birthday) :
  reachable book -> find n book = Some r -> birthday r = Some bd ->
  exists dt,
    strptime (value bd) = Ok dt /\ valid dt
    /\ Birthday_init (value bd) = Ok bd
    /\ show_birthday [n] book = (book, Ok (value bd)).
Proof.
  intros Hreach Hf Hb.
  pose proof (reachable_birthdays_valid book Hreach) as Hall.
  apply dict_get_in in Hf as Hin.
  pose proof (proj1 (Forall_forall _ _) Hall r Hin bd Hb) as (dt & Hv & Ht).
  exists dt. split; [now apply strptime_texts|]. split; [exact Hv|]. split.
  - unfold Birthday_init. rewrite (strptime_texts _ dt Hv Ht). now destruct bd.
  - unfold show_birthday, input_error, show_birthday_func. now rewrite Hf, Hb.
Qed.

Lemma reachable_birthdays_parse_witness :
  exists dt,
    strptime (value (mkField "01.03.1990")) = Ok dt /\ valid dt
    /\ Birthday_init (value (mkField "01.03.1990")) = Ok (mkField "01.03.1990")
    /\ show_birthday ["John"] book_john = (book_john, Ok (value (mkField "01.03.1990"))).
Proof.
  apply (reachable_birthdays_parse book_john "John" john_record (mkField "01.03.1990")).
  - exact reachable_book_john.
  - reflexivity.
  - reflexivity.
Defined.

(** ** More on [AddressBook.get_upcoming_birthdays] *)

Section SchedulerEdges.

Lemma upcoming_loop_skip today rs : forall acc,
  upcoming_loop today rs acc = upcoming_loop today (filter has_birthday rs) acc.
Proof.
  induction rs as [|r rs IH]; intros acc; [reflexivity|].
  cbn [filter]. unfold has_birthday at 1.
  destruct (birthday r) as [bd|] eqn:Hb.
  - rewrite !upcoming_loop_cons. destruct (congratulate today r); cbn [rbind]; auto.
  - cbn [upcoming_loop]. rewrite Hb. apply IH.
Qed.

Lemma same_year_distance a b :
  valid a -> valid b -> year a = year b -> toordinal a - toordinal b <= 365.
Proof.
  intros Ha Hb E. pose proof (day_of_year_bounds a Ha) as Da.
  pose proof (day_of_year_bounds b Hb) as Db.
  unfold toordinal, ymd2ord. rewrite E in *.
  destruct (is_leap (year b)); lia.
Qed.

Lemma day_fits_any_year y0 y m d :
  valid (mkdate y0 m d) -> not_feb29 (mkdate y0 m d) -> 1 <= d <= days_in_month y m.
Proof.
  unfold valid, not_feb29, days_in_month. cbn [year month day].
  intros (_ & Hm & Hd) Hn.
  destruct (is_leap y0), (is_leap y); split_month m; lia.
Qed.

Lemma anniversary_total today b :
  valid today -> year today < 9999 -> valid b -> not_feb29 b ->
  exists a, anniversary today b = Ok a.
Proof.
  intros Ht Hy Hb Hn. destruct b as [y0 m d].
  pose proof (day_fits_any_year y0 (year today) m d Hb Hn) as H1.
  pose proof (day_fits_any_year y0 (year today + 1) m d Hb Hn) as H2.
  destruct Hb as (_ & Hm & _). destruct Ht as (Hyt & _). cbn [month] in Hm.
  unfold MINYEAR, MAXYEAR in Hyt.
  assert (V1 : valid (mkdate (year today) m d))
    by (unfold valid, MINYEAR, MAXYEAR; cbn [year month day]; lia).
  assert (V2 : valid (mkdate (year today + 1) m d))
    by (unfold valid, MINYEAR, MAXYEAR; cbn [year month day]; lia).
  unfold anniversary, replace_year. cbn [month day].
  rewrite (proj2 (date_new_ok _ _ _ _) (conj eq_refl V1)). cbn [rbind].
  destruct (lt _ today); [|eauto].
  rewrite (proj2 (date_new_ok _ _ _ _) (conj eq_refl V2)). eauto.
Qed.

Lemma congratulate_total today r :
  (forall bd, birthday r = Some bd -> exists b a,
      strptime (value bd) = Ok b /\ anniversary today b = Ok a) ->
  exists l, congratulate today r = Ok l.
Proof.
  intros H. unfold congratulate. destruct (birthday r) as [bd|]; [|eauto].
  destruct (H bd eq_refl) as (b & a & -> & Ha). cbn [rbind]. rewrite Ha. cbn [rbind].
  destruct (_ && _); [|eauto].
  destruct (anniversary_valid _ _ _ Ha) as [Hv _].
  destruct (congratulation_day_spec a Hv) as (m & -> & _). cbn [rbind]. eauto.
Qed.

Lemma upcoming_loop_total today rs :
  Forall (fun r => exists l, congratulate today r = Ok l) rs ->
  forall acc, exists out, upcoming_loop today rs acc = Ok out.
Proof.
  induction 1 as [|r rs [l Hl] _ IH]; intros acc; [cbn; eauto|].
  rewrite upcoming_loop_cons, Hl. cbn [rbind]. apply IH.
Qed.

End SchedulerEdges.

(** X13.  The scheduler skips the records that have no birthday: its
    result on a book is its result on the records with a birthday.  On a
    book where no record has a birthday it returns the empty list, for
    any date, and the [birthdays] command returns "No birthdays in next
    week.". *)
Theorem scheduler_skips_without_birthday
    (today : date) (book : AddressBook) (args : list string) :
  get_upcoming_birthdays today book
  = upcoming_loop today (filter has_birthday (dict_values book)) []
  /\ (Forall (fun r => birthday r = None) (dict_values book) ->
      get_upcoming_birthdays today book = Ok []
      /\ birthdays today args book = (book, Ok "No birthdays in next week.")).
Proof.
  unfold get_upcoming_birthdays. split; [apply upcoming_loop_skip|].
  intros Hnone.
  assert (E : upcoming_loop today (dict_values book) [] = Ok []).
  { rewrite upcoming_loop_skip.
    assert (F : filter has_birthday (dict_values book) = []).
    { induction Hnone as [|r rs Hr _ IH]; [reflexivity|].
      cbn [filter]. unfold has_birthday at 1. now rewrite Hr. }
    now rewrite F. }
  split; [exact E|].
  unfold birthdays, input_error, birthdays_func, get_upcoming_birthdays.
  now rewrite E.
Qed.

(** X14.  The anniversary the scheduler computes is never in the past and
    at most 365 days ahead: after the roll to next year [days_to_bday] is
    between 0 and 365, so the test [0 <= days_to_bday] always holds and
    only [days_to_bday <= 7] decides. *)
Theorem anniversary_days_range (today b a : date) :
  valid today -> anniversary today b = Ok a ->
  0 <= days_ahead today a <= 365
  /\ (0 <=? days_ahead today a) && (days_ahead today a <=? 7)
     = (days_ahead today a <=? 7).
Proof.
  intros Hv Ha.
  assert (Hrange : 0 <= days_ahead today a <= 365).
  { unfold anniversary in Ha.
    destruct (replace_year b (year today)) as [t|] eqn:Ht; [|discriminate].
    cbn [rbind] in Ha. apply replace_year_fields in Ht as [Et Hvt].
    assert (Eyear : year t = year today) by (subst t; reflexivity).
    pose proof (same_year_distance t today Hvt Hv Eyear) as D1.
    pose proof (same_year_distance today t Hv Hvt (eq_sym Eyear)) as D2.
    unfold days_ahead, sub_days.
    destruct (lt t today) eqn:Hlt.
    - apply replace_year_fields in Ha as [Ea Hva].
      apply (lt_iff_toordinal t today Hvt Hv) in Hlt.
      assert (Hvt' : valid (mkdate (year today) (month b) (day b)))
        by (rewrite <- Et; exact Hvt).
      assert (Hva' : valid (mkdate (year today + 1) (month b) (day b)))
        by (rewrite <- Ea; exact Hva).
      pose proof (next_year_gap _ _ _ Hvt' Hva') as Hgap.
      subst t a. unfold toordinal in *. cbn [year month day] in *. lia.
    - inversion Ha; subst a.
      assert (Hge : ~ toordinal t < toordinal today).
      { intros H. apply (lt_iff_toordinal t today Hvt Hv) in H. congruence. }
      lia. }
  split; [exact Hrange|].
  destruct (Z.leb_spec 0 (days_ahead today a)); [reflexivity | lia].
Qed.

Lemma anniversary_days_range_witness :
  0 <= days_ahead d20261104 (mkdate 2027 11 3) <= 365
  /\ (0 <=? days_ahead d20261104 (mkdate 2027 11 3))
     && (days_ahead d20261104 (mkdate 2027 11 3) <=? 7)
     = (days_ahead d20261104 (mkdate 2027 11 3) <=? 7).
Proof.
  apply (anniversary_days_range d20261104 (mkdate 1970 11 3) (mkdate 2027 11 3)).
  - exact valid_d20261104.
  - reflexivity.
Defined.

(** X15.  When today's year is before 9999 and no stored birthday is on
    29 February, the scheduler returns a list: it raises nothing, whatever
    the dates are. *)
Theorem scheduler_total_without_feb29 (today : date) (book : AddressBook) :
  valid today -> year today < 9999 ->
  Forall (fun r => forall bd, birthday r = Some bd ->
                     exists b, strptime (value bd) = Ok b /\ not_feb29 b)
         (dict_values book) ->
  exists out, get_upcoming_birthdays today book = Ok out.
Proof.
  intros Hv Hy Hall. unfold get_upcoming_birthdays. apply upcoming_loop_total.
  apply Forall_forall. intros r Hin.
  pose proof (proj1 (Forall_forall _ _) Hall r Hin) as Hr.
  apply congratulate_total. intros bd Hb. destruct (Hr bd Hb) as (b & Hs & Hn).
  pose proof (proj1 (strptime_ok_texts _ _ Hs)) as Hvb.
  destruct (anniversary_total today b Hv Hy Hvb Hn) as [a Ha]. eauto.
Qed.

Lemma book_nov_without_feb29 :
  Forall (fun r => forall bd, birthday r = Some bd ->
                     exists b, strptime (value bd) = Ok b /\ not_feb29 b)
         (dict_values book_nov).
Proof.
  repeat constructor; cbn [birthday]; intros bd E; inversion E; subst;
    eexists; (split; [vm_compute; reflexivity|]);
    unfold not_feb29; cbn [month day]; lia.
Qed.

Lemma scheduler_total_without_feb29_witness :
  exists out, get_upcoming_birthdays d20261104 book_nov = Ok out.
Proof.
  apply (scheduler_total_without_feb29 d20261104 book_nov).
  - exact valid_d20261104.
  - unfold d20261104; cbn [year]; lia.
  - exact book_nov_without_feb29.
Defined.

(** X16.  A birthday on 29 February when today's year is a leap year: up
    to 29 February the anniversary is 29 February of this year; after it
    the roll to next year, which is no leap year, raises [ValueError],
    the scheduler returns no list, and [birthdays] returns the text of
    the error. *)
Theorem feb29_in_leap_year
    (today : date) (book : AddressBook) (args : list string)
    (r : Record_) (bd : Birthday) (b : date) :
  valid today -> is_leap (year today) = true ->
  In r (dict_values book) -> birthday r = Some bd ->
  strptime (value bd) = Ok b -> month b = 2 -> day b = 29 ->
  (lt (mkdate (year today) 2 29) today = false ->
   anniversary today b = Ok (mkdate (year today) 2 29))
  /\ (lt (mkdate (year today) 2 29) today = true ->
      replace_year (mkdate (year today) 2 29) (year today + 1)
      = Raise (ValueError "day is out of range for month")
      /\ exists msg,
           get_upcoming_birthdays today book = Raise (ValueError msg)
           /\ birthdays today args book = (book, Ok msg)).
Proof.
  intros Hv Hl Hin Hb Hs Hm Hd.
  assert (Hy : MINYEAR <= year today <= MAXYEAR) by apply Hv.
  assert (Hthis : replace_year b (year today) = Ok (mkdate (year today) 2 29)).
  { unfold replace_year. rewrite Hm, Hd. apply date_new_ok. split; [reflexivity|].
    unfold valid, days_in_month. cbn [year month day]. rewrite Hl. cbn. lia. }
  assert (Hnext : MINYEAR <= year today + 1 <= MAXYEAR /\ is_leap (year today + 1) = false).
  { revert Hl. unfold is_leap, MINYEAR, MAXYEAR in *.
    destruct (Z.eqb_spec (year today mod 4) 0); [|discriminate]. intros _.
    destruct (Z.eqb_spec ((year today + 1) mod 4) 0);
      [exfalso; Z.div_mod_to_equations; lia|].
    split; [Z.div_mod_to_equations; lia | reflexivity]. }
  destruct Hnext as [Hy1 Hl1].
  split.
  - intros Hlt. unfold anniversary. rewrite Hthis. cbn [rbind]. now rewrite Hlt.
  - intros Hlt.
    assert (Hroll : replace_year (mkdate (year today) 2 29) (year today + 1)
                    = Raise (ValueError "day is out of range for month"))
      by (apply replace_year_feb29; [exact Hy1 | exact Hl1 | reflexivity | reflexivity]).
    split; [exact Hroll|].
    assert (Hbad : is_ok (congratulate today r) = false).
    { unfold congratulate, anniversary. rewrite Hb, Hs. cbn [rbind].
      rewrite Hthis. cbn [rbind]. rewrite Hlt.
      replace (replace_year b (year today + 1))
        with (replace_year (mkdate (year today) 2 29) (year today + 1))
        by (unfold replace_year; cbn [month day]; now rewrite Hm, Hd).
      rewrite Hroll. reflexivity. }
    destruct (upcoming_loop_raises today (dict_values book) [] r Hin Hbad)
      as (r' & e & _ & Hc & Hloop).
    destruct (congratulate_raises_ValueError _ _ _ Hc) as [msg ->].
    exists msg. split; [exact Hloop|].
    unfold birthdays, input_error, birthdays_func, get_upcoming_birthdays.
    now rewrite Hloop.
Qed.

Lemma feb29_in_leap_year_witness :
  (lt (mkdate (year d20240301) 2 29) d20240301 = false ->
   anniversary d20240301 (mkdate 2000 2 29) = Ok (mkdate (year d20240301) 2 29))
  /\ (lt (mkdate (year d20240301) 2 29) d20240301 = true ->
      replace_year (mkdate (year d20240301) 2 29) (year d20240301 + 1)
      = Raise (ValueError "day is out of range for month")
      /\ exists msg,
           get_upcoming_birthdays d20240301 book_feb29 = Raise (ValueError msg)
           /\ birthdays d20240301 [] book_feb29 = (book_feb29, Ok msg)).
Proof.
  apply (feb29_in_leap_year d20240301 book_feb29 []
           (mkRecord (mkField "Bob") [] (Some (mkField "29.02.2000")))
           (mkField "29.02.2000") (mkdate 2000 2 29)).
  - apply validb_valid. reflexivity.
  - reflexivity.
  - right; left; reflexivity.
  - reflexivity.
  - reflexivity.
  - reflexivity.
  - reflexivity.
Defined.

Example feb29_leap_year_runs :
  get_upcoming_birthdays (mkdate 2024 2 25) book_feb29
  = Ok [mkCongratulation "Ann" "01.03.2024"; mkCongratulation "Bob" "29.02.2024"]
  /\ get_upcoming_birthdays d20240301 book_feb29
     = Raise (ValueError "day is out of range for month").
Proof. split; vm_compute; reflexivity. Qed.

(** X17.  The day the scheduler reports is never a Saturday or a Sunday,
    and it is today or one of the next 9 days: at most 7 days to the
    anniversary and at most 2 more to the Monday. *)
Theorem congratulation_day_is_workday
    (today : date) (book : AddressBook) (out : list Congratulation)
    (entry : Congratulation) :
  get_upcoming_birthdays today book = Ok out -> In entry out ->
  exists m,
    valid m /\ congratulation_date entry = strftime m
    /\ 0 <= weekday m < 5
    /\ 0 <= days_ahead today m <= 9.
Proof.
  intros Hout Hin. unfold get_upcoming_birthdays in Hout.
  apply upcoming_loop_ok in Hout as (ls & HF & ->). cbn [app] in Hin.
  destruct (Forall2_concat_in _ _ _ _ HF Hin) as (r & l & Hr & Hc & Hl).
  destruct (congratulate_entry _ _ _ _ Hc Hl)
    as (bd & b & a & m & Hb & Hs & Ha & Hweek7 & Hm & ->).
  destruct (anniversary_valid _ _ _ Ha) as (Hva & _).
  destruct (congratulation_day_spec a Hva) as (m' & Hm' & Hvm & Hweek & Hweekend).
  rewrite Hm in Hm'. inversion Hm'; subst m'. clear Hm'.
  pose proof (weekday_range a) as Hw.
  exists m. split; [exact Hvm|]. split; [reflexivity|].
  unfold days_ahead, sub_days in *.
  destruct (Z.lt_ge_cases (weekday a) 5) as [Hlt|Hge].
  - rewrite (Hweek Hlt). lia.
  - destruct (Hweekend Hge) as [Hw0 Ho]. lia.
Qed.

Lemma congratulation_day_is_workday_witness :
  exists m,
    valid m /\ congratulation_date (mkCongratulation "Sam" "09.11.2026") = strftime m
    /\ 0 <= weekday m < 5
    /\ 0 <= days_ahead d20261104 m <= 9.
Proof.
  apply (congratulation_day_is_workday d20261104 book_nov
           [mkCongratulation "Eve" "11.11.2026"; mkCongratulation "Sam" "09.11.2026"]).
  - vm_compute. reflexivity.
  - right; left; reflexivity.
Defined.

(** ** [parse_input] *)

Section ParseInput.

Lemma space_start_boundary q : space_start q -> boundary (text q) = true.
Proof.
  destruct q as [|ch q]; [reflexivity|]. cbn [space_start text]. intros H.
  apply char_boundary. now apply isspace_scalar.
Qed.

Lemma split_from_runs cs : forall w pre,
  forallb (fun ch => negb (isspace ch)) w = true ->
  Forall (fun l => l <> [] /\ forallb (fun ch => negb (isspace ch)) l = true
                   /\ exists p q, (pre ++ w ++ cs)%list = (p ++ l ++ q)%list
                                  /\ space_start q)
         (split_from cs w).
Proof.
  induction cs as [|ch cs IH]; intros w pre Hw; cbn [split_from].
  - destruct w as [|x w]; constructor; [|constructor].
    split; [discriminate|]. split; [exact Hw|].
    exists pre, []. split; [reflexivity | exact I].
  - destruct (isspace ch) eqn:Hc.
    + assert (Hrest : Forall
                (fun l => l <> [] /\ forallb (fun ch => negb (isspace ch)) l = true
                          /\ exists p q, (pre ++ w ++ ch :: cs)%list = (p ++ l ++ q)%list
                                         /\ space_start q)
                (split_from cs [])).
      { specialize (IH [] (pre ++ w ++ [ch])%list eq_refl).
        eapply Forall_impl; [|exact IH]. cbn beta.
        intros l (Hne & Hl & p & q & E & Hq). split; [exact Hne|]. split; [exact Hl|].
        exists p, q. split; [|exact Hq]. rewrite <- E.
        cbn [app]. rewrite <- !app_assoc. reflexivity. }
      destruct w as [|x w]; [exact Hrest|].
      constructor; [|exact Hrest].
      split; [discriminate|]. split; [exact Hw|].
      exists pre, (ch :: cs). split; [reflexivity | exact Hc].
    + specialize (IH (w ++ [ch])%list pre).
      rewrite forallb_app in IH. cbn [forallb] in IH. rewrite Hw, Hc in IH.
      specialize (IH eq_refl).
      eapply Forall_impl; [|exact IH]. cbn beta.
      intros l (Hne & Hl & p & q & E & Hq). split; [exact Hne|]. split; [exact Hl|].
      exists p, q. split; [|exact Hq]. rewrite <- E.
      rewrite <- !app_assoc. reflexivity.
Qed.

Lemma chars_nil s : chars s = [] -> s = "".
Proof. intros H. rewrite <- (text_chars s), H. reflexivity. Qed.

Lemma split_words s : Forall word (PyStr.split s).
Proof.
  unfold PyStr.split. apply Forall_forall. intros t Ht.
  apply in_map_iff in Ht as (l & <- & Hl).
  pose proof (proj1 (Forall_forall _ _) (split_from_runs (chars s) [] [] eq_refl) l Hl)
    as (Hne & Hns & p & q & E & Hq).
  cbn [app] in E.
  pose proof (chars_infix s p l q E (space_start_boundary q Hq)) as Hc.
  split.
  - intros H. rewrite H in Hc. cbn in Hc. congruence.
  - unfold nonspace. now rewrite Hc.
Qed.

Lemma split_from_lstrip l : split_from (lstrip_chars l) [] = split_from l [].
Proof.
  induction l as [|ch l IH]; [reflexivity|]. cbn [lstrip_chars].
  destruct (isspace ch) eqn:Hc; [|reflexivity].
  cbn [split_from]. now rewrite Hc.
Qed.

Lemma split_from_spaces ws : forall w,
  forallb isspace ws = true ->
  split_from ws w = match w with [] => [] | _ => [w] end.
Proof.
  induction ws as [|ch ws IH]; intros w H; [reflexivity|].
  cbn [forallb] in H. apply andb_true_iff in H as [Hc Hws].
  cbn [split_from]. rewrite Hc, (IH [] Hws). reflexivity.
Qed.

Lemma split_from_trailing a ws : forall w,
  forallb isspace ws = true -> split_from (a ++ ws) w = split_from a w.
Proof.
  induction a as [|ch a IH]; intros w H.
  - cbn [app split_from]. now apply split_from_spaces.
  - cbn [app split_from]. destruct (isspace ch); rewrite ?IH by exact H; reflexivity.
Qed.

Lemma split_from_rstrip l w : split_from (rstrip_chars l) w = split_from l w.
Proof.
  destruct (rstrip_chars_split l) as (ws & E & H).
  rewrite E at 2. symmetry. now apply split_from_trailing.
Qed.

Lemma parse_input_split line : parse_input line = PyStr.split line.
Proof.
  unfold parse_input, PyStr.split. rewrite chars_strip.
  now rewrite split_from_rstrip, split_from_lstrip.
Qed.

Lemma split_from_prefix l : forall rest acc,
  forallb (fun ch => negb (isspace ch)) l = true ->
  split_from (l ++ rest) acc = split_from rest (acc ++ l).
Proof.
  induction l as [|ch l IH]; intros rest acc Hl.
  - cbn [app]. now rewrite app_nil_r.
  - cbn [forallb] in Hl. apply andb_true_iff in Hl as [Hc Hl].
    apply negb_true_iff in Hc.
    cbn [app split_from]. rewrite Hc, (IH rest _ Hl), <- app_assoc. reflexivity.
Qed.

Lemma chars_space_cons s : chars (String " " s) = " " :: chars s.
Proof. now rewrite chars_next, (next_ascii " " s) by (vm_compute; reflexivity). Qed.

Lemma split_join ws : Forall word ws -> PyStr.split (join " " ws) = ws.
Proof.
  unfold PyStr.split.
  induction 1 as [|w ws [Hne Hw] Hws IH]; [reflexivity|].
  assert (Hc : chars w <> []) by (intros H; apply Hne; now apply chars_nil).
  destruct ws as [|w2 ws'].
  - cbn [join]. rewrite <- (app_nil_r (chars w)).
    rewrite (split_from_prefix (chars w) [] [] Hw). cbn [app split_from].
    destruct (chars w) eqn:E; [contradiction|]. cbn [map]. now rewrite <- E, text_chars.
  - change (join " " (w :: w2 :: ws')) with (w ++ String " " (join " " (w2 :: ws')))%string.
    rewrite chars_app by reflexivity. rewrite chars_space_cons.
    rewrite (split_from_prefix (chars w) _ [] Hw). cbn [app split_from].
    change (isspace " ") with true. cbv iota.
    destruct (chars w) eqn:E; [contradiction|]. cbn [map]. rewrite <- E, text_chars.
    now rewrite IH.
Qed.

End ParseInput.

(** X18.  [parse_input] returns the words of the line: each is non-empty
    and has no whitespace in it; the [strip()] before [split()] changes
    nothing; and a list of words joined by single spaces is parsed back
    to that list. *)
Theorem parse_input_words (line : string) :
  Forall word (parse_input line)
  /\ parse_input line = PyStr.split line
  /\ (forall ws, Forall word ws -> parse_input (join " " ws) = ws).
Proof.
  split; [rewrite parse_input_split; apply split_words|].
  split; [apply parse_input_split|].
  intros ws Hws. rewrite parse_input_split. now apply split_join.
Qed.

(** ** The loop of [main] *)

Section MainLoop.

Lemma main_loop_app pre : forall post book outs book1,
  main_loop pre book = (outs, Waiting book1) ->
  main_loop (pre ++ post) book
  = (let '(outs2, st) := main_loop post book1 in ((outs ++ outs2)%list, st)).
Proof.
  induction pre as [|[today line] pre IH]; intros post book outs book1 H.
  - cbn in H. inversion H; subst. cbn [app]. now destruct (main_loop post book1).
  - cbn [app main_loop] in *.
    destruct (main_step today line book) as [out book'| out | e]; try discriminate.
    destruct (main_loop pre book') as [outs' st] eqn:E.
    inversion H; subst. rewrite (IH post book' outs' book1 E).
    now destruct (main_loop post book1).
Qed.

Lemma main_step_exit today line book command args :
  parse_input line = command :: args -> command = "close" \/ command = "exit" ->
  main_step today line book = Exit "Good bye!".
Proof. unfold main_step. intros -> [-> | ->]; reflexivity. Qed.

End MainLoop.

(** X19.  The loop carries the book from one line to the next: running it
    on [pre ++ post] is running it on [pre] and then on [post] from the
    book [pre] left.  A line whose first word is [close] or [exit] prints
    "Good bye!" and ends the loop: no line after it is read. *)
Theorem main_loop_exit_stops
    (pre post : list (date * string)) (book book1 : AddressBook)
    (outs : list string) (today : date) (line command : string)
    (args : list string) :
  main_loop pre book = (outs, Waiting book1) ->
  parse_input line = command :: args -> command = "close" \/ command = "exit" ->
  main_loop (pre ++ post) book
  = (let '(outs2, st) := main_loop post book1 in ((outs ++ outs2)%list, st))
  /\ main_loop (pre ++ (today, line) :: post) book
     = ((outs ++ ["Good bye!"])%list, Exited).
Proof.
  intros Hpre Hparse Hcmd. split; [now apply main_loop_app|].
  rewrite (main_loop_app pre _ book outs book1 Hpre). cbn [main_loop].
  now rewrite (main_step_exit today line book1 command args Hparse Hcmd).
Qed.

Lemma main_loop_exit_stops_witness :
  main_loop ([(d20261104, "add John 1112223333")] ++ [(d20261104, "all")]) []
  = (let '(outs2, st) :=
       main_loop [(d20261104, "all")]
                 [("John", mkRecord (mkField "John") [mkField "1112223333"] None)] in
     ((["Contact added/updated."] ++ outs2)%list, st))
  /\ main_loop ([(d20261104, "add John 1112223333")]
               ++ (d20261104, "exit now") :: [(d20261104, "all")]) []
     = ((["Contact added/updated."] ++ ["Good bye!"])%list, Exited).
Proof.
  apply (main_loop_exit_stops [(d20261104, "add John 1112223333")] [(d20261104, "all")]
           [] [("John", mkRecord (mkField "John") [mkField "1112223333"] None)]
           ["Contact added/updated."] d20261104 "exit now" "exit" ["now"]).
  - reflexivity.
  - reflexivity.
  - right; reflexivity.
Defined.

(** X20.  Only [add], [change] and [add-birthday] can change the book: a
    round of the loop on any other first word leaves the book as it was.
    A first word that is none of the ten commands, which are matched
    exactly and so with their case, prints "Invalid command.". *)
Theorem main_step_read_only
    (today : date) (line command : string) (args : list string) (book : AddressBook) :
  parse_input line = command :: args ->
  (~ In command mutating_commands ->
   forall out book', main_step today line book = Continue out book' -> book' = book)
  /\ (~ In command known_commands ->
      main_step today line book = Continue "Invalid command." book).
Proof.
  intros Hparse. unfold main_step. rewrite Hparse.
  unfold mutating_commands, known_commands. cbn [In].
  split.
  - intros Hnot out book' H.
    repeat match type of H with
           | (if (?a =? ?b)%string || _ then _ else _) = _ =>
               destruct (String.eqb_spec a b); cbn [orb] in H
           | (if (?a =? ?b)%string then _ else _) = _ =>
               destruct (String.eqb_spec a b)
           end;
      try discriminate; try (exfalso; subst; apply Hnot; auto 12; fail);
      try (inversion H; reflexivity);
      apply print_result_continue in H; subst book'.
    + apply show_phone_book.
    + apply show_all_book.
    + apply show_birthday_book.
    + apply birthdays_book.
  - intros Hnot.
    repeat match goal with
           | |- (if (?a =? ?b)%string || _ then _ else _) = _ =>
               destruct (String.eqb_spec a b); cbn [orb]
           | |- (if (?a =? ?b)%string then _ else _) = _ =>
               destruct (String.eqb_spec a b)
           end;
      try (exfalso; subst; apply Hnot; auto 12; fail); reflexivity.
Qed.

Lemma main_step_read_only_witness :
  (~ In "ADD" mutating_commands ->
   forall out book',
     main_step d20261104 "ADD John 1112223333" book_john = Continue out book' ->
     book' = book_john)
  /\ (~ In "ADD" known_commands ->
      main_step d20261104 "ADD John 1112223333" book_john
      = Continue "Invalid command." book_john).
Proof.
  apply (main_step_read_only d20261104 "ADD John 1112223333" "ADD"
           ["John"; "1112223333"] book_john).
  reflexivity.
Defined.

(** ** The names the loop stores *)

Section LoopNames.

Lemma loop_reachable_reachable book : loop_reachable book -> reachable book.
Proof.
  induction 1 as [|today line out book book' _ IH Hstep]; [constructor|].
  exact (reach_main_step today line out book book' IH Hstep).
Qed.

Lemma dict_get_some_key {V} k (v : V) d : dict_get k d = Some v -> In k (dict_keys d).
Proof.
  intros H. destruct (in_dec string_dec k (dict_keys d)) as [Hin|Hnot]; [exact Hin|].
  apply dict_get_none_keys in Hnot. congruence.
Qed.

Lemma keys_dict_set_found {V} n (v v0 : V) d x :
  dict_get n d = Some v0 -> In x (dict_keys (dict_set n v d)) -> In x (dict_keys d).
Proof. intros Hf. now rewrite (dict_keys_set n v v0 d Hf). Qed.

Lemma add_contact_keys args book x :
  book_wf book ->
  In x (dict_keys (fst (add_contact args book))) -> In x (dict_keys book) \/ In x args.
Proof.
  intros Hwf. unfold add_contact. rewrite input_error_book. unfold add_contact_func.
  destruct (list_len args <? 2); [auto|].
  destruct args as [|n [|p rest]]; auto.
  destruct (find n book) as [r|] eqn:Hf.
  - rewrite call_on_eq.
    assert (Hname : record_name (fst (add_phone p r)) = n).
    { rewrite (method_keeps_name _ r (call_add_phone p)).
      exact (book_wf_find _ _ _ Hwf Hf). }
    destruct (snd (add_phone p r)); cbn [fst]; intros H; left.
    + unfold add_record in H. fold (record_name (fst (add_phone p r))) in H.
      rewrite Hname, dict_set_twice in H. exact (keys_dict_set_found _ _ _ _ _ Hf H).
    + exact (keys_dict_set_found _ _ _ _ _ Hf H).
  - pose proof (method_keeps_name _ (Record_init n) (call_add_phone p)) as Hname.
    destruct (add_phone p (Record_init n)) as [r' res]. cbn [fst] in Hname.
    destruct res; cbn [fst]; [|auto].
    intros H. unfold add_record in H. fold (record_name r') in H. rewrite Hname in H.
    cbn [record_name Record_init Name_init name value] in H.
    apply in_keys_dict_set in H as [->|H]; [right; left; reflexivity | auto].
Qed.

Lemma change_contact_keys args book x :
  In x (dict_keys (fst (change_contact args book))) -> In x (dict_keys book).
Proof.
  unfold change_contact. rewrite input_error_book. unfold change_contact_func.
  destruct args as [|n [|o [|p [|y rest]]]]; auto.
  destruct (find n book) as [r|] eqn:Hf; [|auto].
  rewrite call_on_eq. destruct (snd (edit_phone o p r)); cbn [fst];
    exact (keys_dict_set_found _ _ _ _ _ Hf).
Qed.

Lemma add_birthday_keys args book x :
  In x (dict_keys (fst (add_birthday args book))) -> In x (dict_keys book).
Proof.
  unfold add_birthday. rewrite input_error_book. unfold add_birthday_func.
  destruct args as [|n [|b [|y rest]]]; auto.
  destruct (find n book) as [r|] eqn:Hf; [|auto].
  rewrite call_on_eq. destruct (snd (add_birthday_m b r)); cbn [fst];
    exact (keys_dict_set_found _ _ _ _ _ Hf).
Qed.

Lemma main_step_keys today line book out book' x :
  main_step today line book = Continue out book' -> book_wf book ->
  In x (dict_keys book') -> In x (dict_keys book) \/ In x (parse_input line).
Proof.
  unfold main_step. destruct (parse_input line) as [|command args]; [discriminate|].
  intros H Hwf.
  repeat match type of H with
         | (if ?b then _ else _) = _ => destruct b
         end;
    try discriminate;
    try (inversion H; subst; auto; fail);
    apply print_result_continue in H; subst book'; intros Hin.
  - destruct (add_contact_keys args book x Hwf Hin); [auto | right; right; assumption].
  - left. exact (change_contact_keys _ _ _ Hin).
  - left. now rewrite show_phone_book in Hin.
  - left. now rewrite show_all_book in Hin.
  - left. exact (add_birthday_keys _ _ _ Hin).
  - left. now rewrite show_birthday_book in Hin.
  - left. now rewrite birthdays_book in Hin.
Qed.

Lemma loop_keys_words book : loop_reachable book -> Forall word (dict_keys book).
Proof.
  induction 1 as [|today line out book book' Hreach IH Hstep]; [constructor|].
  apply Forall_forall. intros x Hin.
  pose proof (reachable_book_wf book (loop_reachable_reachable book Hreach)) as Hwf.
  destruct (main_step_keys _ _ _ _ _ x Hstep Hwf Hin) as [H|H].
  - exact (proj1 (Forall_forall _ _) IH x H).
  - rewrite parse_input_split in H.
    exact (proj1 (Forall_forall _ _) (split_words line) x H).
Qed.

End LoopNames.

(** X21.  Every contact the loop of [main] has stored is kept under its
    own name, and that name is a single word: it is not empty and has no
    whitespace in it. *)
Theorem loop_names_are_words (book : AddressBook) (n : string) (r : Record_) :
  loop_reachable book -> find n book = Some r ->
  record_name r = n /\ word n.
Proof.
  intros Hreach Hf. split.
  - exact (book_wf_find n r book
             (reachable_book_wf book (loop_reachable_reachable book Hreach)) Hf).
  - apply dict_get_some_key in Hf.
    exact (proj1 (Forall_forall _ _) (loop_keys_words book Hreach) n Hf).
Qed.

Lemma loop_reachable_one :
  loop_reachable [("John", mkRecord (mkField "John") [mkField "1112223333"] None)].
Proof.
  apply (loop_step d20261104 "add John 1112223333" "Contact added/updated." []).
  - apply loop_empty.
  - reflexivity.
Qed.

Lemma loop_names_are_words_witness :
  record_name (mkRecord (mkField "John") [mkField "1112223333"] None) = "John"
  /\ word "John".
Proof.
  apply (loop_names_are_words
           [("John", mkRecord (mkField "John") [mkField "1112223333"] None)]
           "John" (mkRecord (mkField "John") [mkField "1112223333"] None)).
  - exact loop_reachable_one.
  - reflexivity.
Defined.

(** ** [Record.__str__] and [show_all] *)

Section ShowAll.

Lemma all_chars_impl (p q : ascii -> bool) s :
  (forall c, p c = true -> q c = true) -> all_chars p s = true -> all_chars q s = true.
Proof.
  intros Hpq. induction s as [|c s IH]; [reflexivity|]. cbn [all_chars].
  intros H. apply andb_true_iff in H as [Hc Hs]. now rewrite (Hpq c Hc), (IH Hs).
Qed.

Lemma all_chars_app p a b :
  all_chars p (a ++ b) = all_chars p a && all_chars p b.
Proof.
  induction a as [|x a IH]; cbn [append all_chars]; [reflexivity|].
  now rewrite IH, andb_assoc.
Qed.

Lemma one_line_app a b : one_line a -> one_line b -> one_line (a ++ b).
Proof. unfold one_line. intros Ha Hb. now rewrite all_chars_app, Ha, Hb. Qed.

(** A character that is not whitespace has no line break in it. *)
Lemma char_one_line s ch r :
  next s = Some (ch, r) -> isspace ch = false -> one_line ch.
Proof.
  intros Hn Hsp. unfold one_line.
  destruct (next_bytes s ch r Hn) as [[c ->] | Ha].
  - cbn [all_chars]. destruct (Ascii.eqb_spec c "010"%char) as [->|]; [|reflexivity].
    vm_compute in Hsp. discriminate Hsp.
  - revert Ha. apply all_chars_impl. intros c Hc.
    destruct (Ascii.eqb_spec c "010"%char) as [->|]; [|reflexivity].
    vm_compute in Hc. discriminate Hc.
Qed.

Lemma chars_one_line (p : string -> bool) s :
  (forall ch, p ch = true -> isspace ch = false) ->
  forallb p (chars s) = true -> one_line s.
Proof.
  intros Hp. induction s as [|s ch r E IH] using chars_ind; [reflexivity|].
  rewrite chars_next, E. cbn [forallb]. intros H.
  apply andb_true_iff in H as [Hc Hr].
  pose proof (next_spec _ _ _ E) as [-> _].
  apply one_line_app; [exact (char_one_line _ _ _ E (Hp ch Hc)) | exact (IH Hr)].
Qed.

Lemma nonspace_one_line s : nonspace s -> one_line s.
Proof.
  apply chars_one_line. intros ch H. now apply negb_true_iff in H.
Qed.

Lemma isdecimal_not_space ch : isdecimal ch = true -> isspace ch = false.
Proof.
  unfold isdecimal. destruct (decimal ch) as [v|] eqn:E; [|discriminate].
  intros _. apply (decimal_facts ch v E).
Qed.

Lemma digits_one_line s : forallb isdecimal (chars s) = true -> one_line s.
Proof. apply chars_one_line. exact isdecimal_not_space. Qed.

Lemma decimal_one_line ch v : decimal ch = Some v -> one_line ch.
Proof.
  intros H. destruct (decimal_facts ch v H) as (_ & Hs & Hsp).
  exact (char_one_line (ch ++ "") ch "" (next_char ch "" Hs) Hsp).
Qed.

Lemma one_line_join sep parts :
  one_line sep -> Forall one_line parts -> one_line (join sep parts).
Proof.
  intros Hsep. induction 1 as [|p ps Hp Hps IH]; [reflexivity|].
  destruct ps as [|q ps]; [exact Hp|].
  change (join sep (p :: q :: ps)) with (p ++ sep ++ join sep (q :: ps))%string.
  apply one_line_app; [exact Hp|]. apply one_line_app; [exact Hsep | exact IH].
Qed.

Lemma forms_one_line (forms : list (string * Z)) t v :
  forallb (fun f => all_chars (fun c => negb (c =? "010")%char) (fst f)) forms = true ->
  In (t, v) forms -> one_line t.
Proof.
  intros H Hin. rewrite forallb_forall in H. exact (H (t, v) Hin).
Qed.

Lemma lenient_one_line s : lenient_date_string s -> one_line s.
Proof.
  intros (dt & Hv & D & M & Y & HD & HM & HY & ->).
  destruct (valid_day_month dt Hv) as [Hd Hm].
  pose proof (month_texts_in_forms _ _ Hm HM) as HMf.
  destruct HY as (a & b & c & e & Ha & Hb & Hc & He & ->).
  apply one_line_app.
  { destruct HD as [HD | (c1 & ch & Hc1 & -> & Hch)].
    - exact (forms_one_line day_forms D _ eq_refl (day_texts_in_forms _ _ Hd HD)).
    - change (String c1 ch) with (String c1 "" ++ ch).
      apply one_line_app; [destruct Hc1 as [-> | ->]; reflexivity|].
      exact (decimal_one_line _ _ Hch). }
  apply one_line_app; [reflexivity|].
  apply one_line_app; [exact (forms_one_line month_forms M _ eq_refl HMf)|].
  apply one_line_app; [reflexivity|].
  repeat apply one_line_app; eapply decimal_one_line; eassumption.
Qed.

Lemma Record_str_one_line r :
  one_line (record_name r) -> phones_valid r -> birthday_valid r ->
  one_line (Record_str r).
Proof.
  intros Hn Hp Hb. unfold Record_str.
  apply one_line_app; [reflexivity|].
  apply one_line_app; [exact Hn|].
  apply one_line_app.
  - destruct (birthday r) as [bd|] eqn:E; [|reflexivity].
    apply one_line_app; [reflexivity | apply lenient_one_line; now apply Hb].
  - apply one_line_app; [reflexivity|].
    apply one_line_join; [reflexivity|].
    apply Forall_forall. intros v Hv. apply in_map_iff in Hv as (p & <- & Hin).
    apply digits_one_line. exact (proj2 (proj1 (Forall_forall _ _) Hp p Hin)).
Qed.

Lemma lines_from_prefix w : forall rest acc,
  one_line w -> lines_from (w ++ rest) acc = lines_from rest (acc ++ w).
Proof.
  induction w as [|c w IH]; intros rest acc Hw.
  - cbn [append]. now rewrite append_nil_r.
  - unfold one_line in Hw. cbn [all_chars] in Hw.
    apply andb_true_iff in Hw as [Hc Hw]. apply negb_true_iff in Hc.
    cbn [append lines_from]. rewrite Hc, (IH rest _ Hw), append_assoc. reflexivity.
Qed.

Lemma lines_join parts :
  parts <> [] -> Forall one_line parts -> lines (join newline parts) = parts.
Proof.
  unfold lines. intros Hne H. induction H as [|p ps Hp Hps IH]; [contradiction|].
  destruct ps as [|q ps].
  - cbn [join]. rewrite <- (append_nil_r p) at 1.
    rewrite (lines_from_prefix p "" "" Hp). reflexivity.
  - change (join newline (p :: q :: ps))
      with (p ++ newline ++ join newline (q :: ps))%string.
    rewrite (lines_from_prefix p _ "" Hp). cbn [append newline lines_from].
    change ("010" =? "010")%char with true. cbv iota.
    rewrite IH by discriminate. reflexivity.
Qed.

(** The phones of a reachable book are 10-digit strings. *)
Lemma reachable_book_phones_valid book : reachable book -> book_phones_valid book.
Proof.
  induction 1 as [ | today line out book book' _ IH Hstep
                   | r book _ IH Hr | n book _ IH | n r m book _ IH Hf Hm ].
  - constructor.
  - exact (main_step_keeps _ _ _ _ _ Hstep IH).
  - apply add_record_keeps; [exact IH | now apply built_phones_valid].
  - now apply Forall_dict_del.
  - apply Forall_dict_set; [exact IH|].
    apply method_keeps_phones_valid; [exact Hm|].
    exact (find_phones_valid _ _ _ IH Hf).
Qed.

Lemma in_values_find (book : AddressBook) r :
  book_wf book -> In r (dict_values book) -> find (record_name r) book = Some r.
Proof.
  intros [Hnd Hf] Hin. unfold find, dict_values, dict_keys in *.
  induction book as [|[k r0] book IH]; [destruct Hin|].
  pose proof (Forall_inv Hf) as Hhd. pose proof (Forall_inv_tail Hf) as Htl.
  cbn [fst snd map] in *. apply NoDup_cons_iff in Hnd as [Hnotin Hnd'].
  cbn [dict_get]. destruct Hin as [E|Hin].
  - subst r0. rewrite Hhd. now rewrite String.eqb_refl.
  - destruct (String.eqb_spec k (record_name r)) as [E|E]; [|now apply IH].
    exfalso. apply Hnotin. rewrite E.
    specialize (IH Hnd' Htl Hin). exact (dict_get_some_key _ _ _ IH).
Qed.

End ShowAll.

(** X22.  For a book the loop of [main] has built, [show_all] returns one
    line per contact, in the order of the book, each the [__str__] of the
    record: splitting its text at the line breaks gives back exactly those
    texts, because no name, phone or birthday holds a line break.  The
    empty book gives "No contacts found.".  The book is left as it was. *)
Theorem show_all_one_line_per_contact (book : AddressBook) :
  loop_reachable book ->
  show_all [] = ([], Ok "No contacts found.")
  /\ (book <> [] ->
      exists out,
        show_all book = (book, Ok out)
        /\ lines out = map Record_str (dict_values book)
        /\ List.length (lines out) = List.length book).
Proof.
  intros Hloop. split; [reflexivity|]. intros Hne.
  pose proof (loop_reachable_reachable book Hloop) as Hreach.
  pose proof (reachable_book_wf book Hreach) as Hwf.
  pose proof (reachable_book_phones_valid book Hreach) as Hph.
  pose proof (reachable_birthdays_valid book Hreach) as Hbd.
  pose proof (loop_keys_words book Hloop) as Hw.
  exists (join newline (map Record_str (dict_values book))).
  assert (Hall : Forall one_line (map Record_str (dict_values book))).
  { apply Forall_forall. intros t Ht. apply in_map_iff in Ht as (r & <- & Hin).
    apply Record_str_one_line.
    - apply nonspace_one_line.
      pose proof (in_values_find book r Hwf Hin) as Hf.
      apply dict_get_some_key in Hf.
      exact (proj2 (proj1 (Forall_forall _ _) Hw _ Hf)).
    - exact (proj1 (Forall_forall _ _) Hph r Hin).
    - exact (proj1 (Forall_forall _ _) Hbd r Hin). }
  assert (Hlines : lines (join newline (map Record_str (dict_values book)))
                   = map Record_str (dict_values book)).
  { apply lines_join; [|exact Hall]. destruct book; [contradiction | discriminate]. }
  split; [destruct book; [contradiction | reflexivity]|].
  split; [exact Hlines|].
  rewrite Hlines. unfold dict_values. now rewrite !length_map.
Qed.

Lemma show_all_one_line_per_contact_witness :
  show_all [] = ([], Ok "No contacts found.")
  /\ ([("John", mkRecord (mkField "John") [mkField "1112223333"] None)] <> [] ->
      exists out,
        show_all [("John", mkRecord (mkField "John") [mkField "1112223333"] None)]
        = ([("John", mkRecord (mkField "John") [mkField "1112223333"] None)], Ok out)
        /\ lines out
           = map Record_str
               (dict_values
                  [("John", mkRecord (mkField "John") [mkField "1112223333"] None)])
        /\ List.length (lines out)
           = List.length
               [("John", mkRecord (mkField "John") [mkField "1112223333"] None)]).
Proof.
  exact (show_all_one_line_per_contact
           [("John", mkRecord (mkField "John") [mkField "1112223333"] None)]
           loop_reachable_one).
Defined.

Example show_all_two :
  show_all book_two
  = (book_two,
     Ok ("Contact name: John, birthday: 01.03.1990, phones: 1112223333"
         ++ newline
         ++ "Contact name: Ann, birthday: 01.03.1990, phones: 1112223333")).
Proof. reflexivity. Qed.
